(** * Skills scripts: a shallow embedding and its properties

    The Python scripts of the skills repository (PDF form-field extraction,
    PowerPoint text replacement and thumbnail grids, the Word-document
    validator, the Slack GIF builder and validator) are embedded as Rocq
    functions, one module per source file, and the behaviour the
    specification describes is proved about them.

    Conventions.  A Python [dict] is an association list in insertion
    order (iteration order is observable in the scripts).  A raised
    exception is a value of the [result] type.  Python [float]s are
    binary64 primitive floats where the script compares them, and
    rationals where they are only reported.  External libraries (pypdf,
    python-pptx, Pillow, numpy, imageio, lxml) are parameters of the
    sections that use them. *)

From Stdlib Require Import List String Ascii Bool Arith ZArith QArith Lia Lqa.
From Stdlib Require Import Sorting.Sorted Sorting.Permutation.
From Stdlib Require Import DecimalString.
From Stdlib Require Import Floats.PrimFloat.
Import ListNotations.

Set Implicit Arguments.
Set Warnings "-inexact-float,-register-all".

Close Scope Q_scope.
Open Scope string_scope.
Open Scope list_scope.
Open Scope nat_scope.

(** String concatenation, as Python's [+] on [str] and the pieces of an
    f-string. *)
Infix "+++" := String.append (at level 60, right associativity).

(* ================================================================== *)
(** * Python values shared by the scripts                              *)
(* ================================================================== *)

Module Py.

(** An exception: its class and its message. *)
Record exn : Type := Exn { exn_class : string; exn_msg : string }.

Inductive result (A : Type) : Type :=
| Ok (a : A)
| Raise (e : exn).

Arguments Ok {A} a.
Arguments Raise {A} e.

Definition bind {A B} (m : result A) (k : A -> result B) : result B :=
  match m with
  | Ok a => k a
  | Raise e => Raise e
  end.

Notation "x <- m ;; k" := (bind m (fun x => k))
  (at level 61, m at next level, right associativity).

(** The newline character of a [\n] escape, and the double quote. *)
Definition nl : string := String (ascii_of_nat 10) EmptyString.
Definition dquote : string := String (ascii_of_nat 34) EmptyString.

(** The classes that do not derive from [Exception]. *)
Definition is_Exception (e : exn) : bool :=
  negb (existsb (String.eqb (exn_class e))
          ["BaseException"; "KeyboardInterrupt"; "SystemExit";
           "GeneratorExit"; "BaseExceptionGroup"; "CancelledError"]).

(** [try: body except Exception as e: handler(e)]; what is not an
    [Exception] goes through. *)
Definition try_except {A} (body : result A) (handler : exn -> result A)
    : result A :=
  match body with
  | Ok a => Ok a
  | Raise e => if is_Exception e then handler e else Raise e
  end.

(** [str(n)] for an [int]. *)
Definition str_of_nat (n : nat) : string :=
  NilEmpty.string_of_uint (Nat.to_uint n).

Definition str_of_Z (z : Z) : string :=
  NilZero.string_of_int (Z.to_int z).

(** [range(start, stop, step)] for a positive step: [start], then
    [start + step], ... while below [stop].  The fuel [stop - start]
    is never exhausted when [step >= 1]. *)
Fixpoint range_fuel (fuel start stop step : nat) : list nat :=
  match fuel with
  | O => []
  | S fuel' =>
      if start <? stop
      then start :: range_fuel fuel' (start + step) stop step
      else []
  end.

Definition range (start stop step : nat) : list nat :=
  range_fuel (stop - start) start stop step.

(** [l[i]], an [IndexError] out of range. *)
Definition getitem {A} (l : list A) (i : nat) : result A :=
  match nth_error l i with
  | Some a => Ok a
  | None => Raise (Exn "IndexError" "list index out of range")
  end.

(** [[l[i] for i in idxs]] *)
Fixpoint getitems {A} (l : list A) (idxs : list nat) : result (list A) :=
  match idxs with
  | [] => Ok []
  | i :: idxs' =>
      a <- getitem l i ;;
      rest <- getitems l idxs' ;;
      Ok (a :: rest)
  end.

(** [[f(x) for x in l]], and a loop that appends [f(x)] for each [x],
    where [f] may raise: the first exception ends it. *)
Fixpoint map_result {A B} (f : A -> result B) (l : list A) : result (list B) :=
  match l with
  | [] => Ok []
  | a :: l' =>
      b <- f a ;;
      bs <- map_result f l' ;;
      Ok (b :: bs)
  end.

(** [l[-1]] *)
Fixpoint last_item {A} (l : list A) : result A :=
  match l with
  | [] => Raise (Exn "IndexError" "list index out of range")
  | [a] => Ok a
  | _ :: l' => last_item l'
  end.

(** [sep.join(parts)] *)
Fixpoint join (sep : string) (parts : list string) : string :=
  match parts with
  | [] => EmptyString
  | [p] => p
  | p :: rest => p +++ sep +++ join sep rest
  end.

(** [s.split(c)] for a one-character separator. *)
Fixpoint split (c : ascii) (s : string) : list string :=
  match s with
  | EmptyString => [EmptyString]
  | String a rest =>
      if Ascii.eqb a c then EmptyString :: split c rest
      else match split c rest with
           | [] => [String a EmptyString]
           | piece :: pieces => String a piece :: pieces
           end
  end.

Definition is_digit (a : ascii) : bool :=
  (48 <=? nat_of_ascii a) && (nat_of_ascii a <=? 57).

Fixpoint digits_value (s : string) (acc : Z) : option Z :=
  match s with
  | EmptyString => Some acc
  | String a rest =>
      if is_digit a
      then digits_value rest (10 * acc + Z.of_nat (nat_of_ascii a - 48))%Z
      else None
  end.

(** [int(s)] on a plain decimal numeral; anything else is a
    [ValueError].  (Python also accepts a sign, surrounding blanks and
    underscores between digits.) *)
Definition int_of_str (s : string) : result Z :=
  match s with
  | EmptyString =>
      Raise (Exn "ValueError" "invalid literal for int() with base 10")
  | _ =>
      match digits_value s 0%Z with
      | Some z => Ok z
      | None => Raise (Exn "ValueError" "invalid literal for int() with base 10")
      end
  end.

(** [sorted(l)] on strings: a stable insertion sort by code points. *)
Fixpoint insert_str (x : string) (l : list string) : list string :=
  match l with
  | [] => [x]
  | y :: l' => if String.ltb x y then x :: y :: l' else y :: insert_str x l'
  end.

Fixpoint sorted (l : list string) : list string :=
  match l with
  | [] => []
  | x :: l' => insert_str x (sorted l')
  end.

(** [s.startswith(p)] *)
Definition startswith (p s : string) : bool := String.prefix p s.

(** A [str] is held as its UTF-8 encoding, and Python counts, indexes
    and slices it by code point.  A code point starts at every byte
    that is not a continuation byte (10xxxxxx). *)
Definition is_continuation (a : ascii) : bool :=
  (128 <=? nat_of_ascii a) && (nat_of_ascii a <? 192).

(** The continuation bytes a string begins with, and its code points
    after them. *)
Fixpoint split_chars (s : string) : string * list string :=
  match s with
  | EmptyString => (EmptyString, [])
  | String a rest =>
      let '(pre, cs) := split_chars rest in
      if is_continuation a then (String a pre, cs)
      else (EmptyString, String a pre :: cs)
  end.

(** [list(s)]: the characters of a string, each a string of its own. *)
Definition chars (s : string) : list string := snd (split_chars s).

(** [''.join(cs)] *)
Definition of_chars (cs : list string) : string :=
  fold_right String.append EmptyString cs.

(** [len(s)] *)
Definition len (s : string) : nat := List.length (chars s).

(** [s[:n]] *)
Definition take (n : nat) (s : string) : string := of_chars (firstn n (chars s)).

(** [s[i]], an [IndexError] out of range. *)
Definition str_item (s : string) (i : nat) : result string :=
  match nth_error (chars s) i with
  | Some c => Ok c
  | None => Raise (Exn "IndexError" "string index out of range")
  end.

End Py.

(* ================================================================== *)
(** * Python dictionaries as insertion-ordered association lists       *)
(* ================================================================== *)

Module PyDict.

Definition dict (V : Type) : Type := list (string * V).

Section Ops.
Context {V : Type}.

(** [d.get(k)] *)
Fixpoint get (k : string) (d : dict V) : option V :=
  match d with
  | [] => None
  | (k', v) :: d' => if String.eqb k k' then Some v else get k d'
  end.

(** [k in d] *)
Definition mem (k : string) (d : dict V) : bool :=
  match get k d with Some _ => true | None => false end.

(** [d[k] = v]: overwrite in place when the key exists, else append. *)
Fixpoint set (k : string) (v : V) (d : dict V) : dict V :=
  match d with
  | [] => [(k, v)]
  | (k', v') :: d' =>
      if String.eqb k k' then (k, v) :: d' else (k', v') :: set k v d'
  end.

(** [d[k] = f(d[k])] for a key that is present: the entry is changed
    where it stands. *)
Fixpoint update (k : string) (f : V -> V) (d : dict V) : dict V :=
  match d with
  | [] => []
  | (k', v) :: d' =>
      if String.eqb k k' then (k', f v) :: d' else (k', v) :: update k f d'
  end.

Definition keys (d : dict V) : list string := map fst d.
Definition items (d : dict V) : list (string * V) := d.
Definition values (d : dict V) : list V := map snd d.

End Ops.

End PyDict.

(* ================================================================== *)
(** * ooxml/scripts/validation/docx.py                                 *)
(* ================================================================== *)

Module Docx.

(** The methods [DOCXSchemaValidator.validate] calls, in the order of
    their test numbers; the last one only prints. *)
Inductive check : Set :=
| validate_xml                        (* test 0 *)
| validate_namespaces                 (* test 1 *)
| validate_unique_ids                 (* test 2 *)
| validate_file_references            (* test 3 *)
| validate_content_types              (* test 4 *)
| validate_against_xsd                (* test 5 *)
| validate_whitespace_preservation    (* test 6 *)
| validate_deletions                  (* test 7 *)
| validate_insertions                 (* test 8 *)
| validate_all_relationship_ids       (* test 9 *)
| compare_paragraph_counts.

Definition tests_1_to_9 : list check :=
  [ validate_namespaces; validate_unique_ids; validate_file_references;
    validate_content_types; validate_against_xsd;
    validate_whitespace_preservation; validate_deletions;
    validate_insertions; validate_all_relationship_ids ].

Section Validator.

(** The validator object together with everything a check can touch
    (the unpacked files, standard output). *)
Variable St : Type.

(** What calling a method does: its boolean result and the state it
    leaves.  [compare_paragraph_counts] returns nothing in the source;
    its boolean is never looked at. *)
Variable run_check : check -> St -> bool * St.

(** State monad over the validator state and the log of calls made. *)
Definition M (A : Type) : Type := St * list check -> A * (St * list check).

Definition ret {A} (a : A) : M A := fun w => (a, w).

Definition bind {A B} (m : M A) (k : A -> M B) : M B :=
  fun w => let (a, w') := m w in k a w'.

Definition call (c : check) : M bool :=
  fun w => let (b, s') := run_check c (fst w) in (b, (s', snd w ++ [c])).

Notation "x <- m ;; k" := (bind m (fun x => k))
  (at level 61, m at next level, right associativity).

(** [if not self.c(): all_valid = False] *)
Definition step (c : check) (all_valid : bool) : M bool :=
  ok <- call c ;;
  ret (if negb ok then false else all_valid).

Definition validate : M bool :=
  ok0 <- call validate_xml ;;
  if negb ok0 then ret false
  else
    let all_valid := true in
    all_valid <- step validate_namespaces all_valid ;;
    all_valid <- step validate_unique_ids all_valid ;;
    all_valid <- step validate_file_references all_valid ;;
    all_valid <- step validate_content_types all_valid ;;
    all_valid <- step validate_against_xsd all_valid ;;
    all_valid <- step validate_whitespace_preservation all_valid ;;
    all_valid <- step validate_deletions all_valid ;;
    all_valid <- step validate_insertions all_valid ;;
    all_valid <- step validate_all_relationship_ids all_valid ;;
    _ <- call compare_paragraph_counts ;;
    ret all_valid.

(** Reference run: every check of [cs] in turn, whatever the earlier
    ones returned. *)
Fixpoint run_all (cs : list check) (s : St) : list bool * St :=
  match cs with
  | [] => ([], s)
  | c :: cs' =>
      let (b, s1) := run_check c s in
      let (bs, s2) := run_all cs' s1 in
      (b :: bs, s2)
  end.

Definition conjunction (bs : list bool) : bool := forallb (fun b => b) bs.

End Validator.

End Docx.

(* ================================================================== *)
(** * slack-gif-creator/core/gif_builder.py                            *)
(* ================================================================== *)

Module GifBuilder.
Import Py.

Section Builder.

(** A frame is a numpy array; Pillow, numpy and imageio are taken as
    given. *)
Variable Frame : Type.

(** Lines 142-147: the float32 copies of two frames, their absolute
    difference and [1.0 - (np.mean(diff) / 255.0)].  numpy raises when
    the two shapes do not broadcast. *)
Variable Score : Type.
Variable similarity : Frame -> Frame -> result Score.

(** [similarity < threshold], a numpy scalar against a Python float. *)
Variable score_lt : Score -> float -> bool.

(** [np.array(Image.fromarray(frame).resize((w, h), LANCZOS))]; Pillow
    raises on an array it cannot read. *)
Variable resize : Frame -> Z -> Z -> result Frame.

(** Pillow's quantizers.  [build_palette] is lines 84-107: the pixels
    of the sampled frames stacked into one image and
    [quantize(colors=num_colors, method=2)] of it; [apply_palette] is
    lines 111-113 and [quantize] lines 117-119, each for one frame.
    They raise on frames numpy or Pillow cannot handle, and [ValueError]
    on a number of colors that is not between 1 and 256. *)
Variable Palette : Type.
Variable build_palette : list Frame -> Z -> result Palette.
Variable apply_palette : Palette -> Frame -> result Frame.
Variable quantize : Z -> Frame -> result Frame.

(** [imageio.imwrite(output_path, frames, duration=d, loop=0)] followed
    by [output_path.stat().st_size]; the write raises on a negative
    duration and on a path it cannot write to. *)
Variable imwrite_size : string -> list Frame -> Q -> result Z.

(** [str(Path(output_path))] *)
Variable path_str : string -> string.

(** [f"{x:.1f}"] and [f"{x:.2f}"]: the number of decimals, the value. *)
Variable fmt_f : nat -> Q -> string.

Record GIFBuilder : Type := {
  width : Z;
  height : Z;
  fps : Z;
  frames : list Frame
}.

Definition set_frames (self : GIFBuilder) (fs : list Frame) : GIFBuilder :=
  {| width := width self; height := height self; fps := fps self;
     frames := fs |}.

Definition set_size (self : GIFBuilder) (w h : Z) : GIFBuilder :=
  {| width := w; height := h; fps := fps self; frames := frames self |}.

(** The body of [for i in range(1, len(self.frames))]; [todo] is what
    is left of [self.frames[1:]]. *)
Fixpoint dedup_loop (threshold : float) (todo deduplicated : list Frame)
    (removed_count : nat) : result (list Frame * nat) :=
  match todo with
  | [] => Ok (deduplicated, removed_count)
  | curr :: todo' =>
      prev <- last_item deduplicated ;;
      sim <- similarity prev curr ;;
      if score_lt sim threshold
      then dedup_loop threshold todo' (deduplicated ++ [curr]) removed_count
      else dedup_loop threshold todo' deduplicated (S removed_count)
  end.

(** Returns the number of frames removed and the builder it leaves. *)
Definition deduplicate_frames (self : GIFBuilder) (threshold : float)
    : result (nat * GIFBuilder) :=
  if List.length (frames self) <? 2 then Ok (0, self)
  else
    match frames self with
    | [] => Raise (Exn "IndexError" "list index out of range")
    | first :: rest =>
        r <- dedup_loop threshold rest [first] 0 ;;
        Ok (snd r, set_frames self (fst r))
    end.

Definition optimize_colors (self : GIFBuilder) (num_colors : Z)
    (use_global_palette : bool) : result (list Frame) :=
  let n := List.length (frames self) in
  if use_global_palette && (1 <? n) then
    let sample_size := Nat.min 5 n in
    let sample_indices :=
      map (fun i => (i * n) / sample_size) (seq 0 sample_size) in
    sample_frames <- getitems (frames self) sample_indices ;;
    global_palette <- build_palette sample_frames num_colors ;;
    map_result (apply_palette global_palette) (frames self)
  else
    map_result (quantize num_colors) (frames self).

Record info : Type := {
  path : string;
  size_kb : Q;
  size_mb : Q;
  dimensions : string;
  frame_count : nat;
  info_fps : Z;
  duration_seconds : Q;
  colors : Z
}.

Definition Qof (z : Z) : Q := inject_Z z.

(** [save]: the report, the builder as the call leaves it, and the
    lines printed.  An exception ends the call; what the builder and
    the output were at that point is not kept. *)
Definition save (self : GIFBuilder) (output_path : string) (num_colors : Z)
    (optimize_for_emoji remove_duplicates : bool)
    : result (info * GIFBuilder * list string) :=
  match frames self with
  | [] => Raise (Exn "ValueError" "没有要保存的帧。请先使用 add_frame() 添加帧。")
  | _ :: _ =>
      (* if remove_duplicates *)
      st1 <- (if remove_duplicates then
                r <- deduplicate_frames self 0.9995%float ;;
                let removed := fst r in
                Ok (snd r,
                    if 0 <? removed
                    then ["  移除了 " +++ str_of_nat removed
                          +++ " 个几乎相同的帧（保留了微妙动画）"]
                    else [])
              else Ok (self, [])) ;;
      let self := fst st1 in
      let out := snd st1 in
      (* if optimize_for_emoji *)
      st2 <- (if optimize_for_emoji then
                sized <-
                  (if (128 <? width self)%Z || (128 <? height self)%Z then
                     resized_frames <-
                       map_result (fun frame => resize frame 128 128)
                         (frames self) ;;
                     Ok (set_frames (set_size self 128 128) resized_frames,
                         out ++ ["  将尺寸从 " +++ str_of_Z (width self) +++ "x"
                                 +++ str_of_Z (height self)
                                 +++ " 调整为 128x128 以适配表情符号"])
                   else Ok (self, out)) ;;
                let self := fst sized in
                let out := snd sized in
                let num_colors := Z.min num_colors 48 in
                let n := List.length (frames self) in
                if 12 <? n then
                  let keep_every := Nat.max 1 (n / 12) in
                  kept <- getitems (frames self) (range 0 n keep_every) ;;
                  Ok (set_frames self kept, num_colors,
                      out ++ ["  将帧数从 " +++ str_of_nat n
                              +++ " 减少到约 12 以适配表情符号大小"])
                else Ok (self, num_colors, out)
              else Ok (self, num_colors, out)) ;;
      let '(self, num_colors, out) := st2 in
      optimized_frames <- optimize_colors self num_colors true ;;
      if (fps self =? 0)%Z
      then Raise (Exn "ZeroDivisionError" "division by zero")
      else
        let frame_duration := (Qof 1000 / Qof (fps self))%Q in
        st_size <- imwrite_size (path_str output_path) optimized_frames
                     frame_duration ;;
        let file_size_kb := (Qof st_size / Qof 1024)%Q in
        let file_size_mb := (file_size_kb / Qof 1024)%Q in
        let count := List.length optimized_frames in
        let i :=
          {| path := path_str output_path;
             size_kb := file_size_kb;
             size_mb := file_size_mb;
             dimensions := str_of_Z (width self) +++ "x" +++ str_of_Z (height self);
             frame_count := count;
             info_fps := fps self;
             duration_seconds := (Qof (Z.of_nat count) / Qof (fps self))%Q;
             colors := num_colors |} in
        let out :=
          out ++
          [ nl +++ "✓ GIF 创建成功！";
            "  路径: " +++ path_str output_path;
            "  大小: " +++ fmt_f 1 file_size_kb +++ " KB ("
              +++ fmt_f 2 file_size_mb +++ " MB)";
            "  尺寸: " +++ dimensions i;
            "  帧数: " +++ str_of_nat count +++ " @ " +++ str_of_Z (fps self)
              +++ " fps";
            "  持续时间: " +++ fmt_f 1 (duration_seconds i) +++ "s";
            "  颜色: " +++ str_of_Z num_colors ]
          ++ (if optimize_for_emoji
              then ["  优化表情符号（128x128，减少颜色）"] else [])
          ++ (if Qlt_le_dec 1 file_size_mb
              then [ nl +++ "  注意: 文件大小较大 (" +++ fmt_f 1 file_size_kb +++ " KB)";
                     "  考虑: 减少帧数、缩小尺寸或减少颜色" ]
              else []) in
        Ok (i, self, out)
  end.

End Builder.

End GifBuilder.

(* ================================================================== *)
(** * pptx/scripts/thumbnail.py: the grids                             *)
(* ================================================================== *)

Module Thumbnail.
Import Py.

Definition GRID_PADDING : Z := 20.
Definition BORDER_WIDTH : Z := 2.

(** What [create_grid] does to the grid image, in order. *)
Inductive draw_op (R : Type) : Type :=
| DrawText (x y : Z) (label : string)
| Paste (img_path : string) (outlined : option R) (tx ty : Z)
| Border (x0 y0 x1 y1 : Z).

Arguments DrawText {R} x y label.
Arguments Paste {R} img_path outlined tx ty.
Arguments Border {R} x0 y0 x1 y1.

(** A grid image: its size and what was drawn on the white canvas. *)
Record grid (R : Type) : Type := {
  grid_w : Z;
  grid_h : Z;
  ops : list (draw_op R)
}.

(** A [pathlib.Path] with a file name, as [parent / (stem + suffix)]:
    [parent] is [str(path.parent)]. *)
Record out_path : Type := {
  parent : string;
  stem : string;
  suffix : string
}.

(** Whether a string ends with a slash, as the parents [/] and [//]
    do. *)
Fixpoint ends_with_slash (s : string) : bool :=
  match s with
  | EmptyString => false
  | String c EmptyString => Ascii.eqb c "/"%char
  | String _ rest => ends_with_slash rest
  end.

(** [str(path)]: the parent [.] of a bare file name is not written,
    and no slash is added after a parent that is a root. *)
Definition path_str (p : out_path) : string :=
  if String.eqb (parent p) "." then stem p +++ suffix p
  else if ends_with_slash (parent p) then parent p +++ stem p +++ suffix p
  else parent p +++ "/" +++ stem p +++ suffix p.

Section Grids.

(** The text regions of one slide ([placeholder_regions[idx]]). *)
Variable R : Type.

(** Pillow and the float arithmetic on sizes are taken as given:
    [int(width * FONT_SIZE_RATIO)], [int(font_size * LABEL_PADDING_RATIO)],
    [int(width * aspect)] for the aspect of an image, the width of a
    label's bounding box in the font, and the size of an image after
    [img.thumbnail((width, height))].  The image files are taken to be
    there and readable; of Pillow's own checks, the one on the size of
    a new image is kept. *)
Variable font_size_of : Z -> Z.
Variable label_padding_of : Z -> Z.
Variable height_of : string -> Z -> Z.
Variable text_width : Z -> string -> Z.
Variable thumbnail_size : string -> Z -> Z -> Z * Z.

(** The loop [for i, img_path in enumerate(image_paths)], from index
    [i] on. *)
Fixpoint place_thumbnails (image_paths : list string) (i : Z)
    (cols width height font_size label_padding start_slide_num : Z)
    (placeholder_regions : option (Z -> option R)) : list (draw_op R) :=
  match image_paths with
  | [] => []
  | img_path :: rest =>
      let row := (i / cols)%Z in
      let col := (i mod cols)%Z in
      let x := (col * width + (col + 1) * GRID_PADDING)%Z in
      let y_base :=
        (row * (height + font_size + label_padding * 2)
         + (row + 1) * GRID_PADDING)%Z in
      let label := str_of_Z (start_slide_num + i) in
      let text_w := text_width font_size label in
      let y_thumbnail :=
        (y_base + label_padding + font_size + label_padding)%Z in
      let outlined :=
        match placeholder_regions with
        | Some regions => regions (start_slide_num + i)%Z
        | None => None
        end in
      let '(w, h) := thumbnail_size img_path width height in
      let tx := (x + (width - w) / 2)%Z in
      let ty := (y_thumbnail + (height - h) / 2)%Z in
      [ DrawText (x + (width - text_w) / 2)%Z (y_base + label_padding)%Z label;
        Paste img_path outlined tx ty ]
      ++ (if (0 <? BORDER_WIDTH)%Z
          then [ Border (tx - BORDER_WIDTH)%Z (ty - BORDER_WIDTH)%Z
                        (tx + w + BORDER_WIDTH - 1)%Z
                        (ty + h + BORDER_WIDTH - 1)%Z ]
          else [])
      ++ place_thumbnails rest (i + 1)%Z cols width height font_size
           label_padding start_slide_num placeholder_regions
  end.

Definition create_grid (image_paths : list string) (cols width : Z)
    (start_slide_num : Z) (placeholder_regions : option (Z -> option R))
    : result (grid R) :=
  let font_size := font_size_of width in
  let label_padding := label_padding_of font_size in
  first <- getitem image_paths 0 ;;
  let height := height_of first width in
  if (cols =? 0)%Z
  then Raise (Exn "ZeroDivisionError" "integer division or modulo by zero")
  else
    let rows := ((Z.of_nat (List.length image_paths) + cols - 1) / cols)%Z in
    let grid_w := (cols * width + (cols + 1) * GRID_PADDING)%Z in
    let grid_h := (rows * (height + font_size + label_padding * 2)
                   + (rows + 1) * GRID_PADDING)%Z in
    (* Image.new("RGB", (grid_w, grid_h), "white") *)
    if (grid_w <? 0)%Z || (grid_h <? 0)%Z
    then Raise (Exn "ValueError" "Width and height must be >= 0")
    else
      Ok {| grid_w := grid_w;
            grid_h := grid_h;
            ops := place_thumbnails image_paths 0%Z cols width height font_size
                     label_padding start_slide_num placeholder_regions |}.

(** [image_paths[start:end]] *)
Definition slice {A} (l : list A) (start stop : nat) : list A :=
  firstn (stop - start) (skipn start l).

(** The loop [for chunk_idx, start_idx in enumerate(range(...))]. *)
Fixpoint grids_loop (starts : list nat) (chunk_idx : nat)
    (image_paths : list string) (cols width : Z) (max_images_per_grid : nat)
    (output_path : out_path) (placeholder_regions : option (Z -> option R))
    : result (list (string * grid R)) :=
  match starts with
  | [] => Ok []
  | start_idx :: starts' =>
      let end_idx :=
        Nat.min (start_idx + max_images_per_grid) (List.length image_paths) in
      let chunk_images := slice image_paths start_idx end_idx in
      g <- create_grid chunk_images cols width (Z.of_nat start_idx)
             placeholder_regions ;;
      let grid_filename :=
        if List.length image_paths <=? max_images_per_grid
        then output_path
        else {| parent := parent output_path;
                stem := stem output_path +++ "-" +++ str_of_nat (chunk_idx + 1);
                suffix := suffix output_path |} in
      rest <- grids_loop starts' (S chunk_idx) image_paths cols width
                max_images_per_grid output_path placeholder_regions ;;
      Ok ((path_str grid_filename, g) :: rest)
  end.

(** The files written, each with the grid saved in it, in the order of
    [grid_files]. *)
Definition create_grids (image_paths : list string) (cols width : Z)
    (output_path : out_path) (placeholder_regions : option (Z -> option R))
    : result (list (string * grid R)) :=
  let max_images_per_grid := Z.to_nat (cols * (cols + 1)) in
  if max_images_per_grid =? 0
  then Raise (Exn "ValueError" "range() arg 3 must not be zero")
  else
    grids_loop (range 0 (List.length image_paths) max_images_per_grid) 0
      image_paths cols width max_images_per_grid output_path
      placeholder_regions.

(** The labels drawn on a grid, in drawing order. *)
Definition label_of (op : draw_op R) : list string :=
  match op with
  | DrawText _ _ label => [label]
  | _ => []
  end.

Definition labels (g : grid R) : list string := flat_map label_of (ops g).

End Grids.

End Thumbnail.

(* ================================================================== *)
(** * slack-gif-creator/core/validators.py                             *)
(* ================================================================== *)

Module Validators.
Import Py.

(** [img.info.get("duration", 100)]: the key may be missing, hold a
    number, or hold something arithmetic fails on. *)
Inductive duration_info : Type :=
| DurationAbsent
| DurationNumber (ms : Q)
| DurationOther.

(** An image file as Pillow presents it: its size, the frames that
    [seek] reaches before the [EOFError] of the end of the sequence, an
    optional frame at which [seek] raises instead (a truncated file),
    and the duration entry. *)
Record image : Type := {
  size : Z * Z;
  n_frames : nat;
  seek_fault : option (nat * exn);
  duration : duration_info
}.

(** A path that exists: what [stat().st_size] and [Image.open] give;
    either may raise. *)
Record file : Type := {
  st_size : result Z;
  open_image : result image
}.

(** What [exists()] finds at a path, given as [str(path)]: nothing, a
    file, or the [OSError] of a path the system refuses (a name that is
    too long, for one). *)
Definition filesystem : Type := string -> result (option file).

(** The second component of the returned pair. *)
Inductive results : Type :=
| ErrorEntry (error : string)
| Details (file_ : string) (passes : bool) (width height : Z)
    (size_kb size_mb : Q) (frame_count : nat)
    (duration_seconds fps : option Q) (is_emoji : bool)
    (optimal : option bool).

Section Validate.

(** [str(Path(gif_path))], [Path(gif_path).name], and f-string
    formatting of floats. *)
Variable path_str : string -> string.
Variable path_name : string -> string.
Variable fmt_f : nat -> Q -> string.

Definition end_of_sequence : exn :=
  Exn "EOFError" "attempt to seek outside sequence".

(** [img.seek(k)] *)
Definition seek (img : image) (k : nat) : result unit :=
  if k <? n_frames img then
    match seek_fault img with
    | Some (at_frame, e) => if k =? at_frame then Raise e else Ok tt
    | None => Ok tt
    end
  else Raise end_of_sequence.

(** [while True: img.seek(frame_count); frame_count += 1] inside
    [try: ... except EOFError: pass]: an [EOFError] ends the count,
    another exception leaves the loop.  [left] bounds the frames still
    to visit. *)
Fixpoint count_frames (img : image) (left frame_count : nat) : result nat :=
  match seek img frame_count with
  | Raise e =>
      if String.eqb (exn_class e) "EOFError" then Ok frame_count else Raise e
  | Ok _ =>
      match left with
      | O => Ok frame_count
      | S left' => count_frames img left' (S frame_count)
      end
  end.

Definition Qof (z : Z) : Q := inject_Z z.

(** The inner [try] on the duration: [(total_duration, fps)], both
    [None] when the arithmetic raises. *)
Definition duration_and_fps (img : image) (frame_count : nat)
    : option Q * option Q :=
  let compute (duration_ms : Q) :=
    let total_duration :=
      (duration_ms * Qof (Z.of_nat frame_count) / Qof 1000)%Q in
    let fps :=
      if Qlt_le_dec 0 total_duration
      then (Qof (Z.of_nat frame_count) / total_duration)%Q
      else 0%Q in
    (Some total_duration, Some fps) in
  match duration img with
  | DurationAbsent => compute (Qof 100)
  | DurationNumber ms => compute ms
  | DurationOther => (None, None)
  end.

(** The dimension policy of lines 64-74. *)
Definition optimal_dims (width height : Z) : bool :=
  ((width =? height) && (height =? 128))%Z.

Definition acceptable_dims (width height : Z) : bool :=
  ((width =? height) && ((64 <=? width) && (width <=? 128)))%Z.

Definition message_dims (width height : Z) : bool :=
  let lo := Z.min width height in
  let hi := Z.max width height in
  (* [aspect_ratio <= 2.0], the ratio being infinite when [lo <= 0] *)
  (if (0 <? lo)%Z
   then (if Qlt_le_dec 2 (Qof hi / Qof lo)%Q then false else true)
   else false)
  && ((320 <=? lo) && (lo <=? 640))%Z.

Definition dim_policy (is_emoji : bool) (width height : Z) : bool :=
  if is_emoji then acceptable_dims width height
  else message_dims width height.

(** A float is truthy when it is not zero. *)
Definition truthy (q : option Q) : bool :=
  match q with
  | Some x => negb (Qeq_bool x 0)
  | None => false
  end.

Definition fmt_opt (d : nat) (q : option Q) : string :=
  match q with
  | Some x => fmt_f d x
  | None => "None"
  end.

Definition report (gif_path : string) (is_emoji : bool) (width height : Z)
    (size_kb size_mb : Q) (frame_count : nat)
    (total_duration fps : option Q) (dim_pass : bool) : list string :=
  [ nl +++ "验证 " +++ path_name gif_path +++ ":";
    "  尺寸: " +++ str_of_Z width +++ "x" +++ str_of_Z height
      +++ (if is_emoji && acceptable_dims width height
           then " (" +++ (if optimal_dims width height then "最佳" else "可接受")
                +++ ")"
           else EmptyString);
    "  大小: " +++ fmt_f 1 size_kb +++ " KB"
      +++ (if Qlt_le_dec size_mb 1 then EmptyString
           else " (" +++ fmt_f 2 size_mb +++ " MB)");
    "  帧数: " +++ str_of_nat frame_count
      +++ (if truthy fps
           then " @ " +++ fmt_opt 1 fps +++ " fps ("
                +++ fmt_opt 1 total_duration +++ "s)"
           else EmptyString) ]
  ++ (if negb dim_pass
      then [ "  注意: " +++ (if is_emoji then "表情符号应为 128x128"
                            else "Slack 不常见的尺寸") ]
      else [])
  ++ (if Qlt_le_dec 5 size_mb
      then [ "  注意: 文件较大 - 考虑减少帧数/颜色" ]
      else []).

(** [validate_gif]: the returned pair and the lines printed, or the
    exception that leaves the function. *)
Definition validate_gif (fs : filesystem) (gif_path : string)
    (is_emoji verbose : bool) : result (bool * results * list string) :=
  found <- fs (path_str gif_path) ;;
  match found with
  | None => Ok (false, ErrorEntry ("文件未找到: " +++ path_str gif_path), [])
  | Some f =>
      size_bytes <- st_size f ;;
      let size_kb := (Qof size_bytes / Qof 1024)%Q in
      let size_mb := (size_kb / Qof 1024)%Q in
      let read :=
        try_except
          (img <- open_image f ;;
           let '(width, height) := size img in
           frame_count <- count_frames img (n_frames img) 0 ;;
           let '(total_duration, fps) := duration_and_fps img frame_count in
           Ok (inr (width, height, frame_count, total_duration, fps)))
          (fun e => Ok (inl (false, ErrorEntry ("读取 GIF 失败: " +++ exn_msg e))))
      in
      r <- read ;;
      match r with
      | inl early => Ok (early, [])
      | inr (width, height, frame_count, total_duration, fps) =>
          let dim_pass := dim_policy is_emoji width height in
          let res :=
            Details (path_str gif_path) dim_pass width height size_kb size_mb
              frame_count total_duration fps is_emoji
              (if is_emoji then Some (optimal_dims width height) else None) in
          Ok (dim_pass, res,
              if verbose
              then report gif_path is_emoji width height size_kb size_mb
                     frame_count total_duration fps dim_pass
              else [])
      end
  end.


End Validate.

End Validators.

(* ================================================================== *)
(** * pdf/scripts/extract_form_field_info.py                           *)
(* ================================================================== *)

Module ExtractFormFieldInfo.
Import Py.

(** A [/Rect] array [[x0, y0, x1, y1]]; PDF numbers are rationals. *)
Definition Rect : Type := (Q * Q * Q * Q)%type.

Definition rect_0 (r : Rect) : Q := let '(x0, _, _, _) := r in x0.
Definition rect_1 (r : Rect) : Q := let '(_, y0, _, _) := r in y0.

Definition zero_rect : Rect := (0%Q, 0%Q, 0%Q, 0%Q).

(** An entry of a field's [/_States_] list: a name or string, or for
    a choice field possibly an array, as a rule the pair
    [[export value, display text]]. *)
Inductive state : Type :=
| SName (s : string)
| SList (items : list string).

Fixpoint strings_eqb (l m : list string) : bool :=
  match l, m with
  | [], [] => true
  | x :: l', y :: m' => String.eqb x y && strings_eqb l' m'
  | _, _ => false
  end.

Definition state_eqb (a b : state) : bool :=
  match a, b with
  | SName x, SName y => String.eqb x y
  | SList l, SList m => strings_eqb l m
  | _, _ => false
  end.

Definition Off : state := SName "/Off".

(** A field of [reader.get_fields()]: whether [/Kids] is truthy, [/FT],
    and [/_States_] (empty when missing). *)
Record Field : Type := {
  Kids : bool;
  FT : option string;
  States : list state
}.

(** A page annotation, and through [/Parent] the fields above it. *)
Inductive annotation : Type :=
  Annotation {
    ann_T : option string;
    ann_Parent : option annotation;
    ann_Rect : option Rect;
    ann_AP_N : option (list string)
  }.

Record PdfReader : Type := {
  get_fields : option (list (string * Field));
  pages : list (list annotation)
}.

Record radio_option : Type := {
  opt_value : string;
  opt_rect : option Rect
}.

(** A descriptor: [None] is a key the dictionary does not have.  The
    value of ["rect"] is itself [None] when the annotation has no
    [/Rect]. *)
Record field_dict : Type := {
  field_id : string;
  type_ : option string;
  checked_value : option state;
  unchecked_value : option state;
  choice_options : option (list (string * string));
  page : option nat;
  rect : option (option Rect);
  radio_options : option (list radio_option)
}.

Definition new_dict (id : string) : field_dict :=
  {| field_id := id; type_ := None; checked_value := None;
     unchecked_value := None; choice_options := None; page := None;
     rect := None; radio_options := None |}.

Definition set_type (t : string) (d : field_dict) : field_dict :=
  {| field_id := field_id d; type_ := Some t;
     checked_value := checked_value d; unchecked_value := unchecked_value d;
     choice_options := choice_options d; page := page d; rect := rect d;
     radio_options := radio_options d |}.

Definition set_checked (c u : state) (d : field_dict) : field_dict :=
  {| field_id := field_id d; type_ := type_ d;
     checked_value := Some c; unchecked_value := Some u;
     choice_options := choice_options d; page := page d; rect := rect d;
     radio_options := radio_options d |}.

Definition set_choice_options (o : list (string * string)) (d : field_dict)
    : field_dict :=
  {| field_id := field_id d; type_ := type_ d;
     checked_value := checked_value d; unchecked_value := unchecked_value d;
     choice_options := Some o; page := page d; rect := rect d;
     radio_options := radio_options d |}.

Definition set_location (p : nat) (r : option Rect) (d : field_dict)
    : field_dict :=
  {| field_id := field_id d; type_ := type_ d;
     checked_value := checked_value d; unchecked_value := unchecked_value d;
     choice_options := choice_options d; page := Some p; rect := Some r;
     radio_options := radio_options d |}.

Definition append_radio_option (o : radio_option) (d : field_dict)
    : field_dict :=
  {| field_id := field_id d; type_ := type_ d;
     checked_value := checked_value d; unchecked_value := unchecked_value d;
     choice_options := choice_options d; page := page d; rect := rect d;
     radio_options :=
       match radio_options d with
       | Some os => Some (os ++ [o])
       | None => None
       end |}.

Definition new_radio_group (id : string) (p : nat) : field_dict :=
  {| field_id := id; type_ := Some "radio_group"; checked_value := None;
     unchecked_value := None; choice_options := None; page := Some p;
     rect := None; radio_options := Some [] |}.

(** The names collected while walking up [/Parent], innermost first. *)
Fixpoint components_of (a : annotation) : list string :=
  let here :=
    match ann_T a with
    | Some field_name =>
        if String.eqb field_name EmptyString then [] else [field_name]
    | None => []
    end in
  match ann_Parent a with
  | Some up => here ++ components_of up
  | None => here
  end.

Definition get_full_annotation_field_id (a : annotation) : option string :=
  match components_of a with
  | [] => None
  | components => Some (join "." (rev components))
  end.

Definition ft_is (ft : option string) (name : string) : bool :=
  match ft with
  | Some s => String.eqb s name
  | None => false
  end.

(** [state[i]] for an entry of a choice field: an element of the
    array, or a character of the string. *)
Definition state_item (st : state) (i : nat) : result string :=
  match st with
  | SList items => getitem items i
  | SName s => str_item s i
  end.

Fixpoint choice_options_of (states : list state)
    : result (list (string * string)) :=
  match states with
  | [] => Ok []
  | st :: rest =>
      value <- state_item st 0 ;;
      text <- state_item st 1 ;;
      os <- choice_options_of rest ;;
      Ok ((value, text) :: os)
  end.

Definition checkbox_warning (field_id : string) : string :=
  "复选框 `$" +++ field_id
  +++ "` 的状态值意外。其选中和未选中值可能不正确；如果您要选中它，请视觉验证结果。".

(** The descriptor and the lines printed. *)
Definition make_field_dict (field : Field) (field_id : string)
    : result (field_dict * list string) :=
  let field_dict := new_dict field_id in
  let ft := FT field in
  if ft_is ft "/Tx" then Ok (set_type "text" field_dict, [])
  else if ft_is ft "/Btn" then
    let field_dict := set_type "checkbox" field_dict in
    let states := States field in
    if List.length states =? 2 then
      s0 <- getitem states 0 ;;
      s1 <- getitem states 1 ;;
      if existsb (state_eqb Off) states then
        Ok (set_checked (if negb (state_eqb s0 Off) then s0 else s1) Off
              field_dict, [])
      else
        Ok (set_checked s0 s1 field_dict, [checkbox_warning field_id])
    else Ok (field_dict, [])
  else if ft_is ft "/Ch" then
    os <- choice_options_of (States field) ;;
    Ok (set_choice_options os (set_type "choice" field_dict), [])
  else
    Ok (set_type ("unknown (" +++ match ft with Some s => s | None => "None" end
                  +++ ")") field_dict, []).

(** First loop: descriptors of the fields that are not containers, and
    the names of the button containers. *)
Fixpoint collect_fields (fields : list (string * Field))
    (field_info_by_id : PyDict.dict field_dict)
    (possible_radio_names : list string) (out : list string)
    : result (PyDict.dict field_dict * list string * list string) :=
  match fields with
  | [] => Ok (field_info_by_id, possible_radio_names, out)
  | (id, field) :: rest =>
      if Kids field then
        collect_fields rest field_info_by_id
          (if ft_is (FT field) "/Btn"
           then possible_radio_names ++ [id] else possible_radio_names)
          out
      else
        r <- make_field_dict field id ;;
        collect_fields rest (PyDict.set id (fst r) field_info_by_id)
          possible_radio_names (out ++ snd r)
  end.

Definition name_in (id : string) (names : list string) : bool :=
  existsb (String.eqb id) names.

(** The body of [for ann in annotations]. *)
Definition scan_annotation (possible_radio_names : list string)
    (page_index : nat) (ann : annotation)
    (st : PyDict.dict field_dict * PyDict.dict field_dict)
    : PyDict.dict field_dict * PyDict.dict field_dict :=
  let '(field_info_by_id, radio_fields_by_id) := st in
  match get_full_annotation_field_id ann with
  | None => st
  | Some id =>
      if PyDict.mem id field_info_by_id then
        (PyDict.update id (set_location (page_index + 1) (ann_Rect ann))
           field_info_by_id,
         radio_fields_by_id)
      else if name_in id possible_radio_names then
        match ann_AP_N ann with
        | None => st                                  (* KeyError: continue *)
        | Some names =>
            let on_values :=
              filter (fun v => negb (String.eqb v "/Off")) names in
            match on_values with
            | [on_value] =>
                let radio_fields_by_id :=
                  if PyDict.mem id radio_fields_by_id then radio_fields_by_id
                  else PyDict.set id (new_radio_group id (page_index + 1))
                         radio_fields_by_id in
                (field_info_by_id,
                 PyDict.update id
                   (append_radio_option
                      {| opt_value := on_value; opt_rect := ann_Rect ann |})
                   radio_fields_by_id)
            | _ => st
            end
        end
      else st
  end.

Definition scan_page (possible_radio_names : list string) (page_index : nat)
    (annotations : list annotation)
    (st : PyDict.dict field_dict * PyDict.dict field_dict)
    : PyDict.dict field_dict * PyDict.dict field_dict :=
  fold_left (fun st ann => scan_annotation possible_radio_names page_index ann st)
    annotations st.

(** [for page_index, page in enumerate(reader.pages)], from
    [page_index] on. *)
Fixpoint scan_pages (possible_radio_names : list string) (page_index : nat)
    (pgs : list (list annotation))
    (st : PyDict.dict field_dict * PyDict.dict field_dict)
    : PyDict.dict field_dict * PyDict.dict field_dict :=
  match pgs with
  | [] => st
  | annotations :: rest =>
      scan_pages possible_radio_names (S page_index) rest
        (scan_page possible_radio_names page_index annotations st)
  end.

Definition no_location_message (d : field_dict) : string :=
  "无法确定字段 id 的位置: " +++ field_id d +++ "，忽略".

(** Third loop: the descriptors that got a page, and a line for each
    of the others. *)
Fixpoint with_location (infos : list field_dict)
    : list field_dict * list string :=
  match infos with
  | [] => ([], [])
  | field_info :: rest =>
      let '(kept, out) := with_location rest in
      match page field_info with
      | Some _ => (field_info :: kept, out)
      | None => (kept, no_location_message field_info :: out)
      end
  end.

(** [x or [0, 0, 0, 0]] *)
Definition or_zero_rect (r : option Rect) : Rect :=
  match r with
  | Some x => x
  | None => zero_rect
  end.

(** The sort key [[page, [-rect[1], rect[0]]]]. *)
Definition key : Type := (option nat * (Q * Q))%type.

Definition sort_key (f : field_dict) : result key :=
  r <- match radio_options f with
       | Some opts =>
           o <- getitem opts 0 ;;
           Ok (or_zero_rect (opt_rect o))
       | None =>
           Ok (or_zero_rect match rect f with Some r => r | None => None end)
       end ;;
  Ok (page f, ((- rect_1 r)%Q, rect_0 r)).

Definition Qltb (a b : Q) : bool := negb (Qle_bool b a).

(** [<] on the two-element lists of coordinates. *)
Definition position_lt (p q : Q * Q) : bool :=
  if Qeq_bool (fst p) (fst q) then Qltb (snd p) (snd q)
  else Qltb (fst p) (fst q).

(** [<] on keys: the first elements that differ decide; [None] cannot
    be ordered against a number. *)
Definition key_lt (k1 k2 : key) : result bool :=
  match fst k1, fst k2 with
  | Some p1, Some p2 =>
      if p1 =? p2 then Ok (position_lt (snd k1) (snd k2)) else Ok (p1 <? p2)
  | None, None => Ok (position_lt (snd k1) (snd k2))
  | _, _ =>
      Raise (Exn "TypeError" "'<' not supported between instances of 'NoneType' and 'int'")
  end.

(** [list.sort(key=sort_key)]: the keys are computed once, the sort is
    stable and compares keys with [<] only.  It is embedded as a stable
    insertion sort. *)
Fixpoint insert_by_key (x : key * field_dict) (l : list (key * field_dict))
    : result (list (key * field_dict)) :=
  match l with
  | [] => Ok [x]
  | y :: l' =>
      before <- key_lt (fst y) (fst x) ;;
      if before then
        r <- insert_by_key x l' ;;
        Ok (y :: r)
      else Ok (x :: y :: l')
  end.

Fixpoint sort_keyed (l : list (key * field_dict))
    : result (list (key * field_dict)) :=
  match l with
  | [] => Ok []
  | x :: l' =>
      s <- sort_keyed l' ;;
      insert_by_key x s
  end.

Fixpoint keyed (l : list field_dict) : result (list (key * field_dict)) :=
  match l with
  | [] => Ok []
  | f :: l' =>
      k <- sort_key f ;;
      r <- keyed l' ;;
      Ok ((k, f) :: r)
  end.

Definition sort_fields (l : list field_dict) : result (list field_dict) :=
  ks <- keyed l ;;
  s <- sort_keyed ks ;;
  Ok (map snd s).

(** The state after the second loop: located descriptors and radio
    groups. *)
Definition scan (reader : PdfReader)
    : result (PyDict.dict field_dict * PyDict.dict field_dict * list string) :=
  match get_fields reader with
  | None =>
      Raise (Exn "AttributeError" "'NoneType' object has no attribute 'items'")
  | Some fields =>
      c <- collect_fields fields [] [] [] ;;
      let '(field_info_by_id, possible_radio_names, out) := c in
      let '(field_info_by_id, radio_fields_by_id) :=
        scan_pages possible_radio_names 0 (pages reader)
          (field_info_by_id, []) in
      Ok (field_info_by_id, radio_fields_by_id, out)
  end.

(** [get_field_info]: the sorted descriptors and the lines printed. *)
Definition get_field_info (reader : PdfReader)
    : result (list field_dict * list string) :=
  s <- scan reader ;;
  let '(field_info_by_id, radio_fields_by_id, out) := s in
  let '(fields_with_location, out') :=
    with_location (PyDict.values field_info_by_id) in
  sorted_fields <-
    sort_fields (fields_with_location ++ PyDict.values radio_fields_by_id) ;;
  Ok (sorted_fields, out ++ out').

End ExtractFormFieldInfo.

(* ================================================================== *)
(** * pptx/scripts/replace.py                                          *)
(* ================================================================== *)

Module Replace.
Import Py.

(** A paragraph of the inventory; the engine reads its text only. *)
Record Paragraph : Type := { text : string }.

(** Line 314: [new_overflow > original + 0.01]. *)
Definition worsened (new_overflow original : float) : bool :=
  PrimFloat.ltb (PrimFloat.add original 0.01%float) new_overflow.

(** [check_duplicate_keys], the [object_pairs_hook] of [json.load]. *)
Fixpoint check_duplicate_keys_into {V} (pairs : list (string * V))
    (result_ : PyDict.dict V) : result (PyDict.dict V) :=
  match pairs with
  | [] => Ok result_
  | (key, value) :: rest =>
      if PyDict.mem key result_
      then Raise (Exn "ValueError" ("JSON 中发现重复键：'" +++ key +++ "'"))
      else check_duplicate_keys_into rest (PyDict.set key value result_)
  end.

Definition check_duplicate_keys {V} (pairs : list (string * V))
    : result (PyDict.dict V) :=
  check_duplicate_keys_into pairs [].

Section Engine.

(** python-pptx: a presentation object, a reference to one of its
    shapes, a paragraph specification of the replacement JSON. *)
Variable Prs : Type.
Variable ShapeRef : Type.
Variable ParaData : Type.

Record ShapeData : Type := {
  frame_overflow_bottom : option float;
  shape : option ShapeRef;
  paragraphs : list Paragraph;
  warnings : list string
}.

Definition InventoryData : Type := PyDict.dict (PyDict.dict ShapeData).

(** What the replacement document says of a shape: its ["paragraphs"]
    list when it has that key. *)
Definition ShapeReplacement : Type := option (list ParaData).

Definition Replacements : Type :=
  PyDict.dict (PyDict.dict ShapeReplacement).

(** The JSON document as the parser hands it to the hook: objects as
    lists of pairs. *)
Definition RawDocument : Type :=
  list (string * list (string * ShapeReplacement)).

(** Taken as given: the inventory extractor (inventory.py, which is
    not among the sources; the empty fill elements it adds to the runs
    it reads are not observed here), [len(prs.slides)],
    [text_frame.clear()] on a shape, and [f"{x:.2f}"].  The paragraph rebuild of lines 26-140
    ([apply_paragraph_properties] with its bullet, alignment, spacing
    and font steps, all of them python-pptx calls on paragraph [i] of
    the shape) is taken by its effect on the presentation: the
    presentation it leaves and the lines it prints, or the exception
    of a malformed specification. *)
Variable extract_text_inventory : Prs -> InventoryData.
Variable n_slides : Prs -> nat.
Variable text_frame_clear : ShapeRef -> Prs -> Prs.
Variable apply_paragraph_properties :
  ShapeRef -> nat -> ParaData -> Prs -> result (Prs * list string).
Variable fmt_2f : float -> string.

(** What the engine does to the outside. *)
Inductive event : Type :=
| Print (line : string)
| SaveTemporary (content : Prs)
| UnlinkTemporary
| SaveFile (path : string) (content : Prs).

(** The presentation in memory and the events so far are threaded
    through; an exception leaves both as they are when it is raised. *)
Definition M (A : Type) : Type := Prs * list event -> result A * (Prs * list event).

Definition ret {A} (a : A) : M A := fun w => (Ok a, w).

Definition raise {A} (e : exn) : M A := fun w => (Raise e, w).

Definition bindM {A B} (m : M A) (k : A -> M B) : M B :=
  fun w =>
    match m w with
    | (Ok a, w') => k a w'
    | (Raise e, w') => (Raise e, w')
    end.

Definition emit (e : event) : M unit :=
  fun w => (Ok tt, (fst w, snd w ++ [e])).

Definition print (line : string) : M unit := emit (Print line).

Definition get_prs : M Prs := fun w => (Ok (fst w), w).

Definition mutate (f : Prs -> Prs) : M unit :=
  fun w => (Ok tt, (f (fst w), snd w)).

Definition lift {A} (r : result A) : M A := fun w => (r, w).

Notation "x <~ m ;; k" := (bindM m (fun x => k))
  (at level 61, m at next level, right associativity).
Notation "m ;;; k" := (bindM m (fun _ => k))
  (at level 61, right associativity).

Fixpoint for_each {A} (l : list A) (body : A -> M unit) : M unit :=
  match l with
  | [] => ret tt
  | a :: rest => body a ;;; for_each rest body
  end.

(** ** detect_frame_overflow *)

Definition record_overflow (slide_key shape_key : string) (shape_data : ShapeData)
    (overflow_map : PyDict.dict (PyDict.dict float))
    : PyDict.dict (PyDict.dict float) :=
  match frame_overflow_bottom shape_data with
  | Some overflow =>
      let overflow_map :=
        if PyDict.mem slide_key overflow_map then overflow_map
        else PyDict.set slide_key [] overflow_map in
      PyDict.update slide_key (PyDict.set shape_key overflow) overflow_map
  | None => overflow_map
  end.

Definition detect_frame_overflow (inventory : InventoryData)
    : PyDict.dict (PyDict.dict float) :=
  fold_left
    (fun overflow_map '(slide_key, shapes_dict) =>
       fold_left
         (fun overflow_map '(shape_key, shape_data) =>
            record_overflow slide_key shape_key shape_data overflow_map)
         (PyDict.items shapes_dict) overflow_map)
    (PyDict.items inventory) [].

(** ** validate_replacements *)

(** Lines 188-191: the preview of a shape's first paragraph, when it
    has text. *)
Definition first_text (shape_data : ShapeData) : option string :=
  match paragraphs shape_data with
  | p :: _ =>
      if String.eqb (text p) EmptyString then None
      else Some (take 50 (text p)
                 +++ (if 50 <? len (text p) then "..." else EmptyString))
  | [] => None
  end.

Definition unused_entry (k : string) (shape_data : ShapeData) : string :=
  match first_text shape_data with
  | Some preview => k +++ " ('" +++ preview +++ "')"
  | None => k
  end.

(** Lines 182-194: the inventoried shapes of the slide that the
    replacement document does not mention. *)
Definition unused_with_content (slide_shapes : PyDict.dict ShapeData)
    (shapes_data : PyDict.dict ShapeReplacement) : list string :=
  flat_map
    (fun '(k, shape_data) =>
       if PyDict.mem k shapes_data then [] else [unused_entry k shape_data])
    (PyDict.items slide_shapes).

Definition slide_not_found (slide_key : string) : string :=
  "幻灯片 '" +++ slide_key +++ "' 在 inventory 中未找到".

Definition shape_not_found (shape_key slide_key : string)
    (unused : list string) : string :=
  "形状 '" +++ shape_key +++ "' 在 '" +++ slide_key +++ "' 上未找到。 "
  +++ "未定义 replacements 的形状："
  +++ match unused with
      | [] => "无"
      | _ => join ", " (sorted unused)
      end.

(** The errors one top-level entry of the document adds. *)
Definition slide_errors (inventory : InventoryData) (slide_key : string)
    (shapes_data : PyDict.dict ShapeReplacement) : list string :=
  if negb (startswith "slide-" slide_key) then []
  else
    match PyDict.get slide_key inventory with
    | None => [slide_not_found slide_key]
    | Some slide_shapes =>
        flat_map
          (fun shape_key =>
             if PyDict.mem shape_key slide_shapes then []
             else [shape_not_found shape_key slide_key
                     (unused_with_content slide_shapes shapes_data)])
          (PyDict.keys shapes_data)
    end.

Definition validate_replacements (inventory : InventoryData)
    (replacements : Replacements) : list string :=
  flat_map (fun '(slide_key, shapes_data) =>
              slide_errors inventory slide_key shapes_data)
    (PyDict.items replacements).

(** ** apply_replacements *)

(** [json.load(f, object_pairs_hook=check_duplicate_keys)]: the hook
    sees every inner object before the object that holds it. *)
Fixpoint check_inner (raw : RawDocument)
    : result (list (string * PyDict.dict ShapeReplacement)) :=
  match raw with
  | [] => Ok []
  | (k, pairs) :: rest =>
      d <- check_duplicate_keys pairs ;;
      ds <- check_inner rest ;;
      Ok ((k, d) :: ds)
  end.

Definition load_replacements (raw : RawDocument) : result Replacements :=
  inner <- check_inner raw ;;
  check_duplicate_keys inner.

Record stats : Type := {
  shapes_processed : nat;
  shapes_cleared : nat;
  shapes_replaced : nat
}.

(** [int(slide_key.split("-")[1])] *)
Definition slide_index_of (slide_key : string) : result Z :=
  piece <- getitem (split "-"%char slide_key) 1 ;;
  int_of_str piece.

(** Lines 283-289, from paragraph [i] on. *)
Fixpoint add_paragraphs (sh : ShapeRef) (i : nat) (paras : list ParaData)
    : M unit :=
  match paras with
  | [] => ret tt
  | para_data :: rest =>
      prs <~ get_prs ;;
      r <~ lift (apply_paragraph_properties sh i para_data prs) ;;
      mutate (fun _ => fst r) ;;;
      for_each (snd r) print ;;;
      add_paragraphs sh (S i) rest
  end.

(** The body of [for shape_key, shape_data in shapes_dict.items()]. *)
Definition process_shape (replacements : Replacements) (slide_key : string)
    (st : stats) (shape_key : string) (shape_data : ShapeData) : M stats :=
  let st := {| shapes_processed := S (shapes_processed st);
               shapes_cleared := shapes_cleared st;
               shapes_replaced := shapes_replaced st |} in
  match shape shape_data with
  | None =>
      print ("警告：" +++ shape_key +++ " 没有形状引用") ;;;
      ret st
  | Some sh =>
      mutate (text_frame_clear sh) ;;;
      let st := {| shapes_processed := shapes_processed st;
                   shapes_cleared := S (shapes_cleared st);
                   shapes_replaced := shapes_replaced st |} in
      let replacement_shape_data :=
        match PyDict.get slide_key replacements with
        | Some shapes_data =>
            match PyDict.get shape_key shapes_data with
            | Some r => r
            | None => None
            end
        | None => None
        end in
      match replacement_shape_data with
      | None => ret st
      | Some paras =>
          let st := {| shapes_processed := shapes_processed st;
                       shapes_cleared := shapes_cleared st;
                       shapes_replaced := S (shapes_replaced st) |} in
          add_paragraphs sh 0 paras ;;;
          ret st
      end
  end.

Fixpoint process_shapes (replacements : Replacements) (slide_key : string)
    (shapes : list (string * ShapeData)) (st : stats) : M stats :=
  match shapes with
  | [] => ret st
  | (shape_key, shape_data) :: rest =>
      st <~ process_shape replacements slide_key st shape_key shape_data ;;
      process_shapes replacements slide_key rest st
  end.

(** The loop [for slide_key, shapes_dict in inventory.items()]. *)
Fixpoint process_slides (replacements : Replacements)
    (slides : list (string * PyDict.dict ShapeData)) (st : stats) : M stats :=
  match slides with
  | [] => ret st
  | (slide_key, shapes_dict) :: rest =>
      if negb (startswith "slide-" slide_key)
      then process_slides replacements rest st
      else
        slide_index <~ lift (slide_index_of slide_key) ;;
        prs <~ get_prs ;;
        if (Z.of_nat (n_slides prs) <=? slide_index)%Z then
          print ("警告：未找到幻灯片 " +++ str_of_Z slide_index) ;;;
          process_slides replacements rest st
        else
          st <~ process_shapes replacements slide_key
                  (PyDict.items shapes_dict) st ;;
          process_slides replacements rest st
  end.

(** Line 311: [original_overflow.get(slide_key, {}).get(shape_key, 0.0)] *)
Definition original_of (original_overflow : PyDict.dict (PyDict.dict float))
    (slide_key shape_key : string) : float :=
  match PyDict.get slide_key original_overflow with
  | Some m =>
      match PyDict.get shape_key m with
      | Some o => o
      | None => 0%float
      end
  | None => 0%float
  end.

(** Lines 307-319. *)
Definition overflow_errors_of (original_overflow updated_overflow :
    PyDict.dict (PyDict.dict float)) : list string :=
  flat_map
    (fun '(slide_key, shape_overflows) =>
       flat_map
         (fun '(shape_key, new_overflow) =>
            let original :=
              original_of original_overflow slide_key shape_key in
            if worsened new_overflow original then
              let increase := PrimFloat.sub new_overflow original in
              [ slide_key +++ "/" +++ shape_key +++ "：溢出恶化了 "
                +++ fmt_2f increase +++ dquote +++ " (之前 "
                +++ fmt_2f original +++ dquote +++ "，现在 "
                +++ fmt_2f new_overflow +++ dquote +++ ")" ]
            else [])
         (PyDict.items shape_overflows))
    (PyDict.items updated_overflow).

(** Lines 322-327. *)
Definition warnings_of (updated_inventory : InventoryData) : list string :=
  flat_map
    (fun '(slide_key, shapes_dict) =>
       flat_map
         (fun '(shape_key, shape_data) =>
            map (fun warning =>
                   slide_key +++ "/" +++ shape_key +++ "：" +++ warning)
              (warnings shape_data))
         (PyDict.items shapes_dict))
    (PyDict.items updated_inventory).

Definition nonempty {A} (l : list A) : bool :=
  match l with [] => false | _ => true end.

(** [apply_replacements], from the loaded presentation on.  [json] is
    what reading and parsing the replacement file gives. *)
Definition apply_replacements (json : result RawDocument)
    (output_file : string) : M stats :=
  prs0 <~ get_prs ;;
  let inventory := extract_text_inventory prs0 in
  let original_overflow := detect_frame_overflow inventory in
  raw <~ lift json ;;
  replacements <~ lift (load_replacements raw) ;;
  let errors := validate_replacements inventory replacements in
  if nonempty errors then
    print "错误：replacement JSON 中有无效形状：" ;;;
    for_each errors (fun error => print ("  - " +++ error)) ;;;
    print (nl +++ "请检查清单并更新您的 replacement JSON。") ;;;
    print "您可以使用以下命令重新生成清单：python inventory.py <input.pptx> <output.json>" ;;;
    raise (Exn "ValueError"
             ("发现 " +++ str_of_nat (List.length errors) +++ " 个验证错误"))
  else
    st <~ process_slides replacements (PyDict.items inventory)
            {| shapes_processed := 0; shapes_cleared := 0;
               shapes_replaced := 0 |} ;;
    prs <~ get_prs ;;
    emit (SaveTemporary prs) ;;;
    let updated_inventory := extract_text_inventory prs in
    let updated_overflow := detect_frame_overflow updated_inventory in
    emit UnlinkTemporary ;;;
    let overflow_errors := overflow_errors_of original_overflow updated_overflow in
    let warnings := warnings_of updated_inventory in
    if nonempty overflow_errors || nonempty warnings then
      print (nl +++ "错误：替换输出中检测到问题：") ;;;
      (if nonempty overflow_errors then
         print (nl +++ "文本溢出恶化：") ;;;
         for_each overflow_errors (fun error => print ("  - " +++ error))
       else ret tt) ;;;
      (if nonempty warnings then
         print (nl +++ "格式警告：") ;;;
         for_each warnings (fun warning => print ("  - " +++ warning))
       else ret tt) ;;;
      print (nl +++ "请在保存前修复这些问题。") ;;;
      raise (Exn "ValueError"
               ("发现 " +++ str_of_nat (List.length overflow_errors)
                +++ " 个溢出错误和 " +++ str_of_nat (List.length warnings)
                +++ " 个警告"))
    else
      emit (SaveFile output_file prs) ;;;
      print ("已保存更新的演示文稿到：" +++ output_file) ;;;
      print ("处理了 " +++ str_of_nat (n_slides prs) +++ " 张幻灯片") ;;;
      print ("  - 处理的形状：" +++ str_of_nat (shapes_processed st)) ;;;
      print ("  - 清除的形状：" +++ str_of_nat (shapes_cleared st)) ;;;
      print ("  - 替换的形状：" +++ str_of_nat (shapes_replaced st)) ;;;
      ret st.

End Engine.

End Replace.

(* ================================================================== *)
(** * pptx/scripts/thumbnail.py: the slide images                      *)
(* ================================================================== *)

Module ThumbnailImages.
Import Py.

(** [f"{n:03d}"]: zeros in front up to three characters. *)
Fixpoint zeros (k : nat) : string :=
  match k with
  | O => EmptyString
  | S k' => "0" +++ zeros k'
  end.

Definition fmt_03d (n : nat) : string :=
  zeros (3 - String.length (str_of_nat n)) +++ str_of_nat n.

(** [sorted] on a set of slide numbers. *)
Fixpoint insert_nat (x : nat) (l : list nat) : list nat :=
  match l with
  | [] => [x]
  | y :: l' => if x <? y then x :: y :: l' else y :: insert_nat x l'
  end.

Fixpoint sorted_nat (l : list nat) : list nat :=
  match l with
  | [] => []
  | x :: l' => insert_nat x (sorted_nat l')
  end.

(** [str] of a list of numbers. *)
Definition str_of_list (l : list nat) : string :=
  "[" +++ join ", " (map str_of_nat l) +++ "]".

(** [slide.element.get("show") == "0"] *)
Definition is_hidden (show : option string) : bool :=
  match show with
  | Some v => String.eqb v "0"
  | None => false
  end.

(** The set comprehension of lines 202-206, from the slide of index
    [idx] on. *)
Fixpoint hidden_from (idx : nat) (shows : list (option string)) : list nat :=
  match shows with
  | [] => []
  | show :: rest =>
      (if is_hidden show then [idx + 1] else []) ++ hidden_from (S idx) rest
  end.

(** [temp_dir / f"hidden-{slide_num:03d}.jpg"] *)
Definition hidden_path (temp_dir : string) (slide_num : nat) : string :=
  temp_dir +++ "/" +++ "hidden-" +++ fmt_03d slide_num +++ ".jpg".

(** What running the two converters leaves: their return codes,
    whether the PDF is there, and the names that
    [temp_dir.glob("slide-*.jpg")] finds. *)
Record rendering : Type := {
  soffice_returncode : Z;
  pdf_exists : bool;
  pdftoppm_returncode : Z;
  globbed : list string
}.

Section Convert.

(** [Image.open(path).size] *)
Variable image_size : string -> Z * Z.

(** The loop [for slide_num in range(1, total_slides + 1)]: the list of
    images and the placeholders saved, each with its size. *)
Fixpoint place_images (temp_dir : string) (hidden_slides : list nat)
    (visible_images : list string) (placeholder_size : Z * Z)
    (slide_nums : list nat) (visible_idx : nat)
    : result (list string * list (string * (Z * Z))) :=
  match slide_nums with
  | [] => Ok ([], [])
  | slide_num :: rest =>
      if existsb (Nat.eqb slide_num) hidden_slides then
        let placeholder_path := hidden_path temp_dir slide_num in
        r <- place_images temp_dir hidden_slides visible_images
               placeholder_size rest visible_idx ;;
        Ok (placeholder_path :: fst r,
            (placeholder_path, placeholder_size) :: snd r)
      else if visible_idx <? List.length visible_images then
        img <- getitem visible_images visible_idx ;;
        r <- place_images temp_dir hidden_slides visible_images
               placeholder_size rest (S visible_idx) ;;
        Ok (img :: fst r, snd r)
      else
        place_images temp_dir hidden_slides visible_images placeholder_size
          rest visible_idx
  end.

(** [convert_to_images], from the [show] attributes of the slides of
    the presentation: the images, the placeholders saved and the lines
    printed. *)
Definition convert_to_images (shows : list (option string))
    (temp_dir : string) (dpi : nat) (r : rendering)
    : result (list string * list (string * (Z * Z)) * list string) :=
  let total_slides := List.length shows in
  let hidden_slides := hidden_from 0 shows in
  let out :=
    [ "分析演示文稿..."; "总幻灯片数：" +++ str_of_nat total_slides ]
    ++ (match hidden_slides with
        | [] => []
        | _ => ["隐藏幻灯片：" +++ str_of_list (sorted_nat hidden_slides)]
        end)
    ++ ["转换为 PDF..."] in
  if negb (soffice_returncode r =? 0)%Z || negb (pdf_exists r)
  then Raise (Exn "RuntimeError" "PDF 转换失败")
  else
    let out := out ++ ["在 " +++ str_of_nat dpi +++ " DPI 转换为图像..."] in
    if negb (pdftoppm_returncode r =? 0)%Z
    then Raise (Exn "RuntimeError" "图像转换失败")
    else
      let visible_images :=
        map (fun name => temp_dir +++ "/" +++ name) (sorted (globbed r)) in
      let placeholder_size :=
        match visible_images with
        | first :: _ => image_size first
        | [] => (1920, 1080)%Z
        end in
      placed <- place_images temp_dir hidden_slides visible_images
                  placeholder_size (range 1 (total_slides + 1) 1) 0 ;;
      Ok (fst placed, snd placed, out).

End Convert.

End ThumbnailImages.

(* ================================================================== *)
(** * slack-gif-creator/core/gif_builder.py: adding frames             *)
(* ================================================================== *)

Module GifFrames.
Import Py GifBuilder.

(** [GIFBuilder(width, height, fps)]; the defaults are 480, 480, 15. *)
Definition init {Frame : Type} (width height fps : Z) : GIFBuilder Frame :=
  {| width := width; height := height; fps := fps; frames := [] |}.

(** [s == (height, width)] for [s = frame.shape[:2]] *)
Definition shape_is (s : list Z) (height width : Z) : bool :=
  match s with
  | [a; b] => ((a =? height) && (b =? width))%Z
  | _ => false
  end.

Section Frames.

(** numpy arrays and PIL images; [np.array(img.convert("RGB"))],
    [frame.shape[:2]], and
    [np.array(Image.fromarray(frame).resize((w, h), LANCZOS))], which
    raises on an array Pillow cannot read. *)
Variable Frame : Type.
Variable PilImage : Type.
Variable to_array : PilImage -> Frame.
Variable shape : Frame -> list Z.
Variable resize : Frame -> Z -> Z -> result Frame.

Definition add_frame (self : GIFBuilder Frame) (frame : Frame + PilImage)
    : result (GIFBuilder Frame) :=
  let frame :=
    match frame with
    | inr img => to_array img
    | inl array => array
    end in
  frame <- (if negb (shape_is (shape frame) (height self) (width self))
            then resize frame (width self) (height self)
            else Ok frame) ;;
  Ok (set_frames self (frames self ++ [frame])).

Fixpoint add_frames (self : GIFBuilder Frame) (fs : list (Frame + PilImage))
    : result (GIFBuilder Frame) :=
  match fs with
  | [] => Ok self
  | frame :: rest =>
      self <- add_frame self frame ;;
      add_frames self rest
  end.

Definition clear (self : GIFBuilder Frame) : GIFBuilder Frame :=
  set_frames self [].

End Frames.

End GifFrames.

(* ================================================================== *)
(** * pptx/scripts/thumbnail.py: the text regions                      *)
(* ================================================================== *)

Module ThumbnailRegions.
Import Py.

(** The box of a shape of the inventory, in inches, and a region
    [{"left": .., "top": .., "width": .., "height": ..}]. *)
Record ShapeBox : Type := {
  box_left : Q;
  box_top : Q;
  box_width : Q;
  box_height : Q
}.

Record region : Type := {
  left : Q;
  top : Q;
  width : Q;
  height : Q
}.

(** A dictionary with slide indices as keys, in insertion order. *)
Definition regions_dict : Type := list (Z * list region).

Fixpoint get_regions (k : Z) (d : regions_dict) : option (list region) :=
  match d with
  | [] => None
  | (k', v) :: d' => if (k =? k')%Z then Some v else get_regions k d'
  end.

Fixpoint set_regions (k : Z) (v : list region) (d : regions_dict)
    : regions_dict :=
  match d with
  | [] => [(k, v)]
  | (k', v') :: d' =>
      if (k =? k')%Z then (k, v) :: d' else (k', v') :: set_regions k v d'
  end.

Definition region_of (shape_data : ShapeBox) : region :=
  {| left := box_left shape_data; top := box_top shape_data;
     width := box_width shape_data; height := box_height shape_data |}.

(** The loop [for slide_key, shapes in inventory.items()]. *)
Fixpoint collect_regions (slides : list (string * PyDict.dict ShapeBox))
    (placeholder_regions : regions_dict) : result regions_dict :=
  match slides with
  | [] => Ok placeholder_regions
  | (slide_key, shapes) :: rest =>
      slide_idx <- Replace.slide_index_of slide_key ;;
      let regions := map (fun e => region_of (snd e)) (PyDict.items shapes) in
      collect_regions rest
        match regions with
        | [] => placeholder_regions
        | _ => set_regions slide_idx regions placeholder_regions
        end
  end.

(** [x or default] for a length in EMU. *)
Definition or_default (x : option Z) (default : Z) : Z :=
  match x with
  | Some v => if (v =? 0)%Z then default else v
  | None => default
  end.

(** [get_placeholder_regions], from the inventory of the presentation
    and its slide size. *)
Definition get_placeholder_regions (inventory : PyDict.dict (PyDict.dict ShapeBox))
    (slide_width slide_height : option Z)
    : result (regions_dict * (Q * Q)) :=
  let slide_width_inches :=
    (inject_Z (or_default slide_width 9144000) / inject_Z 914400)%Q in
  let slide_height_inches :=
    (inject_Z (or_default slide_height 5143500) / inject_Z 914400)%Q in
  placeholder_regions <- collect_regions (PyDict.items inventory) [] ;;
  Ok (placeholder_regions, (slide_width_inches, slide_height_inches)).

(** How [create_grid] reads the dictionary:
    [placeholder_regions and (k in placeholder_regions)], then
    [placeholder_regions[k]]. *)
Definition as_lookup (placeholder_regions : regions_dict)
    : option (Z -> option (list region)) :=
  match placeholder_regions with
  | [] => None
  | _ => Some (fun k => get_regions k placeholder_regions)
  end.

End ThumbnailRegions.

(* ================================================================== *)
(** * Concrete instances                                               *)
(* ================================================================== *)

(** The library parameters filled in with small executable stand-ins,
    to run the embedded scripts on concrete inputs. *)

Module GifExample.
Import Py GifBuilder.

(** A frame as the list of its channel values. *)
Definition Frame : Type := list float.

Fixpoint sum_abs_diff (prev curr : Frame) : float :=
  match prev, curr with
  | x :: prev', y :: curr' =>
      PrimFloat.add (PrimFloat.abs (PrimFloat.sub x y)) (sum_abs_diff prev' curr')
  | _, _ => 0%float
  end.

Fixpoint size_of (f : Frame) : float :=
  match f with
  | [] => 0%float
  | _ :: f' => PrimFloat.add 1%float (size_of f')
  end.

Definition similarity (prev curr : Frame) : result float :=
  if List.length prev =? List.length curr then
    Ok (PrimFloat.sub 1%float
          (PrimFloat.div (PrimFloat.div (sum_abs_diff prev curr) (size_of prev))
             255%float))
  else Raise (Exn "ValueError" "operands could not be broadcast together").

Definition score_lt (s threshold : float) : bool := PrimFloat.ltb s threshold.

Definition resize (f : Frame) (w h : Z) : result Frame := Ok f.

Definition bad_colors (num_colors : Z) : bool :=
  ((num_colors <? 1) || (256 <? num_colors))%Z.

Definition build_palette (sample : list Frame) (num_colors : Z) : result unit :=
  if bad_colors num_colors
  then Raise (Exn "ValueError" "bad number of colors")
  else Ok tt.

Definition apply_palette (p : unit) (f : Frame) : result Frame := Ok f.

Definition quantize (num_colors : Z) (f : Frame) : result Frame :=
  if bad_colors num_colors
  then Raise (Exn "ValueError" "bad number of colors")
  else Ok f.

Definition imwrite_size (output_path : string) (fs : list Frame) (d : Q)
    : result Z :=
  if Qle_bool 0 d then Ok (1024 * Z.of_nat (List.length fs))%Z
  else Raise (Exn "OverflowError" "can't convert negative value to unsigned int").

Definition fmt_f (decimals : nat) (q : Q) : string := "0.0".
Definition path_str (p : string) : string := p.

Definition black : Frame := [0%float; 0%float; 0%float].
Definition white : Frame := [255%float; 255%float; 255%float].

(** Five frames, two of them repeats of their predecessor. *)
Definition flicker : GIFBuilder Frame :=
  {| width := 1; height := 1; fps := 15;
     frames := [black; black; white; white; black] |}.

Definition flicker_deduplicated : GIFBuilder Frame :=
  {| width := 1; height := 1; fps := 15; frames := [black; white; black] |}.

(** The builder of the specification's example: a 200x200 canvas with
    20 frames, at the default 15 frames per second. *)
Definition canvas_200_20 : GIFBuilder Frame :=
  {| width := 200; height := 200; fps := 15; frames := repeat black 20 |}.

Definition save_example (self : GIFBuilder Frame) (num_colors : Z)
    (optimize_for_emoji remove_duplicates : bool)
    : result (info * GIFBuilder Frame * list string) :=
  save similarity score_lt resize build_palette apply_palette quantize
    imwrite_size path_str fmt_f self "emoji.gif" num_colors optimize_for_emoji
    remove_duplicates.

End GifExample.

Module FramesExample.
Import Py GifBuilder GifFrames.

(** A frame by its height and width alone; a PIL image by its width
    and height. *)
Definition Frame : Type := (Z * Z)%type.
Definition PilImage : Type := (Z * Z)%type.

Definition to_array (img : PilImage) : Frame := (snd img, fst img).
Definition shape (f : Frame) : list Z := [fst f; snd f].
Definition resize (f : Frame) (w h : Z) : result Frame := Ok (h, w).

Definition similarity (a b : Frame) : result float :=
  if (fst a =? fst b)%Z && (snd a =? snd b)%Z then Ok 1%float
  else Raise (Exn "ValueError" "operands could not be broadcast together").

Definition score_lt (s threshold : float) : bool := PrimFloat.ltb s threshold.

(** An array of the right size, a larger array, and a PIL image. *)
Definition inputs : list (Frame + PilImage) :=
  [inl (480, 480)%Z; inl (600, 800)%Z; inr (640, 480)%Z].

(** An array by its height, its width and its number of channels;
    Pillow reads arrays of three and of four channels, and numpy
    subtracts arrays of one shape. *)
Definition Array : Type := (Z * Z * Z)%type.

Definition layout (a : Array) : list Z := let '(h, w, c) := a in [h; w; c].
Definition size (a : Array) : list Z := firstn 2 (layout a).
Definition array_of (img : PilImage) : Array := (snd img, fst img, 3%Z).

Definition resized (a : Array) (w h : Z) : result Array :=
  let '(_, _, c) := a in
  if ((c =? 3) || (c =? 4))%Z then Ok (h, w, c)
  else Raise (Exn "TypeError" "Cannot handle this data type").

Definition subtracted (a b : Array) : result float :=
  let '(ha, wa, ca) := a in
  let '(hb, wb, cb) := b in
  if ((ha =? hb) && (wa =? wb) && (ca =? cb))%Z then Ok 1%float
  else Raise (Exn "ValueError" "operands could not be broadcast together").

(** Two PIL images; an RGB and an RGBA array of the size of the
    builder. *)
Definition images : list (Array + PilImage) :=
  [inr (640, 480)%Z; inr (480, 480)%Z].

Definition mixed : list (Array + PilImage) :=
  [inl (480, 480, 3)%Z; inl (480, 480, 4)%Z].

End FramesExample.

Module ValidatorsExample.
Import Py Validators.

Definition path_str (p : string) : string := p.
Definition path_name (p : string) : string := p.
Definition fmt_f (decimals : nat) (q : Q) : string := "0.0".

Definition pillow_image (width height : Z) (frames : nat)
    (fault : option (nat * exn)) : image :=
  {| size := (width, height); n_frames := frames; seek_fault := fault;
     duration := DurationNumber 100 |}.

(** An emoji of three frames; a large file of the same size; a file
    whose second frame is cut short; a file that is not an image. *)
Definition emoji : file :=
  {| st_size := Ok 2048%Z; open_image := Ok (pillow_image 128 128 3 None) |}.

Definition heavy : file :=
  {| st_size := Ok 9000000%Z;
     open_image := Ok (pillow_image 128 128 40 None) |}.

Definition truncated : file :=
  {| st_size := Ok 1024%Z;
     open_image :=
       Ok (pillow_image 128 128 3
             (Some (1, Exn "OSError" "image file is truncated"))) |}.

Definition not_an_image : file :=
  {| st_size := Ok 12%Z;
     open_image :=
       Raise (Exn "UnidentifiedImageError" "cannot identify image file") |}.

(** A file system with these files, which refuses names of more than
    255 characters. *)
Definition disk : filesystem :=
  fun p =>
    if 255 <? String.length p
    then Raise (Exn "OSError" "[Errno 36] File name too long")
    else if String.eqb p "emoji.gif" then Ok (Some emoji)
    else if String.eqb p "heavy.gif" then Ok (Some heavy)
    else if String.eqb p "truncated.gif" then Ok (Some truncated)
    else if String.eqb p "notes.txt" then Ok (Some not_an_image)
    else Ok None.



Definition validate (gif_path : string) (is_emoji verbose : bool)
    : result (bool * results * list string) :=
  validate_gif path_str path_name fmt_f disk gif_path is_emoji verbose.

End ValidatorsExample.

Module RegionsExample.
Import Py ThumbnailRegions.

Definition title_box : ShapeBox :=
  {| box_left := 1; box_top := 1 # 2; box_width := 8; box_height := 1 |}.

(** Two slides: the first has a title, the second no text. *)
Definition inventory : PyDict.dict (PyDict.dict ShapeBox) :=
  [("slide-0", [("shape-0", title_box)]); ("slide-1", [])].

End RegionsExample.

Module ThumbnailExample.
Import Py Thumbnail.

Definition font_size_of (width : Z) : Z := 36.
Definition label_padding_of (font_size : Z) : Z := 14.
Definition height_of (first : string) (width : Z) : Z := 169.
Definition text_width (font_size : Z) (label : string) : Z :=
  (20 * Z.of_nat (String.length label))%Z.
Definition thumbnail_size (img : string) (width height : Z) : Z * Z :=
  (width, height).

Definition thumbnails : out_path :=
  {| parent := "."; stem := "thumbnails"; suffix := ".jpg" |}.

(** Three slides on one column: two grids. *)
Definition three_slides : list string :=
  ["slide-1.jpg"; "slide-2.jpg"; "slide-3.jpg"].

Definition grids_example : result (list (string * grid unit)) :=
  create_grids font_size_of label_padding_of height_of text_width
    thumbnail_size three_slides 1 300 thumbnails None.

(** The same deck with the output path [/grid.jpg]. *)
Definition in_root : out_path :=
  {| parent := "/"; stem := "grid"; suffix := ".jpg" |}.

Definition root_example : result (list (string * grid unit)) :=
  create_grids font_size_of label_padding_of height_of text_width
    thumbnail_size three_slides 1 300 in_root None.

End ThumbnailExample.

Module PdfExample.
Import Py ExtractFormFieldInfo.

Definition button (states : list state) : Field :=
  {| Kids := false; FT := Some "/Btn"; States := states |}.

Definition yes_off : Field := button [SName "/Yes"; Off].
Definition off_one : Field := button [Off; SName "/1"].
Definition on_yes : Field := button [SName "/On"; SName "/Yes"].
Definition three_states : Field := button [SName "/A"; SName "/B"; SName "/C"].

Definition text_field : Field :=
  {| Kids := false; FT := Some "/Tx"; States := [] |}.

Definition radio_parent : Field :=
  {| Kids := true; FT := Some "/Btn"; States := [] |}.

(** The widget of a field that has no parent. *)
Definition widget (name : string) (r : option Rect) : annotation :=
  Annotation (Some name) None r None.

(** One button of a radio group: the name is on the parent. *)
Definition radio_button (group on_value : string) (r : option Rect)
    : annotation :=
  Annotation None (Some (Annotation (Some group) None None None)) r
    (Some ["/Off"; on_value]).

(** The ordering example: three fields on page 1. *)
Definition ordering_reader : PdfReader :=
  {| get_fields :=
       Some [("a", text_field); ("b", text_field); ("c", text_field)];
     pages :=
       [[ widget "a" (Some (0, 700, 100, 720)%Q);
          widget "b" (Some (0, 100, 100, 120)%Q);
          widget "c" (Some (50, 700, 150, 720)%Q) ]] |}.

(** The same three fields, listed by the form from right to left and
    from the bottom up. *)
Definition reversed_reader : PdfReader :=
  {| get_fields :=
       Some [("c", text_field); ("b", text_field); ("a", text_field)];
     pages :=
       [[ widget "c" (Some (50, 700, 150, 720)%Q);
          widget "b" (Some (0, 100, 100, 120)%Q);
          widget "a" (Some (0, 700, 100, 720)%Q) ]] |}.

(** A field whose widget has no [/Rect]. *)
Definition no_rect_reader : PdfReader :=
  {| get_fields := Some [("name", text_field)];
     pages := [[ widget "name" None ]] |}.

(** A text field, a field without any widget, and a radio group of two
    buttons on the second page. *)
Definition mixed_reader : PdfReader :=
  {| get_fields :=
       Some [("name", text_field); ("ghost", text_field);
             ("colour", radio_parent)];
     pages :=
       [ [ widget "name" (Some (72, 700, 300, 720)%Q) ];
         [ radio_button "colour" "/red" (Some (72, 600, 90, 618)%Q);
           radio_button "colour" "/blue" (Some (172, 600, 190, 618)%Q) ] ] |}.

End PdfExample.

Module ReplaceExample.
Import Py Replace.

(** A one-slide deck: each shape, by number, with the texts of its
    paragraphs.  A shape that holds more than 20 characters overflows:
    by half an inch up to 30 characters, by 0.505 inch up to 40, by
    three quarters of an inch beyond. *)
Definition Deck : Type := list (nat * list string).

Definition total_length (paras : list string) : nat :=
  fold_right (fun t n => String.length t + n) 0 paras.

Definition overflow_of (n : nat) : option float :=
  if n <=? 20 then None
  else if n <=? 30 then Some 0.5%float
  else if n <=? 40 then Some 0.505%float
  else Some 0.75%float.

Definition shape_data_of (k : nat) (paras : list string) : ShapeData nat :=
  {| frame_overflow_bottom := overflow_of (total_length paras);
     shape := Some k;
     paragraphs := map (fun t => {| text := t |}) paras;
     warnings := [] |}.

Definition extract_text_inventory (deck : Deck) : InventoryData nat :=
  [ ("slide-0",
     map (fun '(k, paras) => ("shape-" +++ str_of_nat k, shape_data_of k paras))
       deck) ].

Definition n_slides (deck : Deck) : nat := 1.

Definition text_frame_clear (k : nat) (deck : Deck) : Deck :=
  map (fun '(k', paras) => if k' =? k then (k', []) else (k', paras)) deck.

Definition apply_paragraph_properties (k i : nat) (para_data : string)
    (deck : Deck) : result (Deck * list string) :=
  Ok (map (fun '(k', paras) =>
             if k' =? k then (k', paras ++ [para_data]) else (k', paras))
        deck, []).

Definition fmt_2f (x : float) : string := "0.50".

Definition deck : Deck := [(0, ["Title"]); (1, ["Body"])].

(** A new title for shape 0; shape 1 is not mentioned. *)
Definition retitle : RawDocument string :=
  [("slide-0", [("shape-0", Some ["New title"])])].

Definition verbose_title : RawDocument string :=
  [("slide-0",
    [("shape-0", Some ["A title that is much too long for its shape"])])].

(** A shape and a slide that the deck does not have. *)
Definition misaddressed : RawDocument string :=
  [("slide-0", [("shape-5", None)]); ("slide-9", [])].

Definition run_example (raw : RawDocument string)
    : result stats * (Deck * list (event Deck)) :=
  apply_replacements extract_text_inventory n_slides text_frame_clear
    apply_paragraph_properties fmt_2f (Ok raw) "out.pptx" (deck, []).

(** A shape of the deck and a shape it does not have. *)
Definition half_addressed : RawDocument string :=
  [("slide-0", [("shape-0", Some ["New title"]); ("shape-5", None)]);
   ("slide-9", [])].





End ReplaceExample.

(* ================================================================== *)
(** * Notions used to state the properties                             *)
(* ================================================================== *)

Module GifSpec.
Import Py GifBuilder.

Section Runs.
Variable Frame Score : Type.
Variable similarity : Frame -> Frame -> result Score.
Variable score_lt : Score -> float -> bool.

(** [kept] is a run of frames each of which differs enough from the
    one before it, starting after [prev]. *)
Fixpoint distinct_run (threshold : float) (prev : Frame) (kept : list Frame)
    : Prop :=
  match kept with
  | [] => True
  | x :: kept' =>
      (exists s, similarity prev x = Ok s /\ score_lt s threshold = true)
      /\ distinct_run threshold x kept'
  end.

End Runs.

End GifSpec.

Module LocationSpec.
Import Py ExtractFormFieldInfo.

Section Scan.

(** [seen id r]: an annotation whose full identifier is [id] and whose
    [/Rect] entry is [r] has been met. *)
Variable seen : string -> option Rect -> Prop.

Definition fresh_ok (e : string * field_dict) : Prop :=
  field_id (snd e) = fst e /\ page (snd e) = None
  /\ radio_options (snd e) = None.

Definition field_ok (e : string * field_dict) : Prop :=
  field_id (snd e) = fst e /\ radio_options (snd e) = None
  /\ (page (snd e) = None
      \/ (page (snd e) <> None
          /\ exists r, rect (snd e) = Some r /\ seen (fst e) r)).

Definition radio_ok (e : string * field_dict) : Prop :=
  field_id (snd e) = fst e /\ page (snd e) <> None
  /\ (exists o os,
        radio_options (snd e) = Some (o :: os)
        /\ Forall (fun option => seen (fst e) (opt_rect option)) (o :: os))
  /\ exists r, seen (fst e) r.

End Scan.

(** An annotation of the document with this identifier and [/Rect]. *)
Definition annotated (reader : PdfReader) (id : string) (r : option Rect)
    : Prop :=
  exists annotations ann,
    In annotations (pages reader) /\ In ann annotations
    /\ get_full_annotation_field_id ann = Some id /\ ann_Rect ann = r.

(** A descriptor has a page number and the key that locates it: the
    ["rect"] key of an ordinary field, whose value is the [/Rect] of an
    annotation of the field (none when that annotation has no
    [/Rect]); for a radio group at least one option, each option with
    a ["rect"] of the same kind. *)
Definition has_location_keys (reader : PdfReader) (d : field_dict) : Prop :=
  page d <> None
  /\ match radio_options d with
     | Some options =>
         options <> []
         /\ Forall (fun option =>
                      annotated reader (field_id d) (opt_rect option))
              options
     | None => exists r, rect d = Some r /\ annotated reader (field_id d) r
     end.

End LocationSpec.

Module OrderSpec.
Import Py ExtractFormFieldInfo.

(** The order the sort key stands for: page ascending, then the
    negated vertical coordinate ascending, then the horizontal
    coordinate ascending. *)
Definition position_le (p q : Q * Q) : Prop :=
  (fst p < fst q \/ (fst p == fst q /\ snd p <= snd q))%Q.

Definition key_le (k1 k2 : key) : Prop :=
  match fst k1, fst k2 with
  | Some p1, Some p2 => p1 < p2 \/ (p1 = p2 /\ position_le (snd k1) (snd k2))
  | _, _ => False
  end.

(** [f] may stand before [g] in the sorted list. *)
Definition precedes (f g : field_dict) : Prop :=
  exists kf kg, sort_key f = Ok kf /\ sort_key g = Ok kg /\ key_le kf kg.

Definition pair_le (a b : key * field_dict) : Prop := key_le (fst a) (fst b).

Definition has_page (a : key * field_dict) : Prop := fst (fst a) <> None.

(** Where a rectangle starts: its first two numbers, x and y; the
    origin for a rectangle that is not there. *)
Definition corner (r : option Rect) : Q * Q :=
  match r with
  | Some (x0, y0, _, _) => (x0, y0)
  | None => (0, 0)%Q
  end.

(** The page of a descriptor and the corner it is placed by: that of
    its ["rect"], or for a radio group that of the ["rect"] of its
    first option. *)
Definition placing (f : field_dict) : option (nat * (Q * Q)) :=
  match page f, radio_options f with
  | Some p, Some (o :: _) => Some (p, corner (opt_rect o))
  | Some p, None =>
      Some (p, corner match rect f with Some r => r | None => None end)
  | _, _ => None
  end.

(** Reading order: an earlier page first; on one page the greater y
    first, the top of the page; at one height the smaller x first. *)
Definition reads_before (f g : field_dict) : Prop :=
  exists pf xf yf pg xg yg,
    placing f = Some (pf, (xf, yf)) /\ placing g = Some (pg, (xg, yg))
    /\ (pf < pg
        \/ (pf = pg /\ (yg < yf \/ (yf == yg /\ xf <= xg))%Q)).

End OrderSpec.

Module OverflowSpec.
Import Py Replace PyDict.




Section Maps.
Variable ShapeRef : Type.

(** [overflow_map[slide_key][shape_key]], when both keys are there. *)
Definition lookup2 (overflow_map : dict (dict float))
    (slide_key shape_key : string) : option float :=
  match get slide_key overflow_map with
  | Some inner => get shape_key inner
  | None => None
  end.

(** The bottom overflow the inventory has measured for a shape. *)
Definition measured_overflow (inventory : InventoryData ShapeRef)
    (slide_key shape_key : string) : option float :=
  match get slide_key inventory with
  | Some shapes =>
      match get shape_key shapes with
      | Some shape_data => frame_overflow_bottom shape_data
      | None => None
      end
  | None => None
  end.

(** The inventory is a dictionary of dictionaries: no key twice. *)
Definition inventory_ok (inventory : InventoryData ShapeRef) : Prop :=
  NoDup (keys inventory) /\ Forall (fun e => NoDup (keys (snd e))) inventory.

Definition map_ok (overflow_map : dict (dict float)) : Prop :=
  NoDup (keys overflow_map)
  /\ Forall (fun e => NoDup (keys (snd e))) overflow_map.

(** The two loops of [detect_frame_overflow], from any map. *)
Definition record_shapes (sk0 : string)
    (shapes : list (string * ShapeData ShapeRef)) (acc : dict (dict float))
    : dict (dict float) :=
  fold_left (fun overflow_map '(shape_key, shape_data) =>
               record_overflow sk0 shape_key shape_data overflow_map)
    shapes acc.

Definition record_slides (slides : InventoryData ShapeRef)
    (acc : dict (dict float)) : dict (dict float) :=
  fold_left (fun overflow_map '(slide_key, shapes_dict) =>
               record_shapes slide_key (items shapes_dict) overflow_map)
    slides acc.






End Maps.

End OverflowSpec.

Module ReplaceSpec.
Import Py Replace.

(** A character: one byte that starts a code point, and the
    continuation bytes after it. *)
Fixpoint all_continuation (s : string) : bool :=
  match s with
  | EmptyString => true
  | String a rest => is_continuation a && all_continuation rest
  end.

Definition is_char (c : string) : Prop :=
  exists a pre,
    c = String a pre /\ is_continuation a = false
    /\ all_continuation pre = true.

Definition no_stats : stats :=
  {| shapes_processed := 0; shapes_cleared := 0; shapes_replaced := 0 |}.

(** What is printed when validation fails. *)
Definition validation_report (errors : list string) : list string :=
  ["错误：replacement JSON 中有无效形状："]
  ++ map (fun error => "  - " +++ error) errors
  ++ [ nl +++ "请检查清单并更新您的 replacement JSON。";
       "您可以使用以下命令重新生成清单：python inventory.py <input.pptx> <output.json>" ].

(** The preview of a text: its first 50 characters, followed by
    three dots when it has more. *)
Definition preview (t : string) : string :=
  of_chars (firstn 50 (chars t)
            ++ (if 50 <? List.length (chars t) then ["."; "."; "."] else [])).

(** How a shape is listed: by its key, followed by the preview of its
    first paragraph when that has text. *)
Definition listed (k : string) (paragraphs : list Paragraph) : string :=
  match paragraphs with
  | {| text := t |} :: _ =>
      if String.eqb t EmptyString then k
      else k +++ " ('" +++ preview t +++ "')"
  | [] => k
  end.

Definition slide_error (slide_key : string) : string :=
  "幻灯片 '" +++ slide_key +++ "' 在 inventory 中未找到".

Definition shape_error (shape_key slide_key : string) (others : list string)
    : string :=
  "形状 '" +++ shape_key +++ "' 在 '" +++ slide_key +++ "' 上未找到。 "
  +++ "未定义 replacements 的形状："
  +++ match others with
      | [] => "无"
      | _ => join ", " others
      end.

Section Keys.
Variable ShapeRef ParaData : Type.

(** The inventoried shapes of a slide that the replacement document
    does not mention, in the order of the inventory. *)
Definition unmentioned (slide_shapes : PyDict.dict (ShapeData ShapeRef))
    (shapes_data : PyDict.dict (ShapeReplacement ParaData))
    : list (string * ShapeData ShapeRef) :=
  filter (fun e => negb (PyDict.mem (fst e) shapes_data)) slide_shapes.

(** [error] is the error of a bad key of the replacement document: of
    a slide key the inventory does not have, or of a shape key its
    slide does not have, with the unmentioned shapes of the slide
    listed in sorted order. *)
Definition key_error (inventory : InventoryData ShapeRef)
    (replacements : Replacements ParaData) (error : string) : Prop :=
  (exists slide_key shapes_data,
     In (slide_key, shapes_data) replacements
     /\ startswith "slide-" slide_key = true
     /\ PyDict.get slide_key inventory = None
     /\ error = slide_error slide_key)
  \/ (exists slide_key shapes_data slide_shapes shape_key,
        In (slide_key, shapes_data) replacements
        /\ startswith "slide-" slide_key = true
        /\ PyDict.get slide_key inventory = Some slide_shapes
        /\ In shape_key (PyDict.keys shapes_data)
        /\ PyDict.mem shape_key slide_shapes = false
        /\ error
           = shape_error shape_key slide_key
               (sorted
                  (map (fun e => listed (fst e) (paragraphs (snd e)))
                     (unmentioned slide_shapes shapes_data)))).

End Keys.

Section Runs.
Variable Prs : Type.

(** A run of the engine on presentations of type [Prs]. *)
Definition Run (A : Type) : Type := Replace.M Prs A.

(** A computation that prints and does nothing else to the outside. *)
Definition quiet {A} (m : Run A) : Prop :=
  forall w r w', m w = (r, w') ->
    exists lines, snd w' = snd w ++ map (@Print Prs) lines.

End Runs.

Arguments quiet Prs {A} m.

End ReplaceSpec.

Module ValidatorsSpec.
Import Py Validators.





End ValidatorsSpec.

Module ListSpec.

(** [sub] is [l] with some elements left out, the others in their
    order. *)
Inductive subsequence {A : Type} : list A -> list A -> Prop :=
| subsequence_nil : subsequence [] []
| subsequence_keep (x : A) (sub l : list A) :
    subsequence sub l -> subsequence (x :: sub) (x :: l)
| subsequence_drop (x : A) (sub l : list A) :
    subsequence sub l -> subsequence sub (x :: l).

End ListSpec.

Module ThumbnailSpec.
Import Thumbnail.

(** The images pasted on a grid, in drawing order. *)
Definition pasted_of {R} (op : draw_op R) : list string :=
  match op with
  | Paste img_path _ _ _ => [img_path]
  | _ => []
  end.

Definition pasted {R} (g : grid R) : list string := flat_map pasted_of (ops g).

(** A frame drawn around a thumbnail: the corners [(x0, y0)] and
    [(x1, y1)] of [draw.rectangle], both inclusive. *)
Definition box : Type := Z * Z * Z * Z.

Definition border_of {R} (op : draw_op R) : list box :=
  match op with
  | Border x0 y0 x1 y1 => [(x0, y0, x1, y1)]
  | _ => []
  end.

Definition borders {R} (g : grid R) : list box := flat_map border_of (ops g).

(** The frame lies on the canvas of the grid. *)
Definition on_canvas {R} (g : grid R) (b : box) : Prop :=
  let '(x0, y0, x1, y1) := b in
  (0 <= x0 /\ x1 < grid_w g /\ 0 <= y0 /\ y1 < grid_h g)%Z.

(** Two frames share no pixel. *)
Definition apart (a b : box) : Prop :=
  let '(ax0, ay0, ax1, ay1) := a in
  let '(bx0, by0, bx1, by1) := b in
  (ax1 < bx0 \/ bx1 < ax0 \/ ay1 < by0 \/ by1 < ay0)%Z.

(** The name of the [k]-th grid file of several, counted from 1. *)
Definition numbered (output_path : out_path) (k : nat) : string :=
  path_str {| parent := parent output_path;
              stem := stem output_path +++ "-" +++ Py.str_of_nat k;
              suffix := suffix output_path |}.

(** The file the chunk of index [chunk_idx] is saved in, for a deck of
    [n] images. *)
Definition grid_file (n max_images_per_grid : nat) (output_path : out_path)
    (chunk_idx : nat) : string :=
  if n <=? max_images_per_grid then path_str output_path
  else numbered output_path (chunk_idx + 1).

(** The frame stays in the cell of index [k]: the square of
    [width] x [height] under the label, and the border around it. *)
Definition in_cell (cols width height font_size label_padding k : Z) (b : box)
    : Prop :=
  let '(x0, y0, x1, y1) := b in
  let row := (k / cols)%Z in
  let col := (k mod cols)%Z in
  let x := (col * width + (col + 1) * GRID_PADDING)%Z in
  let y := (row * (height + font_size + label_padding * 2)
            + (row + 1) * GRID_PADDING
            + label_padding + font_size + label_padding)%Z in
  (x - BORDER_WIDTH <= x0 /\ x1 <= x + width + BORDER_WIDTH - 1
   /\ y - BORDER_WIDTH <= y0 /\ y1 <= y + height + BORDER_WIDTH - 1)%Z.

(** The images pasted on a grid, each with the regions outlined on
    it, if any. *)
Definition outline_of {R} (op : draw_op R) : list (string * option R) :=
  match op with
  | Paste img_path outlined _ _ => [(img_path, outlined)]
  | _ => []
  end.

Definition outlines {R} (g : grid R) : list (string * option R) :=
  flat_map outline_of (ops g).

(** What is looked up for the slide of index [k]. *)
Definition regions_at {R} (placeholder_regions : option (Z -> option R))
    (k : nat) : option R :=
  match placeholder_regions with
  | Some regions => regions (Z.of_nat k)
  | None => None
  end.

End ThumbnailSpec.

Module EngineSpec.
Import Py Replace PyDict.

(** [key] is the first key of [pairs] that repeats an earlier one. *)
Definition first_repeat {V} (pairs : list (string * V)) (key : string) : Prop :=
  exists pre v post,
    pairs = pre ++ (key, v) :: post
    /\ NoDup (keys pre) /\ In key (keys pre).

Section Events.
Variable Prs ShapeRef : Type.

(** What a run did to files: its events other than printing. *)
Definition file_events (ev : list (event Prs)) : list (event Prs) :=
  filter (fun e => match e with Print _ _ => false | _ => true end) ev.

(** The shapes of an inventory, slide after slide. *)
Definition all_shapes (inventory : InventoryData ShapeRef)
    : list (string * ShapeData ShapeRef) :=
  flat_map (fun e => items (snd e)) (items inventory).

End Events.

(** No shape is counted as replaced that was not cleared, none as
    cleared that was not processed. *)
Definition coherent (st : stats) : Prop :=
  shapes_replaced st <= shapes_cleared st
  /\ shapes_cleared st <= shapes_processed st.

(** A string of decimal digits. *)
Fixpoint all_digits (s : string) : bool :=
  match s with
  | EmptyString => true
  | String a rest => is_digit a && all_digits rest
  end.

(** A string without a hyphen. *)
Fixpoint no_hyphen (s : string) : bool :=
  match s with
  | EmptyString => true
  | String a rest => negb (Ascii.eqb a "-"%char) && no_hyphen rest
  end.

End EngineSpec.

Module ScanSpec.
Import Py ExtractFormFieldInfo.

(** The [/T] of an annotation when it is a name that counts. *)
Definition own_name (a : annotation) : option string :=
  match ann_T a with
  | Some field_name =>
      if String.eqb field_name EmptyString then None else Some field_name
  | None => None
  end.

(** The annotations of the document in reading order, each with the
    index of its page. *)
Fixpoint numbered_annotations (page_index : nat) (pgs : list (list annotation))
    : list (nat * annotation) :=
  match pgs with
  | [] => []
  | annotations :: rest =>
      map (pair page_index) annotations
      ++ numbered_annotations (S page_index) rest
  end.

Definition has_id (id : string) (pa : nat * annotation) : bool :=
  match get_full_annotation_field_id (snd pa) with
  | Some i => String.eqb i id
  | None => false
  end.

(** The one appearance state of a radio button that is not [/Off]. *)
Definition on_value (ann : annotation) : option string :=
  match ann_AP_N ann with
  | Some names =>
      match filter (fun v => negb (String.eqb v "/Off")) names with
      | [v] => Some v
      | _ => None
      end
  | None => None
  end.

Definition is_button (ann : annotation) : bool :=
  match on_value ann with Some _ => true | None => false end.

(** The annotations that carry the identifier, and among them the
    radio buttons. *)
Definition matches (id : string) (l : list (nat * annotation))
    : list (nat * annotation) :=
  filter (has_id id) l.

Definition radio_matches (id : string) (l : list (nat * annotation))
    : list (nat * annotation) :=
  filter (fun pa => has_id id pa && is_button (snd pa)) l.

Definition last_opt {A} (l : list A) : option A :=
  match rev l with
  | x :: _ => Some x
  | [] => None
  end.

Definition options_of (l : list (nat * annotation)) : list radio_option :=
  flat_map (fun pa =>
              match on_value (snd pa) with
              | Some v => [{| opt_value := v; opt_rect := ann_Rect (snd pa) |}]
              | None => []
              end) l.

(** The descriptor of a field once the annotations [l] have been
    read: located by the last of them that carries its identifier. *)
Definition relocate (id : string) (l : list (nat * annotation))
    (d0 : field_dict) : field_dict :=
  match last_opt (matches id l) with
  | Some pa => set_location (fst pa + 1) (ann_Rect (snd pa)) d0
  | None => d0
  end.

(** The radio group of an identifier once the annotations [l] have
    been read: on the page of its first button, one option a button. *)
Definition group (id : string) (l : list (nat * annotation))
    : option field_dict :=
  match radio_matches id l with
  | [] => None
  | pa :: rest =>
      Some {| field_id := id; type_ := Some "radio_group";
              checked_value := None; unchecked_value := None;
              choice_options := None; page := Some (fst pa + 1);
              rect := None;
              radio_options := Some (options_of (pa :: rest)) |}
  end.

(** What indexing finds in an entry of [/_States_]: the elements of
    an array, the characters of a string. *)
Definition items_of (st : state) : list string :=
  match st with
  | SList items => items
  | SName s => chars s
  end.

(** The option a choice field lists for an entry of [/_States_]: the
    first two elements of an array, or the first two characters of a
    plain string. *)
Definition listed_as (st : state) (o : string * string) : Prop :=
  exists value text rest, items_of st = value :: text :: rest /\ o = (value, text).

(** The state of the second loop of [get_field_info] once the
    annotations [l] have been read, from the descriptors [fi0] of the
    first loop and the names of the button containers. *)
Definition scanned (fi0 : PyDict.dict field_dict) (names : list string)
    (l : list (nat * annotation))
    (st : PyDict.dict field_dict * PyDict.dict field_dict) : Prop :=
  PyDict.keys (fst st) = PyDict.keys fi0
  /\ (forall k, PyDict.get k (fst st)
                = option_map (relocate k l) (PyDict.get k fi0))
  /\ NoDup (PyDict.keys (snd st))
  /\ (forall k, PyDict.get k (snd st)
                = if PyDict.mem k fi0 then None
                  else if name_in k names then group k l else None).

End ScanSpec.

Module ImagesSpec.
Import ThumbnailImages.

Definition hidden_count (shows : list (option string)) : nat :=
  List.length (filter is_hidden shows).

Definition visible_count (shows : list (option string)) : nat :=
  List.length (filter (fun show => negb (is_hidden show)) shows).

(** The number of slides shown among the first [i]. *)
Definition visible_before (shows : list (option string)) (i : nat) : nat :=
  visible_count (firstn i shows).

End ImagesSpec.

Module FramesSpec.
Import GifBuilder GifFrames.

Section Frames.
Variable Frame PilImage : Type.
Variable to_array : PilImage -> Frame.
Variable shape : Frame -> list Z.
Variable resize : Frame -> Z -> Z -> Py.result Frame.

(** Every frame of the builder has the size of the builder. *)
Definition uniform (self : GIFBuilder Frame) : Prop :=
  Forall (fun f => shape f = [height self; width self]) (frames self).

(** The frame stored for an input: the array itself when it has the
    size of the builder, else what resizing it gives. *)
Definition stored_as (self : GIFBuilder Frame) (input : Frame + PilImage)
    (f : Frame) : Prop :=
  let array := match input with inr img => to_array img | inl a => a end in
  if shape_is (shape array) (height self) (width self)
  then f = array
  else resize array (width self) (height self) = Py.Ok f.

End Frames.

End FramesSpec.

Module RegionsSpec.
Import Py ThumbnailRegions.

(** The regions of the slide of index [n]: the boxes of its shapes in
    the inventory, when it has any. *)
Definition regions_of_slide (inventory : PyDict.dict (PyDict.dict ShapeBox))
    (n : nat) : option (list region) :=
  match PyDict.get ("slide-" +++ str_of_nat n) inventory with
  | Some (shape :: shapes) =>
      Some (map (fun e => region_of (snd e)) (shape :: shapes))
  | _ => None
  end.

End RegionsSpec.

(* ================================================================== *)
(** * Properties                                                       *)
(* ================================================================== *)

(** ** The Word-document validator *)

Module DocxFacts.
Import Docx.

Section Facts.
Variable St : Type.
Variable run_check : check -> St -> bool * St.

(** C6. [validate] first runs test 0; when it fails the result is
    failure and test 0 is the only call made.  Otherwise tests 1 to 9
    are all called, in order and each on the state its predecessor
    left, whatever they return; the paragraph-count comparison is
    called after them; and the value returned is the conjunction of
    the nine results, the comparison having no part in it. *)
Theorem validate_runs_all_checks (s : St) :
  let (ok0, s0) := run_check validate_xml s in
  if ok0 then
    let (bs, s9) := run_all run_check tests_1_to_9 s0 in
    let (_, s10) := run_check compare_paragraph_counts s9 in
    validate run_check (s, []) =
      (conjunction bs,
       (s10, validate_xml :: tests_1_to_9 ++ [compare_paragraph_counts]))
  else
    validate run_check (s, []) = (false, (s0, [validate_xml])).
Proof.
  unfold validate, step, bind, call, ret, tests_1_to_9, conjunction; simpl.
  destruct (run_check validate_xml s) as [ok0 s0]; simpl.
  destruct ok0; simpl; [|reflexivity].
  repeat match goal with
         | |- context [run_check ?c ?x] =>
             let b := fresh "b" in
             let t := fresh "t" in
             destruct (run_check c x) as [b t]; simpl
         end.
  repeat match goal with b : bool |- _ => destruct b end; reflexivity.
Qed.

End Facts.

End DocxFacts.

(** ** The GIF builder *)

Module GifBuilderFacts.
Import Py GifBuilder GifSpec.

Lemma last_item_snoc {A} (l : list A) (x : A) : last_item (l ++ [x]) = Ok x.
Proof.
  induction l as [|a l IH]; simpl; [reflexivity|].
  destruct (l ++ [x]) eqn:E; [destruct l; discriminate|exact IH].
Qed.

Section Dedup.
Variable Frame Score : Type.
Variable similarity : Frame -> Frame -> result Score.
Variable score_lt : Score -> float -> bool.

Lemma dedup_loop_keeps_run threshold todo :
  forall deduplicated prev removed d' removed',
    last_item deduplicated = Ok prev ->
    dedup_loop similarity score_lt threshold todo deduplicated removed
      = Ok (d', removed') ->
    exists kept, d' = deduplicated ++ kept /\ distinct_run similarity score_lt threshold prev kept.
Proof.
  induction todo as [|curr todo IH]; simpl; intros d prev r d' r' Hlast H.
  - injection H as <- <-. exists []. now rewrite app_nil_r.
  - rewrite Hlast in H. simpl in H.
    destruct (similarity prev curr) as [s|e] eqn:Hs; simpl in H; [|discriminate].
    destruct (score_lt s threshold) eqn:Hlt.
    + apply IH with (prev := curr) in H; [|apply last_item_snoc].
      destruct H as (kept & -> & Hrun).
      exists (curr :: kept). rewrite <- app_assoc. split; [reflexivity|].
      simpl. split; [exists s; auto|assumption].
    + eapply IH; eassumption.
Qed.

Lemma dedup_loop_on_run threshold kept :
  forall deduplicated prev removed,
    last_item deduplicated = Ok prev ->
    distinct_run similarity score_lt threshold prev kept ->
    dedup_loop similarity score_lt threshold kept deduplicated removed
      = Ok (deduplicated ++ kept, removed).
Proof.
  induction kept as [|x kept IH]; simpl; intros d prev r Hlast Hrun.
  - now rewrite app_nil_r.
  - destruct Hrun as [(s & Hs & Hlt) Hrun].
    rewrite Hlast. simpl. rewrite Hs. simpl. rewrite Hlt.
    rewrite (IH (d ++ [x]) x r (last_item_snoc d x) Hrun).
    now rewrite <- app_assoc.
Qed.

Lemma last_item_nonempty {A} (l : list A) :
  l <> [] -> exists x, last_item l = Ok x.
Proof.
  induction l as [|a l IH]; [contradiction|]. intros _.
  destruct l as [|b l]; [now exists a|].
  destruct IH as [x Hx]; [discriminate|]. now exists x.
Qed.

Lemma dedup_loop_returns threshold todo :
  (forall a b, exists s, similarity a b = Ok s) ->
  forall deduplicated removed,
    deduplicated <> [] ->
    exists d' removed',
      dedup_loop similarity score_lt threshold todo deduplicated removed
        = Ok (d', removed').
Proof.
  intros Htotal. induction todo as [|curr todo IH]; intros d r Hd; simpl.
  - eauto.
  - destruct (last_item_nonempty Hd) as [prev ->]. simpl.
    destruct (Htotal prev curr) as [s ->]. simpl.
    destruct (score_lt s threshold); apply IH; [|assumption].
    destruct d; discriminate.
Qed.

(** When numpy can compare any two frames, [deduplicate_frames]
    returns. *)
Lemma deduplicate_frames_returns (self : GIFBuilder Frame) (threshold : float) :
  (forall a b, exists s, similarity a b = Ok s) ->
  exists removed self',
    deduplicate_frames similarity score_lt self threshold = Ok (removed, self').
Proof.
  intros Htotal. unfold deduplicate_frames.
  destruct (List.length (frames self) <? 2) eqn:Hlen; [eauto|].
  destruct (frames self) as [|first rest]; [discriminate|].
  destruct (@dedup_loop_returns threshold rest Htotal [first] 0) as (d & n & ->);
    [discriminate|].
  simpl. eauto.
Qed.

(** C8. Deduplication is idempotent: when [deduplicate_frames] has
    returned, a second call with the same threshold removes no frame
    and leaves the builder as the first call left it. *)
Theorem deduplicate_frames_idempotent (self self' : GIFBuilder Frame)
    (threshold : float) (removed : nat) :
  deduplicate_frames similarity score_lt self threshold = Ok (removed, self') ->
  deduplicate_frames similarity score_lt self' threshold = Ok (0, self').
Proof.
  unfold deduplicate_frames.
  destruct (List.length (frames self) <? 2) eqn:Hlen.
  - intros [= <- <-]. now rewrite Hlen.
  - destruct (frames self) as [|first rest] eqn:Hf; [discriminate|].
    destruct (dedup_loop similarity score_lt threshold rest [first] 0)
      as [[d n]|e] eqn:Hloop; simpl; [|discriminate].
    intros [= <- <-].
    destruct (dedup_loop_keeps_run threshold rest [first] 0 eq_refl Hloop)
      as (kept & -> & Hrun).
    simpl.
    destruct (S (List.length kept) <? 2); [reflexivity|].
    rewrite (dedup_loop_on_run threshold kept [first] 0 eq_refl Hrun).
    reflexivity.
Qed.

End Dedup.

Lemma deduplicate_frames_idempotent_witness :
  deduplicate_frames GifExample.similarity GifExample.score_lt
    GifExample.flicker 0.9995%float = Ok (2, GifExample.flicker_deduplicated)
  /\ deduplicate_frames GifExample.similarity GifExample.score_lt
       GifExample.flicker_deduplicated 0.9995%float
     = Ok (0, GifExample.flicker_deduplicated).
Proof.
  split; [vm_compute; reflexivity|].
  apply (@deduplicate_frames_idempotent _ _ GifExample.similarity
           GifExample.score_lt GifExample.flicker
           GifExample.flicker_deduplicated 0.9995%float 2).
  vm_compute; reflexivity.
Defined.

End GifBuilderFacts.

Module GifSaveFacts.
Import Py GifBuilder.

Lemma range_fuel_step_1 fuel : forall start stop,
  stop - start <= fuel -> range_fuel fuel start stop 1 = seq start (stop - start).
Proof.
  induction fuel as [|fuel IH]; intros start stop Hf; simpl.
  - replace (stop - start) with 0 by lia. reflexivity.
  - destruct (start <? stop) eqn:E.
    + apply Nat.ltb_lt in E. rewrite IH by lia.
      replace (stop - start) with (S (stop - (start + 1))) by lia.
      simpl. f_equal. replace (start + 1) with (S start) by lia. reflexivity.
    + apply Nat.ltb_ge in E. replace (stop - start) with 0 by lia. reflexivity.
Qed.

Lemma getitems_seq {A} (l : list A) : forall pre,
  getitems (pre ++ l) (seq (List.length pre) (List.length l)) = Ok l.
Proof.
  induction l as [|a l IH]; intros pre; simpl; [reflexivity|].
  unfold getitem. rewrite nth_error_app2 by lia.
  rewrite Nat.sub_diag. simpl.
  specialize (IH (pre ++ [a])).
  rewrite <- app_assoc, length_app, Nat.add_comm in IH. simpl in IH.
  now rewrite IH.
Qed.

Lemma getitems_all {A} (l : list A) :
  getitems l (range 0 (List.length l) 1) = Ok l.
Proof.
  unfold range. rewrite range_fuel_step_1 by lia.
  rewrite Nat.sub_0_r. exact (getitems_seq l []).
Qed.

Lemma getitems_in_range {A} (l : list A) (idxs : list nat) :
  Forall (fun i => i < List.length l) idxs ->
  exists r, getitems l idxs = Ok r.
Proof.
  induction 1 as [|i idxs Hi _ [r IH]]; simpl.
  - now exists [].
  - unfold getitem. destruct (nth_error l i) as [a|] eqn:E.
    + simpl. rewrite IH. simpl. now exists (a :: r).
    + apply nth_error_None in E. lia.
Qed.

Lemma map_result_length {A B} (f : A -> result B) (l : list A) : forall r,
  map_result f l = Ok r -> List.length r = List.length l.
Proof.
  induction l as [|a l IH]; simpl; intros r H.
  - now injection H as <-.
  - destruct (f a); simpl in H; [|discriminate].
    destruct (map_result f l); simpl in H; [|discriminate].
    injection H as <-. simpl. f_equal. now apply IH.
Qed.

Lemma map_result_returns {A B} (f : A -> result B) (l : list A) :
  (forall a, In a l -> exists b, f a = Ok b) ->
  exists r, map_result f l = Ok r.
Proof.
  induction l as [|a l IH]; simpl; intros H.
  - now exists [].
  - destruct (H a (or_introl eq_refl)) as [b ->].
    destruct IH as [r ->]; [intros x Hx; apply H; now right|].
    simpl. now exists (b :: r).
Qed.

(** An exception of a comprehension is the exception of one of its
    elements. *)
Lemma map_result_raises {A B} (f : A -> result B) (l : list A) (e : exn) :
  map_result f l = Raise e -> exists a, In a l /\ f a = Raise e.
Proof.
  induction l as [|a l IH]; simpl; intros H; [discriminate|].
  destruct (f a) as [b|e'] eqn:Ea; simpl in H.
  - destruct (map_result f l) as [r|e'']; simpl in H; [discriminate|].
    injection H as ->. destruct IH as (x & Hx & Hfx); [reflexivity|].
    exists x. split; [now right|assumption].
  - injection H as ->. exists a. split; [now left|assumption].
Qed.

Section Save.
Variable Frame Score Palette : Type.
Variable similarity : Frame -> Frame -> result Score.
Variable score_lt : Score -> float -> bool.
Variable resize : Frame -> Z -> Z -> result Frame.
Variable build_palette : list Frame -> Z -> result Palette.
Variable apply_palette : Palette -> Frame -> result Frame.
Variable quantize : Z -> Frame -> result Frame.
Variable imwrite_size : string -> list Frame -> Q -> result Z.
Variable path_str : string -> string.
Variable fmt_f : nat -> Q -> string.

(** The sampled indices of lines 77-79 are indices of the frame list. *)
Lemma sample_frames_returns (self : GIFBuilder Frame) :
  1 < List.length (frames self) ->
  exists sample_frames,
    getitems (frames self)
      (map (fun i => i * List.length (frames self)
                     / Nat.min 5 (List.length (frames self)))
         (seq 0 (Nat.min 5 (List.length (frames self)))))
    = Ok sample_frames.
Proof.
  set (n := List.length (frames self)). intros Hn.
  apply getitems_in_range.
  apply Forall_forall. intros i Hi. apply in_map_iff in Hi.
  destruct Hi as (k & <- & Hk). apply in_seq in Hk. fold n.
  apply Nat.Div0.div_lt_upper_bound. nia.
Qed.

(** Quantization gives one frame for each frame of the builder. *)
Lemma optimize_colors_length (self : GIFBuilder Frame) (num_colors : Z)
    (use_global_palette : bool) (optimized : list Frame) :
  optimize_colors build_palette apply_palette quantize self num_colors
    use_global_palette = Ok optimized ->
  List.length optimized = List.length (frames self).
Proof.
  unfold optimize_colors.
  destruct (use_global_palette && (1 <? List.length (frames self))).
  - destruct (getitems _ _) as [sample|e]; cbn [bind]; [|discriminate].
    destruct (build_palette sample num_colors) as [pal|e]; cbn [bind];
      [|discriminate].
    apply map_result_length.
  - apply map_result_length.
Qed.

(** With the global palette and more than one frame, quantization
    returns when Pillow builds the palette and maps the frames. *)
Lemma optimize_colors_global_returns (self : GIFBuilder Frame)
    (num_colors : Z) :
  1 < List.length (frames self) ->
  (forall sample, exists pal, build_palette sample num_colors = Ok pal) ->
  (forall pal f, In f (frames self) -> exists q, apply_palette pal f = Ok q) ->
  exists optimized,
    optimize_colors build_palette apply_palette quantize self num_colors true
    = Ok optimized.
Proof.
  intros Hn Hpal Happly. unfold optimize_colors.
  pose proof Hn as E. apply Nat.ltb_lt in E. rewrite E. cbn [andb].
  destruct (sample_frames_returns self Hn) as [sample ->]. cbn [bind].
  destruct (Hpal sample) as [pal ->]. cbn [bind].
  apply map_result_returns. intros f Hf. now apply Happly.
Qed.

(** C7, as the code has it.  A builder of 200x200 frames holding 20 of
    them is saved with [optimize_for_emoji] and without duplicate
    removal.  Whenever the call returns, it reports 128x128 and at most
    48 colors, and it has kept all 20 frames: the stride
    [max(1, 20 // 12)] is 1.  The call returns when the frame rate is
    not 0 and Pillow's resizing and quantization and the write of the
    file succeed. *)
Theorem save_emoji_keeps_20_frames (self : GIFBuilder Frame)
    (output_path : string) (num_colors : Z) :
  width self = 200%Z -> height self = 200%Z ->
  List.length (frames self) = 20 ->
  let run :=
    save similarity score_lt resize build_palette apply_palette quantize
      imwrite_size path_str fmt_f self output_path num_colors true false in
  (forall i self' out,
     run = Ok (i, self', out) ->
     dimensions i = "128x128"
     /\ (colors i <= 48)%Z
     /\ frame_count i = 20
     /\ width self' = 128%Z /\ height self' = 128%Z
     /\ List.length (frames self') = 20)
  /\ (fps self <> 0%Z ->
      (forall f, In f (frames self) -> exists r, resize f 128 128 = Ok r) ->
      (forall sample,
         exists pal, build_palette sample (Z.min num_colors 48) = Ok pal) ->
      (forall pal f, exists q, apply_palette pal f = Ok q) ->
      (forall fs,
         exists z,
           imwrite_size (path_str output_path) fs (Qof 1000 / Qof (fps self))%Q
           = Ok z) ->
      exists i self' out, run = Ok (i, self', out)).
Proof.
  intros Hw Hh Hn run. subst run. unfold save.
  destruct (frames self) as [|f0 fs] eqn:Hfr; [discriminate|].
  rewrite <- Hfr in *. clear Hfr f0 fs. cbn [bind fst snd].
  rewrite Hw, Hh. cbn [Z.ltb Z.compare Pos.compare Pos.compare_cont orb].
  destruct (map_result (fun frame => resize frame 128 128) (frames self))
    as [resized|e] eqn:Hres.
  - pose proof (map_result_length _ _ Hres) as Hlen. rewrite Hn in Hlen.
    cbn [bind fst snd frames set_frames set_size width height fps].
    rewrite Hlen. change (12 <? 20) with true. cbv iota.
    change (Nat.max 1 (20 / 12)) with 1.
    pose proof (getitems_all resized) as Hall. rewrite Hlen in Hall.
    rewrite Hall.
    cbn [bind fst snd frames set_frames set_size width height fps].
    split.
    + intros i self' out.
      destruct (optimize_colors build_palette apply_palette quantize _ _ true)
        as [opt|e] eqn:Hopt; cbn [bind]; [|discriminate].
      apply optimize_colors_length in Hopt.
      cbn [frames set_frames set_size] in Hopt.
      destruct (fps self =? 0)%Z; [discriminate|].
      destruct (imwrite_size _ _ _) as [z|e]; cbn [bind]; [|discriminate].
      intros [= <- <- _].
      cbn [dimensions colors frame_count frames set_frames set_size width
           height].
      rewrite Hopt, Hlen.
      repeat split; try reflexivity. apply Z.le_min_r.
    + intros Hfps _ Hpal Happly Hwrite.
      match goal with
      | |- context [optimize_colors _ _ _ ?b ?c true] =>
          destruct (@optimize_colors_global_returns b c) as [opt ->]
      end.
      * cbn [frames set_frames]. rewrite Hlen. lia.
      * exact Hpal.
      * intros pal f _. apply Happly.
      * cbn [bind]. apply Z.eqb_neq in Hfps. rewrite Hfps.
        destruct (Hwrite opt) as [z ->].
        cbn [bind]. do 3 eexists. reflexivity.
  - cbn [bind]. split; [discriminate|].
    intros _ Hresize _ _ _.
    destruct (map_result_returns (fun frame => resize frame 128 128)
                (frames self) Hresize) as [resized Hr].
    congruence.
Qed.

End Save.

Lemma save_emoji_keeps_20_frames_witness :
  (forall i self' out,
     GifExample.save_example GifExample.canvas_200_20 128 true false
       = Ok (i, self', out) ->
     dimensions i = "128x128"
     /\ (colors i <= 48)%Z
     /\ frame_count i = 20
     /\ width self' = 128%Z /\ height self' = 128%Z
     /\ List.length (frames self') = 20)
  /\ exists i self' out,
       GifExample.save_example GifExample.canvas_200_20 128 true false
         = Ok (i, self', out).
Proof.
  destruct (@save_emoji_keeps_20_frames _ _ _ GifExample.similarity
              GifExample.score_lt GifExample.resize GifExample.build_palette
              GifExample.apply_palette GifExample.quantize
              GifExample.imwrite_size GifExample.path_str GifExample.fmt_f
              GifExample.canvas_200_20 "emoji.gif" 128%Z
              eq_refl eq_refl eq_refl) as [Hresult Hreturns].
  split; [exact Hresult|]. apply Hreturns.
  - discriminate.
  - intros f _. now exists f.
  - intros sample. now exists tt.
  - intros pal f. now exists f.
  - intros fs. eexists. reflexivity.
Defined.

(** C7, as stated, fails: saving the 200x200 builder with its 20
    frames for emoji use succeeds, and the frame count it reports is
    20, which is not 12 or fewer. *)
Lemma save_emoji_20_frames_not_capped :
  exists i self' out,
    GifExample.save_example GifExample.canvas_200_20 128 true false
      = Ok (i, self', out)
    /\ frame_count i = 20
    /\ ~ (frame_count i <= 12).
Proof.
  do 3 eexists. split; [vm_compute; reflexivity|].
  cbn [frame_count]. split; [reflexivity|lia].
Qed.

End GifSaveFacts.

(** ** The thumbnail grids *)

Module ThumbnailFacts.
Import Py Thumbnail ThumbnailSpec.

Lemma map_seq_from {A} (f : nat -> A) (len : nat) : forall s,
  map (fun k => f (s + k)) (seq 0 len) = map f (seq s len).
Proof.
  induction len as [|len IH]; intros s; simpl; [reflexivity|].
  rewrite Nat.add_0_r. f_equal.
  rewrite <- seq_shift, map_map, <- (IH (S s)).
  apply map_ext. intros k. f_equal. lia.
Qed.

Lemma slice_length {A} (l : list A) (start stop : nat) :
  stop <= List.length l -> List.length (slice l start stop) = stop - start.
Proof.
  intros H. unfold slice. rewrite length_firstn, length_skipn. lia.
Qed.

(** Two lists read in step give the same concatenation when they do
    piece by piece. *)
Lemma flat_map_in_step {A B C} (f : A -> list C) (g : B -> list C)
    (l : list A) (m : list B) :
  Forall2 (fun a b => g b = f a) l m -> flat_map g m = flat_map f l.
Proof.
  induction 1 as [|a b l m Hab _ IH]; simpl; [reflexivity|].
  now rewrite Hab, IH.
Qed.

(** The chunks [start, min(start + m, n)) of a [range] with step [m]
    make up the positions from [start] to [n]. *)
Lemma range_chunks_seq (m n : nat) : 0 < m -> forall fuel start,
  n - start <= fuel ->
  flat_map (fun s => seq s (Nat.min (s + m) n - s)) (range_fuel fuel start n m)
  = seq start (n - start).
Proof.
  intros Hm. induction fuel as [|fuel IH]; intros start Hf.
  - replace (n - start) with 0 by lia. reflexivity.
  - cbn [range_fuel]. destruct (start <? n) eqn:E.
    + apply Nat.ltb_lt in E. cbn [flat_map]. rewrite IH by lia.
      destruct (Nat.le_gt_cases (start + m) n) as [Hle|Hgt].
      * rewrite Nat.min_l by lia.
        replace (start + m - start) with m by lia.
        replace (n - start) with (m + (n - (start + m))) by lia.
        now rewrite seq_app.
      * rewrite Nat.min_r by lia.
        replace (n - (start + m)) with 0 by lia. apply app_nil_r.
    + apply Nat.ltb_ge in E. replace (n - start) with 0 by lia. reflexivity.
Qed.

Section Labels.
Variable R : Type.
Variable font_size_of : Z -> Z.
Variable label_padding_of : Z -> Z.
Variable height_of : string -> Z -> Z.
Variable text_width : Z -> string -> Z.
Variable thumbnail_size : string -> Z -> Z -> Z * Z.

Lemma place_thumbnails_labels cols width height font_size label_padding
    start_slide_num regions (image_paths : list string) : forall i,
  flat_map (@label_of R)
    (place_thumbnails text_width thumbnail_size image_paths i cols width height
       font_size label_padding start_slide_num regions)
  = map (fun k => str_of_Z (start_slide_num + (i + Z.of_nat k)))
      (seq 0 (List.length image_paths)).
Proof.
  induction image_paths as [|img_path rest IH]; intros i; [reflexivity|].
  cbn [place_thumbnails List.length seq map].
  destruct (thumbnail_size img_path width height) as [w h].
  cbn [app flat_map label_of]. rewrite flat_map_app, IH.
  cbn [BORDER_WIDTH Z.ltb Z.compare flat_map label_of app].
  rewrite Z.add_0_r. f_equal.
  rewrite <- seq_shift, map_map. apply map_ext. intros k.
  f_equal. lia.
Qed.

(** A grid that [create_grid] returns: the list has a first image,
    the column count is not zero, the canvas has the size computed
    from them, which Pillow accepts, and the loop has drawn on it. *)
Lemma create_grid_returned (chunk : list string) (cols width start : Z)
    regions (g : grid R) :
  create_grid font_size_of label_padding_of height_of text_width
    thumbnail_size chunk cols width start regions = Ok g ->
  exists first,
    hd_error chunk = Some first
    /\ cols <> 0%Z
    /\ grid_w g = (cols * width + (cols + 1) * GRID_PADDING)%Z
    /\ grid_h g
       = ((Z.of_nat (List.length chunk) + cols - 1) / cols
          * (height_of first width + font_size_of width
             + label_padding_of (font_size_of width) * 2)
          + ((Z.of_nat (List.length chunk) + cols - 1) / cols + 1)
            * GRID_PADDING)%Z
    /\ (0 <= grid_w g)%Z /\ (0 <= grid_h g)%Z
    /\ ops g
       = place_thumbnails text_width thumbnail_size chunk 0%Z cols width
           (height_of first width) (font_size_of width)
           (label_padding_of (font_size_of width)) start regions.
Proof.
  unfold create_grid. destruct chunk as [|first rest]; [discriminate|].
  cbn [getitem nth_error bind].
  destruct (cols =? 0)%Z eqn:Hcols; [discriminate|].
  apply Z.eqb_neq in Hcols.
  match goal with
  | |- (if ?c then _ else _) = _ -> _ => destruct c eqn:Hneg; [discriminate|]
  end.
  apply orb_false_elim in Hneg. destruct Hneg as [Hw Hh].
  apply Z.ltb_ge in Hw, Hh.
  intros [= <-]. exists first. cbn [grid_w grid_h ops hd_error].
  repeat split; assumption.
Qed.

Lemma create_grid_labels (chunk : list string) (cols width start : Z) regions
    (g : grid R) :
  create_grid font_size_of label_padding_of height_of text_width
    thumbnail_size chunk cols width start regions = Ok g ->
  labels g
  = map (fun k => str_of_Z (start + Z.of_nat k)) (seq 0 (List.length chunk)).
Proof.
  intros Hg. apply create_grid_returned in Hg.
  destruct Hg as (first & _ & _ & _ & _ & _ & _ & Hops).
  unfold labels. rewrite Hops.
  exact (place_thumbnails_labels cols width _ _ _ start regions chunk 0).
Qed.

(** What the loop of [create_grids] returns: one grid for each start
    index, made of the images from there to the next start, saved
    under the name of its chunk. *)
Lemma grids_loop_returned (image_paths : list string) (cols width : Z)
    (max_images_per_grid : nat) (output_path : out_path) regions :
  forall starts chunk_idx (grids : list (string * grid R)),
    grids_loop font_size_of label_padding_of height_of text_width
      thumbnail_size starts chunk_idx image_paths cols width
      max_images_per_grid output_path regions = Ok grids ->
    map fst grids
    = map (fun k => grid_file (List.length image_paths) max_images_per_grid
                      output_path (chunk_idx + k))
        (seq 0 (List.length starts))
    /\ Forall2 (fun s fg =>
                  create_grid font_size_of label_padding_of height_of
                    text_width thumbnail_size
                    (slice image_paths s
                       (Nat.min (s + max_images_per_grid)
                          (List.length image_paths)))
                    cols width (Z.of_nat s) regions = Ok (snd fg))
         starts grids.
Proof.
  induction starts as [|start starts IH]; intros chunk_idx grids;
    cbn [grids_loop].
  - intros [= <-]. split; [reflexivity|constructor].
  - destruct (create_grid _ _ _ _ _ _ _ _ _ _) as [g|e] eqn:Hg; cbn [bind];
      [|discriminate].
    destruct (grids_loop _ _ _ _ _ starts _ _ _ _ _ _ _) as [rest|e] eqn:Hrest;
      cbn [bind]; [|discriminate].
    intros [= <-]. destruct (IH _ _ Hrest) as [Hnames Hgrids].
    cbn [map fst snd List.length seq]. split.
    + f_equal.
      * unfold grid_file, numbered. rewrite Nat.add_0_r.
        destruct (List.length image_paths <=? max_images_per_grid);
          reflexivity.
      * rewrite Hnames, <- seq_shift, map_map. apply map_ext. intros k.
        f_equal. lia.
    + constructor; [exact Hg|exact Hgrids].
Qed.

(** What [create_grids] returns: the capacity of a grid is positive,
    and the loop has run over the start indices
    [range(0, len(image_paths), capacity)]. *)
Lemma create_grids_returned (image_paths : list string) (cols width : Z)
    (output_path : out_path) regions (grids : list (string * grid R)) :
  create_grids font_size_of label_padding_of height_of text_width
    thumbnail_size image_paths cols width output_path regions = Ok grids ->
  0 < Z.to_nat (cols * (cols + 1))
  /\ map fst grids
     = map (fun k => grid_file (List.length image_paths)
                       (Z.to_nat (cols * (cols + 1))) output_path k)
         (seq 0 (List.length
                   (range 0 (List.length image_paths)
                      (Z.to_nat (cols * (cols + 1))))))
  /\ Forall2 (fun s fg =>
                create_grid font_size_of label_padding_of height_of
                  text_width thumbnail_size
                  (slice image_paths s
                     (Nat.min (s + Z.to_nat (cols * (cols + 1)))
                        (List.length image_paths)))
                  cols width (Z.of_nat s) regions = Ok (snd fg))
       (range 0 (List.length image_paths) (Z.to_nat (cols * (cols + 1))))
       grids.
Proof.
  unfold create_grids.
  destruct (Z.to_nat (cols * (cols + 1)) =? 0) eqn:E; [discriminate|].
  apply Nat.eqb_neq in E. intros Hloop.
  apply grids_loop_returned in Hloop. destruct Hloop as [Hnames Hgrids].
  split; [lia|]. split; [exact Hnames|exact Hgrids].
Qed.

Lemma range_fuel_in_range fuel step : forall start stop,
  Forall (fun s => s < stop) (range_fuel fuel start stop step).
Proof.
  induction fuel as [|fuel IH]; intros start stop; cbn [range_fuel].
  - constructor.
  - destruct (start <? stop) eqn:E; constructor.
    + now apply Nat.ltb_lt.
    + apply IH.
Qed.

(** C9. The label drawn above a cell is the slide's position counted
    from 0.  Whenever [create_grids] returns, the labels it has drawn,
    read grid after grid, are the numerals 0, 1, ..., n-1 for a deck of
    n images.  So the first slide is labelled 0 and the slide that is
    N-th counting from 1 is labelled N-1. *)
Theorem create_grids_labels_from_zero (image_paths : list string)
    (cols width : Z) (output_path : out_path) regions
    (grids : list (string * grid R)) :
  create_grids font_size_of label_padding_of height_of text_width
    thumbnail_size image_paths cols width output_path regions = Ok grids ->
  flat_map (fun fg => labels (snd fg)) grids
  = map (fun n => str_of_Z (Z.of_nat n)) (seq 0 (List.length image_paths))
  /\ (image_paths <> [] ->
      nth_error (flat_map (fun fg => labels (snd fg)) grids) 0 = Some "0")
  /\ (forall N, 1 <= N <= List.length image_paths ->
      nth_error (flat_map (fun fg => labels (snd fg)) grids) (N - 1)
      = Some (str_of_Z (Z.of_nat N - 1))).
Proof.
  intros Hrun. apply create_grids_returned in Hrun.
  destruct Hrun as (Hmax & _ & Hgrids).
  set (m := Z.to_nat (cols * (cols + 1))) in *.
  set (n := List.length image_paths) in *.
  assert (Hlabels : flat_map (fun fg => labels (snd fg)) grids
                    = map (fun k => str_of_Z (Z.of_nat k)) (seq 0 n)).
  { rewrite (@flat_map_in_step _ _ _
               (fun s => map (fun k => str_of_Z (Z.of_nat k))
                           (seq s (Nat.min (s + m) n - s)))
               (fun fg => labels (snd fg)) (range 0 n m) grids).
    - rewrite <- (Nat.sub_0_r n) at 2.
      rewrite <- (@range_chunks_seq m n Hmax (n - 0) 0 (le_n _)).
      unfold range. generalize (range_fuel (n - 0) 0 n m). intros starts.
      induction starts as [|s starts IH]; cbn [flat_map];
        [reflexivity|now rewrite map_app, IH].
    - pose proof (range_fuel_in_range (n - 0) m 0 n) as Hin. fold (range 0 n m) in Hin.
      revert Hin.
      induction Hgrids as [|s fg starts gs Hs _ IH]; intros Hin;
        constructor.
      + inversion Hin as [|? ? Hlt _]; subst.
        apply create_grid_labels in Hs.
        rewrite Hs, slice_length by (fold n; lia).
        rewrite <- (map_seq_from (fun k => str_of_Z (Z.of_nat k))).
        apply map_ext. intros k. f_equal. lia.
      + apply IH. now inversion Hin. }
  split; [exact Hlabels|]. rewrite Hlabels. split.
  - intros Hne. unfold n. destruct image_paths; [contradiction|reflexivity].
  - intros N HN.
    rewrite nth_error_map.
    replace (nth_error (seq 0 n) (N - 1)) with (Some (N - 1)).
    + simpl. do 2 f_equal. lia.
    + symmetry. rewrite nth_error_seq.
      destruct (N - 1 <? n) eqn:E'.
      * reflexivity.
      * apply Nat.ltb_ge in E'. unfold n in E'. lia.
Qed.

(** With a column count above zero and sizes that are not negative,
    Pillow accepts the canvas; the images being read and measured by
    the parameters of the section, [create_grids] then returns. *)
Lemma create_grid_returns (chunk : list string) (cols width start : Z) regions :
  chunk <> [] -> (0 < cols)%Z -> (0 <= width)%Z ->
  (0 <= font_size_of width)%Z ->
  (0 <= label_padding_of (font_size_of width))%Z ->
  (forall p, 0 <= height_of p width)%Z ->
  exists g : grid R,
    create_grid font_size_of label_padding_of height_of text_width
      thumbnail_size chunk cols width start regions = Ok g.
Proof.
  intros Hne Hcols Hw Hfs Hlp Hh. unfold create_grid.
  destruct chunk as [|first rest]; [contradiction|].
  cbn [getitem nth_error bind].
  destruct (cols =? 0)%Z eqn:E; [apply Z.eqb_eq in E; lia|].
  pose proof (Hh first) as Hf.
  assert (Hrows : (0 <= (Z.of_nat (List.length (first :: rest)) + cols - 1)
                        / cols)%Z)
    by (apply Z.div_pos; lia).
  set (rows := ((Z.of_nat (List.length (first :: rest)) + cols - 1) / cols)%Z)
    in *.
  assert (Hgw : (cols * width + (cols + 1) * GRID_PADDING <? 0)%Z = false)
    by (apply Z.ltb_ge; unfold GRID_PADDING; nia).
  assert (Hgh : (rows * (height_of first width + font_size_of width
                         + label_padding_of (font_size_of width) * 2)
                 + (rows + 1) * GRID_PADDING <? 0)%Z = false)
    by (apply Z.ltb_ge; unfold GRID_PADDING; nia).
  rewrite Hgw, Hgh. cbn [orb]. eexists. reflexivity.
Qed.

Lemma create_grids_returns (image_paths : list string) (cols width : Z)
    (output_path : out_path) regions :
  (0 < cols)%Z -> (0 <= width)%Z ->
  (0 <= font_size_of width)%Z ->
  (0 <= label_padding_of (font_size_of width))%Z ->
  (forall p, 0 <= height_of p width)%Z ->
  exists grids : list (string * grid R),
    create_grids font_size_of label_padding_of height_of text_width
      thumbnail_size image_paths cols width output_path regions = Ok grids.
Proof.
  intros Hcols Hw Hfs Hlp Hh. unfold create_grids.
  set (m := Z.to_nat (cols * (cols + 1))).
  assert (Hm : 0 < m) by (unfold m; nia).
  destruct (m =? 0) eqn:E; [apply Nat.eqb_eq in E; lia|].
  set (n := List.length image_paths).
  pose proof (range_fuel_in_range (n - 0) m 0 n) as Hin.
  fold (range 0 n m) in Hin.
  remember (range 0 n m) as starts eqn:Hst. clear Hst.
  generalize 0 as chunk_idx.
  induction starts as [|s starts IH]; intros chunk_idx; cbn [grids_loop].
  - now exists [].
  - inversion Hin as [|? ? Hs Hrest]; subst.
    destruct (@create_grid_returns
                (slice image_paths s (Nat.min (s + m) (List.length image_paths)))
                cols width (Z.of_nat s) regions) as [g ->]; try assumption.
    + intros Hnil. apply (f_equal (@List.length string)) in Hnil.
      rewrite slice_length in Hnil by lia. simpl in Hnil. fold n in Hnil. lia.
    + cbn [bind]. destruct (IH Hrest (S chunk_idx)) as [gs ->].
      cbn [bind]. eexists. reflexivity.
Qed.

End Labels.

Lemma create_grids_labels_from_zero_witness :
  exists grids,
    ThumbnailExample.grids_example = Ok grids
    /\ map fst grids = ["thumbnails-1.jpg"; "thumbnails-2.jpg"]
    /\ flat_map (fun fg => labels (snd fg)) grids = ["0"; "1"; "2"].
Proof.
  destruct ThumbnailExample.grids_example as [grids|e] eqn:E;
    [|vm_compute in E; discriminate].
  destruct (@create_grids_labels_from_zero unit ThumbnailExample.font_size_of
              ThumbnailExample.label_padding_of ThumbnailExample.height_of
              ThumbnailExample.text_width ThumbnailExample.thumbnail_size
              ThumbnailExample.three_slides 1%Z 300%Z
              ThumbnailExample.thumbnails None grids E)
    as (Hlabels & _).
  exists grids. split; [reflexivity|]. split; [|exact Hlabels].
  vm_compute in E. injection E as <-. reflexivity.
Defined.

End ThumbnailFacts.

(** ** The GIF validator *)

Module ValidatorsFacts.
Import Py Validators ValidatorsSpec.






Section Facts.
Variable path_str : string -> string.
Variable path_name : string -> string.
Variable fmt_f : nat -> Q -> string.


End Facts.



End ValidatorsFacts.

(** ** Dictionaries *)

Module PyDictFacts.
Import PyDict.

Lemma mem_In {V} (k : string) (d : dict V) : mem k d = true <-> In k (keys d).
Proof.
  unfold mem, keys. induction d as [|[k' v] d IH]; simpl.
  - split; [discriminate|contradiction].
  - destruct (String.eqb k k') eqn:E.
    + apply String.eqb_eq in E. subst. split; auto.
    + apply String.eqb_neq in E. rewrite IH. split; [auto|].
      intros [H|H]; [congruence|assumption].
Qed.

Lemma keys_update {V} (k : string) (f : V -> V) (d : dict V) :
  keys (update k f d) = keys d.
Proof.
  unfold keys. induction d as [|[k' v] d IH]; simpl; [reflexivity|].
  destruct (String.eqb k k'); simpl; [reflexivity|now rewrite IH].
Qed.

Lemma keys_set {V} (k : string) (v : V) (d : dict V) :
  forall k', In k' (keys d) -> In k' (keys (set k v d)).
Proof.
  unfold keys. induction d as [|[k0 v0] d IH]; simpl; [contradiction|].
  intros k' [H|H]; destruct (String.eqb k k0) eqn:E; simpl; auto.
  apply String.eqb_eq in E. subst. now left.
Qed.

Lemma keys_set_same {V} (k : string) (v : V) (d : dict V) :
  In k (keys (set k v d)).
Proof.
  unfold keys. induction d as [|[k0 v0] d IH]; simpl; [now left|].
  destruct (String.eqb k k0) eqn:E; simpl; auto.
Qed.

Lemma In_keys {V} (k : string) (d : dict V) :
  In k (keys d) -> exists v, In (k, v) d.
Proof.
  unfold keys. intros H. apply in_map_iff in H.
  destruct H as ([k' v] & Hk & Hin). simpl in Hk. subst. now exists v.
Qed.

Lemma Forall_update {V} (P : string * V -> Prop) (k : string) (f : V -> V)
    (d : dict V) :
  (forall v, P (k, v) -> P (k, f v)) ->
  Forall P d -> Forall P (update k f d).
Proof.
  intros Hf. induction 1 as [|[k' v] d Hx Hd IH]; simpl; [constructor|].
  destruct (String.eqb k k') eqn:E; constructor; auto.
  apply String.eqb_eq in E. subst. auto.
Qed.

Lemma Forall_set {V} (P : string * V -> Prop) (k : string) (v : V)
    (d : dict V) :
  P (k, v) -> Forall P d -> Forall P (set k v d).
Proof.
  intros Hv. induction 1 as [|[k' v'] d Hx Hd IH]; simpl.
  - now constructor.
  - destruct (String.eqb k k'); constructor; auto.
Qed.

Lemma update_set_fresh {V} (k : string) (f : V -> V) (v : V) (d : dict V) :
  mem k d = false -> update k f (set k v d) = set k (f v) d.
Proof.
  unfold mem. induction d as [|[k' v'] d IH]; simpl.
  - now rewrite String.eqb_refl.
  - destruct (String.eqb k k') eqn:E; [discriminate|].
    intros H. simpl. rewrite E. now rewrite IH.
Qed.

Lemma get_set_same {V} (k : string) (v : V) (d : dict V) :
  get k (set k v d) = Some v.
Proof.
  induction d as [|[k' v'] d IH]; simpl.
  - now rewrite String.eqb_refl.
  - destruct (String.eqb k k') eqn:E; simpl.
    + now rewrite String.eqb_refl.
    + now rewrite E.
Qed.

Lemma get_set_other {V} (k k' : string) (v : V) (d : dict V) :
  k' <> k -> get k' (set k v d) = get k' d.
Proof.
  intros Hne. apply String.eqb_neq in Hne.
  induction d as [|[k0 v0] d IH]; simpl.
  - now rewrite Hne.
  - destruct (String.eqb k k0) eqn:E; simpl.
    + apply String.eqb_eq in E. subst k0. now rewrite Hne.
    + destruct (String.eqb k' k0); auto.
Qed.

Lemma get_update_same {V} (k : string) (f : V -> V) (d : dict V) :
  get k (update k f d) = option_map f (get k d).
Proof.
  induction d as [|[k' v] d IH]; simpl; [reflexivity|].
  destruct (String.eqb k k') eqn:E; simpl; rewrite E; auto.
Qed.

Lemma get_update_other {V} (k k' : string) (f : V -> V) (d : dict V) :
  k' <> k -> get k' (update k f d) = get k' d.
Proof.
  intros Hne. apply String.eqb_neq in Hne.
  induction d as [|[k0 v] d IH]; simpl; [reflexivity|].
  destruct (String.eqb k k0) eqn:E; simpl.
  - apply String.eqb_eq in E. subst k0. now rewrite Hne.
  - destruct (String.eqb k' k0); auto.
Qed.

Lemma get_None {V} (k : string) (d : dict V) :
  get k d = None <-> ~ In k (keys d).
Proof.
  rewrite <- mem_In. unfold mem. destruct (get k d); split; congruence.
Qed.

(** In a dictionary, whose keys are distinct, looking a key up finds
    the one entry that has it. *)
Lemma get_In {V} (k : string) (v : V) (d : dict V) :
  NoDup (keys d) -> (get k d = Some v <-> In (k, v) d).
Proof.
  unfold keys. induction d as [|[k' v'] d IH]; simpl; intros Hnd.
  - split; [discriminate|contradiction].
  - inversion Hnd as [|? ? Hnotin Hnd']; subst.
    destruct (String.eqb k k') eqn:E.
    + apply String.eqb_eq in E. subst k'. split.
      * intros [= ->]. now left.
      * intros [[= ->]|Hin]; [reflexivity|].
        exfalso. apply Hnotin. apply in_map_iff. now exists (k, v).
    + apply String.eqb_neq in E. rewrite (IH Hnd'). split; [auto|].
      intros [[= -> ->]|Hin]; [congruence|assumption].
Qed.

Lemma keys_set_cases {V} (k : string) (v : V) (d : dict V) :
  keys (set k v d) = if mem k d then keys d else keys d ++ [k].
Proof.
  unfold mem, keys. induction d as [|[k' v'] d IH]; simpl; [reflexivity|].
  destruct (String.eqb k k') eqn:E; simpl.
  - apply String.eqb_eq in E. now subst.
  - rewrite IH. now destruct (get k d).
Qed.

Lemma NoDup_keys_set {V} (k : string) (v : V) (d : dict V) :
  NoDup (keys d) -> NoDup (keys (set k v d)).
Proof.
  intros Hnd. rewrite keys_set_cases. destruct (mem k d) eqn:E; [assumption|].
  apply NoDup_app; [assumption|repeat constructor; intros []|].
  intros x Hx [<-|[]]. apply mem_In in Hx. congruence.
Qed.

End PyDictFacts.

(** ** The PDF form-field extractor *)

Module CheckboxFacts.
Import Py ExtractFormFieldInfo.

Lemma strings_eqb_eq (l : list string) : forall m,
  strings_eqb l m = true <-> l = m.
Proof.
  induction l as [|x l IH]; intros [|y m]; simpl;
    try (split; [discriminate|congruence]).
  - split; reflexivity.
  - rewrite andb_true_iff, String.eqb_eq, IH.
    split; [intros [-> ->]; reflexivity|intros [= -> ->]; now split].
Qed.

Lemma state_eqb_eq (a b : state) : state_eqb a b = true <-> a = b.
Proof.
  destruct a, b; simpl; try (split; [discriminate|congruence]).
  - rewrite String.eqb_eq. split; congruence.
  - rewrite strings_eqb_eq. split; congruence.
Qed.

Lemma state_eqb_neq (a b : state) : state_eqb a b = false <-> a <> b.
Proof.
  rewrite <- state_eqb_eq. destruct (state_eqb a b); split; congruence.
Qed.

(** C3, as the code has it.  For a button field with exactly two
    states of which one is [/Off], the checked value is the other
    state and the unchecked value is [/Off], and nothing is printed.
    With two states neither of which is [/Off], the first is taken as
    checked and the second as unchecked, and the warning is printed.
    With a state list of any other length the descriptor gets neither
    value and nothing is printed. *)
Theorem checkbox_values (field : Field) (id : string) :
  FT field = Some "/Btn" ->
  (forall b, States field = [Off; b] ->
     exists d, make_field_dict field id = Ok (d, [])
               /\ checked_value d = Some b /\ unchecked_value d = Some Off)
  /\ (forall a, States field = [a; Off] -> a <> Off ->
     exists d, make_field_dict field id = Ok (d, [])
               /\ checked_value d = Some a /\ unchecked_value d = Some Off)
  /\ (forall a b, States field = [a; b] -> a <> Off -> b <> Off ->
     exists d, make_field_dict field id = Ok (d, [checkbox_warning id])
               /\ checked_value d = Some a /\ unchecked_value d = Some b)
  /\ (List.length (States field) <> 2 ->
     exists d, make_field_dict field id = Ok (d, [])
               /\ checked_value d = None /\ unchecked_value d = None).
Proof.
  intros Hft. unfold make_field_dict. rewrite Hft. cbn [ft_is].
  change (String.eqb "/Btn" "/Tx") with false.
  change (String.eqb "/Btn" "/Btn") with true. cbv iota.
  repeat split.
  - intros b ->. cbn. eexists. split; [reflexivity|]. split; reflexivity.
  - intros a -> Ha. apply state_eqb_neq in Ha.
    cbn [List.length Nat.eqb getitem nth_error bind existsb].
    replace (state_eqb Off a) with false
      by (symmetry; apply state_eqb_neq; apply state_eqb_neq in Ha; congruence).
    rewrite Ha. cbn. eexists. split; [reflexivity|]. split; reflexivity.
  - intros a b -> Ha Hb.
    cbn [List.length Nat.eqb getitem nth_error bind existsb].
    replace (state_eqb Off a) with false
      by (symmetry; apply state_eqb_neq; congruence).
    replace (state_eqb Off b) with false
      by (symmetry; apply state_eqb_neq; congruence).
    cbn. eexists. split; [reflexivity|]. split; reflexivity.
  - intros Hlen. apply Nat.eqb_neq in Hlen. rewrite Hlen.
    eexists. split; [reflexivity|]. split; reflexivity.
Qed.

Lemma checkbox_values_witness :
  (exists d, make_field_dict PdfExample.yes_off "agree" = Ok (d, [])
             /\ checked_value d = Some (SName "/Yes")
             /\ unchecked_value d = Some Off)
  /\ (exists d, make_field_dict PdfExample.off_one "agree" = Ok (d, [])
             /\ checked_value d = Some (SName "/1")
             /\ unchecked_value d = Some Off)
  /\ (exists d, make_field_dict PdfExample.on_yes "agree"
               = Ok (d, [checkbox_warning "agree"])
             /\ checked_value d = Some (SName "/On")
             /\ unchecked_value d = Some (SName "/Yes")).
Proof.
  split; [|split].
  - destruct (@checkbox_values PdfExample.yes_off "agree" eq_refl)
      as (_ & H & _).
    apply (H (SName "/Yes")); [reflexivity|discriminate].
  - destruct (@checkbox_values PdfExample.off_one "agree" eq_refl)
      as (H & _).
    apply (H (SName "/1")). reflexivity.
  - destruct (@checkbox_values PdfExample.on_yes "agree" eq_refl)
      as (_ & _ & H & _).
    apply (H (SName "/On") (SName "/Yes")); [reflexivity|discriminate|discriminate].
Defined.

(** C3, as stated, fails on a state list whose length is not 2: with
    three states and no [/Off] among them, the first state is not
    taken as the checked value, the second is not taken as the
    unchecked value, and no warning is printed. *)
Lemma three_states_are_not_guessed :
  ~ In Off (States PdfExample.three_states)
  /\ ~ (exists d out,
         make_field_dict PdfExample.three_states "agree" = Ok (d, out)
         /\ checked_value d = Some (SName "/A")
         /\ unchecked_value d = Some (SName "/B")
         /\ In (checkbox_warning "agree") out).
Proof.
  split.
  - simpl. intros [H|[H|[H|[]]]]; discriminate.
  - intros (d & out & H & Hc & _). vm_compute in H.
    injection H as <- <-. discriminate.
Qed.

End CheckboxFacts.

Module LocationFacts.
Import Py ExtractFormFieldInfo PyDict PyDictFacts LocationSpec.

Lemma bind_Ok {A B} (m : result A) (k : A -> result B) (b : B) :
  bind m k = Ok b -> exists a, m = Ok a /\ k a = Ok b.
Proof. destruct m as [a|e]; simpl; [eauto|discriminate]. Qed.

(** Inversion of a successful run of nested binds and conditionals. *)
Ltac invert_run H :=
  repeat match type of H with
         | bind ?m _ = Ok _ =>
             let a := fresh "a" in
             let Ha := fresh "Ha" in
             apply bind_Ok in H; destruct H as (a & Ha & H)
         | (if ?c then _ else _) = Ok _ =>
             let E := fresh "E" in destruct c eqn:E
         | Raise _ = Ok _ => discriminate H
         end.

Lemma make_field_dict_fresh (field : Field) (id : string) d out :
  make_field_dict field id = Ok (d, out) ->
  field_id d = id /\ page d = None /\ rect d = None /\ radio_options d = None.
Proof.
  unfold make_field_dict. intros H. invert_run H;
    injection H as <- <-; repeat split; reflexivity.
Qed.

Section Scan.
Variable seen : string -> option Rect -> Prop.

Lemma fresh_field_ok e : fresh_ok e -> field_ok seen e.
Proof. intros (H1 & H2 & H3). repeat split; auto. Qed.

Lemma collect_fields_ok (fields : list (string * Field)) :
  forall fi names out fi' names' out',
    collect_fields fields fi names out = Ok (fi', names', out') ->
    Forall fresh_ok fi ->
    Forall fresh_ok fi'
    /\ (forall id, In id (keys fi) -> In id (keys fi'))
    /\ (forall id field, In (id, field) fields -> Kids field = false ->
        In id (keys fi')).
Proof.
  induction fields as [|[id field] rest IH]; intros fi names out fi' names' out';
    cbn [collect_fields]; intros H Hfi.
  - injection H as <- <- <-. repeat split; auto. intros ? ? [].
  - destruct (Kids field) eqn:Hk.
    + destruct (IH _ _ _ _ _ _ H Hfi) as (H1 & H2 & H3).
      repeat split; auto.
      intros id' field' [Heq|Hin] Hkids; [|eauto].
      injection Heq as <- <-. congruence.
    + apply bind_Ok in H. destruct H as ([d o] & Hd & H). cbn [fst snd] in H.
      apply make_field_dict_fresh in Hd. destruct Hd as (Hid & Hp & _ & Hr).
      destruct (IH _ _ _ _ _ _ H) as (H1 & H2 & H3).
      { apply Forall_set; [|assumption]. repeat split; assumption. }
      repeat split; auto.
      * intros id' Hin. apply H2. now apply keys_set.
      * intros id' field' [Heq|Hin] Hkids; [|eauto].
        injection Heq as <- <-. apply H2. apply keys_set_same.
Qed.

Lemma scan_annotation_ok names page_index ann st :
  (forall id, get_full_annotation_field_id ann = Some id ->
              seen id (ann_Rect ann)) ->
  Forall (field_ok seen) (fst st) -> Forall (radio_ok seen) (snd st) ->
  Forall (field_ok seen) (fst (scan_annotation names page_index ann st))
  /\ Forall (radio_ok seen) (snd (scan_annotation names page_index ann st))
  /\ keys (fst (scan_annotation names page_index ann st)) = keys (fst st).
Proof.
  destruct st as [fi radio]. cbn [fst snd]. intros Hseen Hfi Hradio.
  unfold scan_annotation.
  destruct (get_full_annotation_field_id ann) as [id|]; [|auto].
  specialize (Hseen id eq_refl).
  destruct (mem id fi).
  - cbn [fst snd]. split; [|split; [assumption|apply keys_update]].
    apply Forall_update; [|assumption].
    intros v (H1 & H2 & _). repeat split; auto.
    right. split; [discriminate|]. exists (ann_Rect ann). auto.
  - destruct (name_in id names); [|auto].
    destruct (ann_AP_N ann) as [values|]; [|auto].
    destruct (filter _ values) as [|on_value [|]]; auto.
    cbn [fst snd]. split; [assumption|]. split; [|reflexivity].
    destruct (mem id radio) eqn:Hmem.
    + apply Forall_update; [|assumption].
      intros v (H1 & H2 & (o & os & H3 & Hrects) & H4).
      cbn [fst snd] in *. repeat split; auto. cbn. rewrite H3.
      exists o, (os ++ [ {| opt_value := on_value; opt_rect := ann_Rect ann |} ]).
      split; [reflexivity|].
      change (Forall (fun option => seen id (opt_rect option))
                ((o :: os)
                 ++ [ {| opt_value := on_value; opt_rect := ann_Rect ann |} ])).
      apply Forall_app. split; [assumption|].
      constructor; [assumption|constructor].
    + rewrite update_set_fresh by assumption.
      apply Forall_set; [|assumption].
      repeat split; cbn; [discriminate| |eauto].
      eexists. exists []. split; [reflexivity|].
      constructor; [assumption|constructor].
Qed.

Lemma scan_page_ok names page_index annotations : forall st,
  (forall ann id, In ann annotations ->
     get_full_annotation_field_id ann = Some id -> seen id (ann_Rect ann)) ->
  Forall (field_ok seen) (fst st) -> Forall (radio_ok seen) (snd st) ->
  Forall (field_ok seen) (fst (scan_page names page_index annotations st))
  /\ Forall (radio_ok seen) (snd (scan_page names page_index annotations st))
  /\ keys (fst (scan_page names page_index annotations st)) = keys (fst st).
Proof.
  unfold scan_page.
  induction annotations as [|ann rest IH]; intros st Hseen Hfi Hradio;
    cbn [fold_left]; [auto|].
  destruct (@scan_annotation_ok names page_index ann st) as (H1 & H2 & H3);
    auto.
  { intros id. apply Hseen. now left. }
  destruct (IH (scan_annotation names page_index ann st)) as (H4 & H5 & H6);
    auto.
  { intros a id Hin. apply Hseen. now right. }
  repeat split; auto. etransitivity; eassumption.
Qed.

Lemma scan_pages_ok names pgs : forall page_index st,
  (forall annotations ann id, In annotations pgs -> In ann annotations ->
     get_full_annotation_field_id ann = Some id -> seen id (ann_Rect ann)) ->
  Forall (field_ok seen) (fst st) -> Forall (radio_ok seen) (snd st) ->
  Forall (field_ok seen) (fst (scan_pages names page_index pgs st))
  /\ Forall (radio_ok seen) (snd (scan_pages names page_index pgs st))
  /\ keys (fst (scan_pages names page_index pgs st)) = keys (fst st).
Proof.
  induction pgs as [|annotations rest IH]; intros page_index st Hseen Hfi Hradio;
    cbn [scan_pages]; [auto|].
  destruct (@scan_page_ok names page_index annotations st) as (H1 & H2 & H3);
    auto.
  { intros ann id. apply Hseen. now left. }
  destruct (IH (S page_index) (scan_page names page_index annotations st))
    as (H4 & H5 & H6); auto.
  { intros a ann id Hin. apply Hseen. now right. }
  repeat split; auto. etransitivity; eassumption.
Qed.

End Scan.

Lemma scan_ok (reader : PdfReader) fi radio out :
  scan reader = Ok (fi, radio, out) ->
  Forall (field_ok (annotated reader)) fi
  /\ Forall (radio_ok (annotated reader)) radio
  /\ (forall fields id field,
        get_fields reader = Some fields -> In (id, field) fields ->
        Kids field = false -> In id (keys fi)).
Proof.
  unfold scan. destruct (get_fields reader) as [fields|]; [|discriminate].
  intros H. apply bind_Ok in H. destruct H as ([[fi0 names] out0] & Hc & H).
  destruct (scan_pages names 0 (pages reader) (fi0, [])) as [fi1 radio1] eqn:Hs.
  injection H as <- <- <-.
  destruct (@collect_fields_ok fields [] [] [] _ _ _ Hc (Forall_nil _))
    as (H1 & _ & H3).
  destruct (@scan_pages_ok (annotated reader) names (pages reader) 0 (fi0, []))
    as (H4 & H5 & H6).
  - intros annotations ann id Hp Ha Hid. exists annotations, ann. auto.
  - cbn [fst]. eapply Forall_impl; [apply fresh_field_ok|exact H1].
  - constructor.
  - rewrite Hs in *. cbn [fst snd] in *. repeat split; auto.
    intros fields' id field [= <-] Hin Hk. rewrite H6. eauto.
Qed.

Lemma with_location_In (infos : list field_dict) (d : field_dict) :
  In d (fst (with_location infos)) <-> In d infos /\ page d <> None.
Proof.
  induction infos as [|x rest IH]; cbn [with_location].
  - simpl. tauto.
  - destruct (with_location rest) as [kept out] eqn:E. cbn [fst] in IH.
    destruct (page x) eqn:Hp; cbn [fst In]; rewrite ?IH.
    + split.
      * intros [<-|[H1 H2]]; [split; [now left|congruence]|auto].
      * intros [[<-|H1] H2]; auto.
    + split.
      * intros [H1 H2]; auto.
      * intros [[<-|H1] H2]; [congruence|auto].
Qed.

Lemma with_location_message (infos : list field_dict) (d : field_dict) :
  In d infos -> page d = None ->
  In (no_location_message d) (snd (with_location infos)).
Proof.
  induction infos as [|x rest IH]; cbn [with_location]; [contradiction|].
  destruct (with_location rest) as [kept out] eqn:E. cbn [snd] in IH.
  intros [<-|Hin] Hp.
  - rewrite Hp. now left.
  - destruct (page x); cbn [snd]; [auto|right; auto].
Qed.

Lemma keyed_spec (l : list field_dict) : forall ks,
  keyed l = Ok ks ->
  map snd ks = l /\ Forall (fun kf => sort_key (snd kf) = Ok (fst kf)) ks.
Proof.
  induction l as [|f l IH]; cbn [keyed]; intros ks H.
  - injection H as <-. auto.
  - invert_run H. injection H as <-. destruct (IH _ Ha0) as [H1 H2].
    cbn [map snd]. split; [congruence|]. constructor; assumption.
Qed.

Lemma insert_by_key_perm x l : forall r,
  insert_by_key x l = Ok r -> Permutation r (x :: l).
Proof.
  induction l as [|y l IH]; cbn [insert_by_key]; intros r H.
  - injection H as <-. reflexivity.
  - invert_run H.
    + invert_run H. injection H as <-.
      rewrite (IH _ Ha0). apply perm_swap.
    + injection H as <-. reflexivity.
Qed.

Lemma sort_keyed_perm l : forall r, sort_keyed l = Ok r -> Permutation r l.
Proof.
  induction l as [|x l IH]; cbn [sort_keyed]; intros r H.
  - injection H as <-. reflexivity.
  - invert_run H. rewrite (insert_by_key_perm _ _ H). constructor. auto.
Qed.

Lemma sort_fields_perm l out : sort_fields l = Ok out -> Permutation out l.
Proof.
  unfold sort_fields. intros H. invert_run H. injection H as <-.
  destruct (keyed_spec _ Ha) as [<- _].
  apply Permutation_map. now apply sort_keyed_perm.
Qed.

(** The stages of a successful [get_field_info], and the page number
    every descriptor that reaches the sort has. *)
Lemma get_field_info_stages (reader : PdfReader) out printed :
  get_field_info reader = Ok (out, printed) ->
  exists fi radio out0,
    scan reader = Ok (fi, radio, out0)
    /\ sort_fields (fst (with_location (values fi)) ++ values radio) = Ok out
    /\ printed = out0 ++ snd (with_location (values fi))
    /\ Forall (fun d => page d <> None)
         (fst (with_location (values fi)) ++ values radio).
Proof.
  unfold get_field_info. intros H.
  apply bind_Ok in H. destruct H as ([[fi radio] out0] & Hscan & H).
  destruct (with_location (values fi)) as [located out1] eqn:Hloc.
  apply bind_Ok in H. destruct H as (sorted_fields & Hsort & H).
  injection H as <- <-.
  exists fi, radio, out0. rewrite Hloc. cbn [fst snd].
  split; [assumption|]. split; [assumption|]. split; [reflexivity|].
  destruct (scan_ok _ Hscan) as (_ & Hradio & _).
  apply Forall_app. split.
  - apply Forall_forall. intros d Hd.
    replace located with (fst (with_location (values fi))) in Hd
      by now rewrite Hloc.
    now apply with_location_In in Hd.
  - apply Forall_forall. intros d Hd. unfold values in Hd.
    apply in_map_iff in Hd. destruct Hd as ([k d'] & <- & Hin).
    rewrite Forall_forall in Hradio. now destruct (Hradio _ Hin) as (_ & Hp & _).
Qed.

(** C4, as the code has it.  Every descriptor in the returned list has
    a page number; an ordinary field has the ["rect"] key, holding the
    [/Rect] of one of its annotations, which is null when that
    annotation has none, and a radio group has at least one option,
    each option with a ["rect"] that holds, in the same way, the
    [/Rect] of an annotation of the group.
    Every field without children for which no annotation of any page
    has its full identifier is reported by a printed line and is not in
    the list. *)
Theorem located_fields_only (reader : PdfReader) out printed :
  get_field_info reader = Ok (out, printed) ->
  Forall (has_location_keys reader) out
  /\ forall fields id field,
       get_fields reader = Some fields -> In (id, field) fields ->
       Kids field = false ->
       (forall annotations ann,
          In annotations (pages reader) -> In ann annotations ->
          get_full_annotation_field_id ann <> Some id) ->
       In ("无法确定字段 id 的位置: " +++ id +++ "，忽略") printed
       /\ ~ In id (map field_id out).
Proof.
  unfold get_field_info. intros H.
  apply bind_Ok in H. destruct H as ([[fi radio] out0] & Hscan & H).
  destruct (with_location (values fi)) as [located out1] eqn:Hloc.
  apply bind_Ok in H. destruct H as (sorted_fields & Hsort & H).
  injection H as <- <-.
  destruct (scan_ok _ Hscan) as (Hfi & Hradio & Hkeys).
  pose proof (sort_fields_perm _ Hsort) as Hperm.
  assert (Hlocated : forall d, In d located ->
            exists k, In (k, d) fi /\ page d <> None).
  { intros d Hd. replace located with (fst (with_location (values fi))) in Hd
      by now rewrite Hloc.
    apply with_location_In in Hd. destruct Hd as [Hd Hp].
    unfold values in Hd. apply in_map_iff in Hd.
    destruct Hd as ([k d'] & <- & Hin). eauto. }
  rewrite Forall_forall in Hfi, Hradio.
  split.
  - apply Forall_forall. intros d Hd.
    apply (Permutation_in _ Hperm) in Hd. apply in_app_or in Hd.
    destruct Hd as [Hd|Hd].
    + destruct (Hlocated d Hd) as (k & Hin & Hp).
      destruct (Hfi _ Hin) as (Hid & Hr & [Hnone|(_ & r & Hrect & Hseen)]);
        cbn [fst snd] in *; [contradiction|].
      split; [assumption|]. rewrite Hr. exists r. rewrite Hid. auto.
    + unfold values in Hd. apply in_map_iff in Hd.
      destruct Hd as ([k d'] & <- & Hin).
      destruct (Hradio _ Hin) as (Hid & Hp & (o & os & Hr & Hrects) & _);
        cbn [fst snd] in *.
      split; [assumption|]. rewrite Hr, Hid.
      split; [discriminate|assumption].
  - intros fields id field Hf Hin Hk Hnone.
    assert (Hunseen : forall r, ~ annotated reader id r).
    { intros r (annotations & ann & H1 & H2 & H3 & _). eapply Hnone; eauto. }
    destruct (In_keys _ _ (Hkeys _ _ _ Hf Hin Hk)) as (d & Hd).
    destruct (Hfi _ Hd) as (Hid & Hr & Hpage); cbn [fst snd] in *.
    assert (Hp : page d = None).
    { destruct Hpage as [Hp|(_ & r & _ & Hs)]; [assumption|].
      now apply Hunseen in Hs. }
    split.
    + apply in_or_app. right.
      replace out1 with (snd (with_location (values fi))) by now rewrite Hloc.
      rewrite <- Hid. apply with_location_message; [|assumption].
      unfold values. apply in_map_iff. exists (id, d). auto.
    + intros Hout. apply in_map_iff in Hout. destruct Hout as (d' & Hid' & Hd').
      apply (Permutation_in _ Hperm) in Hd'. apply in_app_or in Hd'.
      destruct Hd' as [Hd'|Hd'].
      * destruct (Hlocated d' Hd') as (k & Hin' & Hp').
        destruct (Hfi _ Hin') as (Hk' & _ & [Hn|(_ & r & _ & Hs)]);
          cbn [fst snd] in *; [contradiction|].
        rewrite <- Hk', Hid' in Hs. now apply Hunseen in Hs.
      * unfold values in Hd'. apply in_map_iff in Hd'.
        destruct Hd' as ([k d''] & <- & Hin').
        destruct (Hradio _ Hin') as (Hk' & _ & _ & r & Hs);
          cbn [fst snd] in *.
        rewrite <- Hk', Hid' in Hs. now apply Hunseen in Hs.
Qed.

Lemma located_fields_only_witness :
  exists out printed,
    get_field_info PdfExample.mixed_reader = Ok (out, printed)
    /\ map field_id out = ["name"; "colour"]
    /\ map radio_options out
       = [ None;
           Some [ {| opt_value := "/red";
                     opt_rect := Some (72, 600, 90, 618)%Q |};
                  {| opt_value := "/blue";
                     opt_rect := Some (172, 600, 190, 618)%Q |} ] ]
    /\ Forall (has_location_keys PdfExample.mixed_reader) out
    /\ In ("无法确定字段 id 的位置: " +++ "ghost" +++ "，忽略") printed
    /\ ~ In "ghost" (map field_id out).
Proof.
  destruct (get_field_info PdfExample.mixed_reader) as [[out printed]|e] eqn:E;
    [|vm_compute in E; discriminate].
  exists out, printed. split; [reflexivity|].
  destruct (located_fields_only _ E) as [H1 H2].
  split; [vm_compute in E; injection E as <- _; reflexivity|].
  split; [vm_compute in E; injection E as <- _; reflexivity|].
  split; [exact H1|].
  apply (H2 _ "ghost" PdfExample.text_field eq_refl).
  - simpl. auto.
  - reflexivity.
  - simpl. intros annotations ann [<-|[<-|[]]] Hann; simpl in Hann;
      repeat (destruct Hann as [<-|Hann]; [vm_compute; discriminate|]);
      contradiction.
Defined.

(** C4, as stated, fails on a widget that has no [/Rect]: its field is
    emitted, with a page number and a null rectangle. *)
Lemma widget_without_rect_is_emitted :
  exists d,
    get_field_info PdfExample.no_rect_reader = Ok ([d], [])
    /\ field_id d = "name" /\ page d = Some 1 /\ rect d = Some None
    /\ ~ (exists r : Rect, rect d = Some (Some r)).
Proof.
  eexists. split; [vm_compute; reflexivity|].
  repeat split. intros (r & Hr). discriminate.
Qed.

End LocationFacts.

Module OrderFacts.
Import Py ExtractFormFieldInfo PyDict LocationSpec LocationFacts CheckboxFacts OrderSpec.

Lemma Qltb_true (a b : Q) : Qltb a b = true <-> (a < b)%Q.
Proof.
  unfold Qltb. rewrite negb_true_iff.
  destruct (Qle_bool b a) eqn:E.
  - apply Qle_bool_iff in E. split; [discriminate|]. intros H. lra.
  - split; [intros _|reflexivity].
    apply Qnot_le_lt. intros H. apply Qle_bool_iff in H. congruence.
Qed.

Lemma Qltb_false (a b : Q) : Qltb a b = false <-> (b <= a)%Q.
Proof.
  unfold Qltb. rewrite negb_false_iff. apply Qle_bool_iff.
Qed.

Lemma position_lt_decides (p q : Q * Q) :
  if position_lt p q then position_le p q else position_le q p.
Proof.
  unfold position_lt, position_le.
  destruct (Qeq_bool (fst p) (fst q)) eqn:E.
  - apply Qeq_bool_iff in E.
    destruct (Qltb (snd p) (snd q)) eqn:L.
    + apply Qltb_true in L. right. split; [assumption|lra].
    + apply Qltb_false in L. right. split; [lra|assumption].
  - apply Qeq_bool_neq in E.
    destruct (Qltb (fst p) (fst q)) eqn:L.
    + apply Qltb_true in L. now left.
    + apply Qltb_false in L. left. lra.
Qed.

Lemma position_le_trans (p q r : Q * Q) :
  position_le p q -> position_le q r -> position_le p r.
Proof. unfold position_le. intros [H1|[H1 H1']] [H2|[H2 H2']]; lra. Qed.

Lemma key_lt_decides (k1 k2 : key) :
  fst k1 <> None -> fst k2 <> None ->
  exists b, key_lt k1 k2 = Ok b /\ if b then key_le k1 k2 else key_le k2 k1.
Proof.
  unfold key_lt, key_le.
  destruct (fst k1) as [p1|], (fst k2) as [p2|]; try congruence. intros _ _.
  destruct (p1 =? p2) eqn:E.
  - apply Nat.eqb_eq in E. subst p2. eexists. split; [reflexivity|].
    pose proof (position_lt_decides (snd k1) (snd k2)) as H.
    destruct (position_lt (snd k1) (snd k2)); auto.
  - apply Nat.eqb_neq in E. eexists. split; [reflexivity|].
    destruct (p1 <? p2) eqn:L.
    + apply Nat.ltb_lt in L. now left.
    + apply Nat.ltb_ge in L. left. lia.
Qed.

Lemma key_le_trans (k1 k2 k3 : key) :
  key_le k1 k2 -> key_le k2 k3 -> key_le k1 k3.
Proof.
  unfold key_le.
  destruct (fst k1) as [p1|], (fst k2) as [p2|], (fst k3) as [p3|];
    try contradiction.
  intros [H1|[H1 H1']] [H2|[H2 H2']]; try (left; lia).
  right. split; [lia|]. eapply position_le_trans; eassumption.
Qed.

Lemma insert_by_key_sorted (x : key * field_dict) (l : list (key * field_dict)) :
  has_page x -> Forall has_page l -> StronglySorted pair_le l ->
  exists r, insert_by_key x l = Ok r /\ StronglySorted pair_le r.
Proof.
  intros Hx Hl Hs. induction Hs as [|y l Hs IH Hy]; cbn [insert_by_key].
  - eexists. split; [reflexivity|]. repeat constructor.
  - inversion Hl as [|? ? Hpy Hl']; subst.
    destruct (key_lt_decides (fst y) (fst x) Hpy Hx) as (b & -> & Hb).
    cbn [bind]. destruct b.
    + destruct (IH Hl') as (r & Hr & Hsr). rewrite Hr. cbn [bind].
      eexists. split; [reflexivity|]. constructor; [assumption|].
      apply Forall_forall. intros z Hz.
      apply (Permutation_in _ (insert_by_key_perm _ _ Hr)) in Hz.
      destruct Hz as [<-|Hz]; [exact Hb|].
      rewrite Forall_forall in Hy. auto.
    + eexists. split; [reflexivity|].
      constructor; [constructor; assumption|].
      constructor; [exact Hb|].
      eapply Forall_impl; [|exact Hy].
      intros z Hz. eapply key_le_trans; eassumption.
Qed.

Lemma sort_keyed_sorted (l : list (key * field_dict)) :
  Forall has_page l ->
  exists r, sort_keyed l = Ok r /\ StronglySorted pair_le r.
Proof.
  induction 1 as [|x l Hx Hl IH]; cbn [sort_keyed].
  - eexists. split; [reflexivity|]. constructor.
  - destruct IH as (s & Hs & Hsorted). rewrite Hs. cbn [bind].
    apply insert_by_key_sorted; auto.
    apply Forall_forall. intros y Hy.
    apply (Permutation_in _ (sort_keyed_perm _ Hs)) in Hy.
    rewrite Forall_forall in Hl. auto.
Qed.

Lemma sorted_pairs_precede (s : list (key * field_dict)) :
  Forall (fun kf => sort_key (snd kf) = Ok (fst kf)) s ->
  StronglySorted pair_le s -> StronglySorted precedes (map snd s).
Proof.
  intros Hk Hs. induction Hs as [|x s Hs IH Hx]; cbn [map]; constructor.
  - inversion Hk; auto.
  - inversion Hk as [|? ? Hkx Hks]; subst.
    apply Forall_forall. intros g Hg. apply in_map_iff in Hg.
    destruct Hg as (y & <- & Hy).
    rewrite Forall_forall in Hx, Hks.
    exists (fst x), (fst y). repeat split; auto. exact (Hx _ Hy).
Qed.

Lemma sort_key_page (f : field_dict) (k : key) :
  sort_key f = Ok k -> fst k = page f.
Proof.
  unfold sort_key. intros H. apply bind_Ok in H.
  destruct H as (r & _ & H). now injection H as <-.
Qed.

Lemma make_field_dict_returns (field : Field) (id : string) :
  (FT field = Some "/Ch" ->
   exists os, choice_options_of (States field) = Ok os) ->
  exists r, make_field_dict field id = Ok r.
Proof.
  intros Hch. unfold make_field_dict.
  destruct (ft_is (FT field) "/Tx"); [eauto|].
  destruct (ft_is (FT field) "/Btn").
  - destruct (States field) as [|a [|b [|c rest]]];
      cbn [List.length Nat.eqb getitem nth_error bind existsb]; eauto.
    destruct (state_eqb Off a || (state_eqb Off b || false)); eauto.
  - destruct (ft_is (FT field) "/Ch") eqn:E; [|eauto].
    unfold ft_is in E. destruct (FT field) as [ft|]; [|discriminate].
    apply String.eqb_eq in E. subst ft.
    destruct (Hch eq_refl) as [os ->]. cbn. eauto.
Qed.

Lemma collect_fields_returns (fields : list (string * Field)) :
  (forall id field, In (id, field) fields -> Kids field = false ->
     exists r, make_field_dict field id = Ok r) ->
  forall fi names out, exists r, collect_fields fields fi names out = Ok r.
Proof.
  induction fields as [|[id field] rest IH]; intros Hmk fi names out;
    cbn [collect_fields]; [eauto|].
  assert (Hrest : forall id' field', In (id', field') rest ->
            Kids field' = false ->
            exists r, make_field_dict field' id' = Ok r)
    by (intros; eapply Hmk; [right|]; eassumption).
  destruct (Kids field) eqn:Hk; [now apply IH|].
  destruct (Hmk id field (or_introl eq_refl) Hk) as [r ->]. cbn [bind].
  now apply IH.
Qed.

Lemma keyed_returns (l : list field_dict) :
  Forall (fun d => exists k, sort_key d = Ok k) l ->
  exists ks, keyed l = Ok ks.
Proof.
  induction 1 as [|d l [k Hk] _ [ks IH]]; cbn [keyed]; [eauto|].
  rewrite Hk, IH. cbn. eauto.
Qed.

(** [get_field_info] returns for every document that has a form and
    whose choice fields have well-formed options. *)
Lemma get_field_info_returns (reader : PdfReader) fields :
  get_fields reader = Some fields ->
  (forall id field, In (id, field) fields -> Kids field = false ->
     FT field = Some "/Ch" ->
     exists os, choice_options_of (States field) = Ok os) ->
  exists out printed, get_field_info reader = Ok (out, printed).
Proof.
  intros Hf Hch.
  assert (Hscan : exists s, scan reader = Ok s).
  { unfold scan. rewrite Hf.
    destruct (@collect_fields_returns fields) with (fi := @nil (string * field_dict))
      (names := @nil string) (out := @nil string) as [[[fi0 names] out0] ->].
    - intros id field Hin Hk. apply make_field_dict_returns. eauto.
    - cbn [bind]. destruct (scan_pages names 0 (pages reader) (fi0, [])). eauto. }
  destruct Hscan as [[[fi radio] out0] Hscan].
  unfold get_field_info. rewrite Hscan. cbn [bind].
  destruct (with_location (values fi)) as [located out1] eqn:Hloc.
  destruct (scan_ok _ Hscan) as (Hfi & Hradio & _).
  rewrite Forall_forall in Hfi, Hradio.
  assert (Hkey : Forall (fun d => exists k, sort_key d = Ok k /\ fst k <> None)
                   (located ++ values radio)).
  { apply Forall_app. split; apply Forall_forall; intros d Hd.
    - replace located with (fst (with_location (values fi))) in Hd
        by now rewrite Hloc.
      apply with_location_In in Hd. destruct Hd as [Hd Hp].
      unfold values in Hd. apply in_map_iff in Hd.
      destruct Hd as ([k d'] & <- & Hin).
      destruct (Hfi _ Hin) as (_ & Hr & _). cbn [snd] in *.
      unfold sort_key. rewrite Hr. cbn. eauto.
    - unfold values in Hd. apply in_map_iff in Hd.
      destruct Hd as ([k d'] & <- & Hin).
      destruct (Hradio _ Hin) as (_ & Hp & (o & os & Hr & _) & _).
      cbn [snd] in *.
      unfold sort_key. rewrite Hr. cbn. eauto. }
  unfold sort_fields.
  destruct (@keyed_returns (located ++ values radio)) as [ks Hks].
  { eapply Forall_impl; [|exact Hkey]. intros d (k & Hk & _). eauto. }
  rewrite Hks. cbn [bind].
  destruct (keyed_spec _ Hks) as [Hmap Hkeys].
  destruct (@sort_keyed_sorted ks) as (s & -> & _).
  { apply Forall_forall. intros kf Hkf. unfold has_page.
    rewrite Forall_forall in Hkeys, Hkey.
    destruct (Hkey (snd kf)) as (k & Hk & Hp).
    - rewrite <- Hmap. now apply in_map.
    - rewrite (Hkeys _ Hkf) in Hk. injection Hk as <-. assumption. }
  cbn. eauto.
Qed.

Lemma sort_key_placing (f : field_dict) (k : key) (p : nat) :
  sort_key f = Ok k -> fst k = Some p ->
  exists x y, placing f = Some (p, (x, y)) /\ snd k = ((- y)%Q, x).
Proof.
  unfold sort_key, placing. intros H Hp.
  apply bind_Ok in H. destruct H as (r & Hr & H). injection H as <-.
  cbn [fst snd] in *. rewrite Hp.
  destruct (radio_options f) as [[|o os]|].
  - discriminate Hr.
  - cbn in Hr. injection Hr as <-.
    destruct (opt_rect o) as [[[[x0 y0] x1] y1]|]; cbn; eauto.
  - injection Hr as <-.
    destruct (rect f) as [[[[[x0 y0] x1] y1]|]|]; cbn; eauto.
Qed.

Lemma precedes_reads_before (f g : field_dict) :
  precedes f g -> reads_before f g.
Proof.
  intros ([pf posf] & [pg posg] & Hf & Hg & Hle).
  unfold key_le in Hle. cbn [fst snd] in Hle.
  destruct pf as [pf|]; [|contradiction].
  destruct pg as [pg|]; [|contradiction].
  destruct (sort_key_placing _ Hf eq_refl) as (xf & yf & Hpf & Hkf).
  destruct (sort_key_placing _ Hg eq_refl) as (xg & yg & Hpg & Hkg).
  cbn [snd] in Hkf, Hkg. subst posf posg.
  exists pf, xf, yf, pg, xg, yg. split; [assumption|]. split; [assumption|].
  destruct Hle as [Hlt|[Heq Hpos]]; [now left|right].
  split; [assumption|]. unfold position_le in Hpos. cbn [fst snd] in Hpos.
  destruct Hpos as [Hy|[Hy Hx]]; [left; lra|right; split; [lra|assumption]].
Qed.

Lemma StronglySorted_impl {A} (R S : A -> A -> Prop) (l : list A) :
  (forall a b, R a b -> S a b) -> StronglySorted R l -> StronglySorted S l.
Proof.
  intros HRS. induction 1 as [|a l _ IH Ha]; constructor; [assumption|].
  eapply Forall_impl; [|exact Ha]. intros b. apply HRS.
Qed.

(** C5. The list [get_field_info] returns is the located ordinary
    fields together with the radio groups, rearranged into reading
    order: every descriptor stands before all later ones by page
    ascending, then by y descending (minus y ascending), then by x
    ascending, a descriptor being placed by the first two numbers of
    its rectangle and a radio group by those of the rectangle of its
    first option.  Hence three page-1 fields whose rectangles start at
    (0, 700), (0, 100) and (50, 700) come out as first, third, second,
    and given as (50, 700), (0, 100), (0, 700) they come out as third,
    first, second. *)
Theorem fields_sorted_by_page_and_position (reader : PdfReader) out printed :
  get_field_info reader = Ok (out, printed) ->
  (exists fi radio out0,
     scan reader = Ok (fi, radio, out0)
     /\ Permutation out (fst (with_location (values fi)) ++ values radio))
  /\ StronglySorted reads_before out
  /\ (forall d1 d2 d3 x1 y1 x2 y2 x3 y3,
        page d1 = Some 1 -> page d2 = Some 1 -> page d3 = Some 1 ->
        radio_options d1 = None -> radio_options d2 = None ->
        radio_options d3 = None ->
        rect d1 = Some (Some (0, 700, x1, y1)%Q) ->
        rect d2 = Some (Some (0, 100, x2, y2)%Q) ->
        rect d3 = Some (Some (50, 700, x3, y3)%Q) ->
        sort_fields [d1; d2; d3] = Ok [d1; d3; d2]
        /\ sort_fields [d3; d2; d1] = Ok [d1; d3; d2]).
Proof.
  intros H.
  destruct (get_field_info_stages _ H) as (fi & radio & out0 & Hscan & Hsort & _ & Hpages).
  split; [|split].
  - exists fi, radio, out0. split; [assumption|].
    now apply sort_fields_perm.
  - apply StronglySorted_impl with (R := precedes);
      [exact precedes_reads_before|].
    unfold sort_fields in Hsort.
    apply bind_Ok in Hsort. destruct Hsort as (ks & Hks & Hsort).
    apply bind_Ok in Hsort. destruct Hsort as (s & Hs & Hout).
    injection Hout as <-.
    destruct (keyed_spec _ Hks) as [Hmap Hkeys].
    assert (Hhas : Forall has_page ks).
    { apply Forall_forall. intros kf Hkf. unfold has_page.
      rewrite Forall_forall in Hkeys, Hpages.
      rewrite (sort_key_page _ (Hkeys _ Hkf)).
      apply Hpages. rewrite <- Hmap. now apply in_map. }
    destruct (sort_keyed_sorted Hhas) as (s' & Hs' & Hsorted).
    rewrite Hs in Hs'. injection Hs' as <-.
    apply sorted_pairs_precede; [|assumption].
    apply Forall_forall. intros kf Hkf.
    apply (Permutation_in _ (sort_keyed_perm _ Hs)) in Hkf.
    rewrite Forall_forall in Hkeys. auto.
  - intros d1 d2 d3 x1 y1 x2 y2 x3 y3 P1 P2 P3 R1 R2 R3 E1 E2 E3.
    unfold sort_fields, keyed, sort_key.
    rewrite P1, P2, P3, R1, R2, R3, E1, E2, E3. split; reflexivity.
Qed.

Lemma fields_sorted_by_page_and_position_witness :
  (exists out,
     get_field_info PdfExample.ordering_reader = Ok (out, [])
     /\ map field_id out = ["a"; "c"; "b"]
     /\ StronglySorted reads_before out)
  /\ (exists out,
        get_field_info PdfExample.reversed_reader = Ok (out, [])
        /\ map field_id out = ["a"; "c"; "b"]
        /\ StronglySorted reads_before out).
Proof.
  split.
  - destruct (get_field_info PdfExample.ordering_reader)
      as [[out printed]|e] eqn:E; [|vm_compute in E; discriminate].
    destruct (fields_sorted_by_page_and_position _ E) as (_ & Hsorted & _).
    vm_compute in E. injection E as <- <-.
    eexists. split; [reflexivity|]. split; [reflexivity|exact Hsorted].
  - destruct (get_field_info PdfExample.reversed_reader)
      as [[out printed]|e] eqn:E; [|vm_compute in E; discriminate].
    destruct (fields_sorted_by_page_and_position _ E) as (_ & Hsorted & _).
    vm_compute in E. injection E as <- <-.
    eexists. split; [reflexivity|]. split; [reflexivity|exact Hsorted].
Defined.

End OrderFacts.

(** ** The overflow map *)

Module OverflowMapFacts.
Import Py Replace PyDict PyDictFacts OverflowSpec.

Section Maps.
Variable ShapeRef : Type.

Lemma mem_get {V} (k : string) (d : dict V) :
  mem k d = true -> exists v, get k d = Some v.
Proof. unfold mem. destruct (get k d); [eauto|discriminate]. Qed.

Lemma record_overflow_lookup (sk0 shk0 : string) (sd : ShapeData ShapeRef)
    (acc : dict (dict float)) (sk shk : string) :
  lookup2 (record_overflow sk0 shk0 sd acc) sk shk
  = match frame_overflow_bottom sd with
    | Some overflow =>
        if String.eqb sk sk0 && String.eqb shk shk0 then Some overflow
        else lookup2 acc sk shk
    | None => lookup2 acc sk shk
    end.
Proof.
  unfold record_overflow, lookup2.
  destruct (frame_overflow_bottom sd) as [overflow|]; [|reflexivity].
  destruct (String.eqb sk sk0) eqn:Esk.
  - apply String.eqb_eq in Esk. subst sk0. cbn [andb].
    destruct (mem sk acc) eqn:Hmem.
    + rewrite get_update_same. destruct (mem_get _ _ Hmem) as [inner ->].
      cbn [option_map].
      destruct (String.eqb shk shk0) eqn:Eshk.
      * apply String.eqb_eq in Eshk. subst. apply get_set_same.
      * apply String.eqb_neq in Eshk. now apply get_set_other.
    + rewrite update_set_fresh by assumption. rewrite get_set_same.
      unfold mem in Hmem. destruct (get sk acc); [discriminate|].
      cbn [set get]. reflexivity.
  - apply String.eqb_neq in Esk. cbn [andb].
    rewrite get_update_other by assumption.
    destruct (mem sk0 acc); [reflexivity|]. now rewrite get_set_other.
Qed.

Lemma record_overflow_ok sk0 shk0 (sd : ShapeData ShapeRef) acc :
  map_ok acc -> map_ok (record_overflow sk0 shk0 sd acc).
Proof.
  intros [Hk Hin]. unfold record_overflow.
  destruct (frame_overflow_bottom sd) as [overflow|]; [|now split].
  split.
  - rewrite keys_update. destruct (mem sk0 acc); [assumption|].
    now apply NoDup_keys_set.
  - apply Forall_update.
    + intros v Hv. cbn [snd] in *. now apply NoDup_keys_set.
    + destruct (mem sk0 acc); [assumption|].
      apply Forall_set; [constructor|assumption].
Qed.

Lemma record_shapes_lookup sk0 (shapes : list (string * ShapeData ShapeRef)) :
  forall acc sk shk,
  NoDup (keys shapes) ->
  lookup2 (record_shapes sk0 shapes acc) sk shk
  = if String.eqb sk sk0 then
      match get shk shapes with
      | Some sd =>
          match frame_overflow_bottom sd with
          | Some overflow => Some overflow
          | None => lookup2 acc sk shk
          end
      | None => lookup2 acc sk shk
      end
    else lookup2 acc sk shk.
Proof.
  unfold record_shapes.
  induction shapes as [|[k sd] rest IH]; intros acc sk shk Hnd; cbn [fold_left].
  - cbn. now destruct (String.eqb sk sk0).
  - unfold keys in Hnd. cbn [map fst] in Hnd.
    inversion Hnd as [|? ? Hnotin Hnd']; subst.
    rewrite (IH _ sk shk Hnd'), record_overflow_lookup. cbn [get].
    destruct (String.eqb sk sk0); cbn [andb];
      [|now destruct (frame_overflow_bottom sd)].
    destruct (String.eqb shk k) eqn:E.
    + apply String.eqb_eq in E. subst k.
      replace (get shk rest) with (@None (ShapeData ShapeRef))
        by (symmetry; now apply get_None).
      reflexivity.
    + destruct (get shk rest) as [sd'|];
        [destruct (frame_overflow_bottom sd')|];
        now destruct (frame_overflow_bottom sd).
Qed.

Lemma record_shapes_ok sk0 (shapes : list (string * ShapeData ShapeRef)) :
  forall acc,
  map_ok acc -> map_ok (record_shapes sk0 shapes acc).
Proof.
  unfold record_shapes.
  induction shapes as [|[k sd] rest IH]; intros acc Hacc; cbn [fold_left];
    [assumption|].
  apply IH. now apply record_overflow_ok.
Qed.

Lemma record_slides_lookup (slides : InventoryData ShapeRef) :
  forall acc sk shk,
  inventory_ok slides ->
  lookup2 (record_slides slides acc) sk shk
  = match measured_overflow slides sk shk with
    | Some overflow => Some overflow
    | None => lookup2 acc sk shk
    end.
Proof.
  unfold record_slides, measured_overflow.
  induction slides as [|[k shapes] rest IH]; intros acc sk shk [Hnd Hin];
    cbn [fold_left]; [reflexivity|].
  unfold keys in Hnd. cbn [map fst] in Hnd.
  inversion Hnd as [|? ? Hnotin Hnd']; subst.
  inversion Hin as [|? ? Hshapes Hin']; subst. cbn [snd] in Hshapes.
  rewrite (IH _ sk shk (conj Hnd' Hin')).
  rewrite record_shapes_lookup by assumption. cbn [get].
  destruct (String.eqb sk k) eqn:E.
  - apply String.eqb_eq in E. subst k.
    replace (get sk rest) with (@None (dict (ShapeData ShapeRef)))
      by (symmetry; now apply get_None).
    unfold items.
    destruct (get shk shapes) as [sd|]; [|reflexivity].
    now destruct (frame_overflow_bottom sd).
  - reflexivity.
Qed.

Lemma record_slides_ok (slides : InventoryData ShapeRef) : forall acc,
  map_ok acc -> map_ok (record_slides slides acc).
Proof.
  unfold record_slides.
  induction slides as [|[k shapes] rest IH]; intros acc Hacc; cbn [fold_left];
    [assumption|].
  apply IH. now apply record_shapes_ok.
Qed.

(** The overflow map holds, for each slide and shape, the overflow the
    inventory has measured, and nothing else. *)
Lemma detect_frame_overflow_lookup (inventory : InventoryData ShapeRef)
    (slide_key shape_key : string) :
  inventory_ok inventory ->
  lookup2 (detect_frame_overflow inventory) slide_key shape_key
  = measured_overflow inventory slide_key shape_key.
Proof.
  intros Hok.
  change (detect_frame_overflow inventory) with (record_slides inventory []).
  rewrite record_slides_lookup by assumption.
  now destruct (measured_overflow inventory slide_key shape_key).
Qed.

Lemma detect_frame_overflow_ok (inventory : InventoryData ShapeRef) :
  map_ok (detect_frame_overflow inventory).
Proof.
  change (detect_frame_overflow inventory) with (record_slides inventory []).
  apply record_slides_ok. split; constructor.
Qed.

Lemma lookup2_In (overflow_map : dict (dict float)) (sk shk : string)
    (overflow : float) :
  map_ok overflow_map ->
  (lookup2 overflow_map sk shk = Some overflow
   <-> exists inner, In (sk, inner) overflow_map /\ In (shk, overflow) inner).
Proof.
  intros [Hnd Hin]. unfold lookup2. rewrite Forall_forall in Hin. split.
  - destruct (get sk overflow_map) as [inner|] eqn:E; [|discriminate].
    apply get_In in E; [|assumption]. intros H.
    exists inner. split; [assumption|].
    apply get_In; [exact (Hin _ E)|assumption].
  - intros (inner & H1 & H2).
    pose proof (Hin _ H1) as Hinner. cbn [snd] in Hinner.
    apply get_In in H1; [|assumption]. rewrite H1. now apply get_In.
Qed.

End Maps.

End OverflowMapFacts.

(** ** The replacement engine *)

Module ReplaceFacts.
Import Py Replace PyDict OverflowSpec ReplaceSpec.

Lemma append_assoc (a b c : string) : (a +++ b) +++ c = a +++ (b +++ c).
Proof. induction a as [|x a IH]; simpl; [reflexivity|now rewrite IH]. Qed.

Lemma append_empty (a : string) : a +++ EmptyString = a.
Proof. induction a as [|x a IH]; simpl; [reflexivity|now rewrite IH]. Qed.

Lemma of_chars_app (a b : list string) :
  of_chars (a ++ b) = of_chars a +++ of_chars b.
Proof.
  induction a as [|c a IH]; cbn [app of_chars fold_right]; [reflexivity|].
  fold (of_chars (a ++ b)). fold (of_chars a).
  now rewrite IH, append_assoc.
Qed.

Lemma split_chars_shape (s : string) :
  all_continuation (fst (split_chars s)) = true
  /\ Forall is_char (snd (split_chars s)).
Proof.
  induction s as [|a s [IHpre IHcs]]; cbn [split_chars].
  - split; [reflexivity|constructor].
  - destruct (split_chars s) as [pre cs]. cbn [fst snd] in *.
    destruct (is_continuation a) eqn:Ea; cbn [fst snd].
    + split; [cbn [all_continuation]; now rewrite Ea|assumption].
    + split; [reflexivity|]. constructor; [|assumption].
      now exists a, pre.
Qed.

Lemma chars_are_chars (s : string) : Forall is_char (chars s).
Proof. apply split_chars_shape. Qed.

Lemma split_chars_after (pre s : string) :
  all_continuation pre = true ->
  split_chars (pre +++ s)
  = (pre +++ fst (split_chars s), snd (split_chars s)).
Proof.
  induction pre as [|a pre IH]; cbn [String.append all_continuation].
  - intros _. now destruct (split_chars s).
  - intros H. apply andb_prop in H. destruct H as [Ha Hpre].
    cbn [split_chars]. rewrite (IH Hpre), Ha. reflexivity.
Qed.

Lemma split_chars_of_chars (cs : list string) :
  Forall is_char cs -> split_chars (of_chars cs) = (EmptyString, cs).
Proof.
  induction 1 as [|c cs (a & pre & -> & Ha & Hpre) _ IH];
    cbn [of_chars fold_right]; [reflexivity|].
  fold (of_chars cs). cbn [String.append split_chars].
  rewrite (@split_chars_after pre (of_chars cs) Hpre), IH, Ha. cbn [fst snd].
  now rewrite append_empty.
Qed.

(** The characters of a string put together from characters are
    those characters. *)
Lemma chars_of_chars (cs : list string) :
  Forall is_char cs -> chars (of_chars cs) = cs.
Proof.
  intros H. unfold chars. now rewrite split_chars_of_chars.
Qed.

Lemma firstn_members {A} (n : nat) : forall (l : list A) (x : A),
  In x (firstn n l) -> In x l.
Proof.
  induction n as [|n IH]; intros [|y l] x; cbn [firstn In]; try tauto.
  intros [H|H]; [now left|right; now apply IH].
Qed.

Lemma sorted_nil (l : list string) : sorted l = [] -> l = [].
Proof.
  destruct l as [|x l]; [reflexivity|]. cbn [sorted].
  destruct (sorted l); cbn [insert_str]; [discriminate|].
  destruct (String.ltb x s); discriminate.
Qed.

Lemma insert_str_perm (x : string) (l : list string) :
  Permutation (insert_str x l) (x :: l).
Proof.
  induction l as [|y l IH]; simpl; [reflexivity|].
  destruct (String.ltb x y); [reflexivity|].
  rewrite IH. apply perm_swap.
Qed.

Lemma sorted_perm (l : list string) : Permutation (sorted l) l.
Proof.
  induction l as [|x l IH]; simpl; [reflexivity|].
  rewrite insert_str_perm. now constructor.
Qed.


Lemma nonempty_false {A} (l : list A) : nonempty l = false <-> l = [].
Proof. destruct l; simpl; split; congruence. Qed.

Section Engine.
Variable Prs ShapeRef ParaData : Type.
Variable extract_text_inventory : Prs -> InventoryData ShapeRef.
Variable n_slides : Prs -> nat.
Variable text_frame_clear : ShapeRef -> Prs -> Prs.
Variable apply_paragraph_properties :
  ShapeRef -> nat -> ParaData -> Prs -> result (Prs * list string).
Variable fmt_2f : float -> string.

Lemma quiet_ret {A} (a : A) : quiet Prs (ret a).
Proof.
  intros w r w' [= <- <-]. exists []. now rewrite app_nil_r.
Qed.

Lemma quiet_lift {A} (x : result A) : quiet Prs (lift x).
Proof.
  intros w r w' [= <- <-]. exists []. now rewrite app_nil_r.
Qed.

Lemma quiet_get : quiet Prs (@get_prs Prs).
Proof.
  intros w r w' [= <- <-]. exists []. now rewrite app_nil_r.
Qed.

Lemma quiet_mutate (f : Prs -> Prs) : quiet Prs (mutate f).
Proof.
  intros w r w' [= <- <-]. exists []. cbn. now rewrite app_nil_r.
Qed.

Lemma quiet_print (line : string) : quiet Prs (@print Prs line).
Proof.
  intros w r w' [= <- <-]. now exists [line].
Qed.

Lemma quiet_bind {A B} (m : Run Prs A) (k : A -> Run Prs B) :
  quiet Prs m -> (forall a, quiet Prs (k a)) -> quiet Prs (bindM m k).
Proof.
  intros Hm Hk w r w'. unfold bindM.
  destruct (m w) as [[a|e] w1] eqn:E; intros H.
  - destruct (Hm _ _ _ E) as (l1 & H1). destruct (Hk a _ _ _ H) as (l2 & H2).
    exists (l1 ++ l2). rewrite H2, H1, map_app. now rewrite app_assoc.
  - injection H as <- <-. eauto.
Qed.

Lemma quiet_for_each {A} (l : list A) (body : A -> Run Prs unit) :
  (forall a, quiet Prs (body a)) -> quiet Prs (for_each l body).
Proof.
  intros Hb. induction l as [|a l IH]; cbn [for_each].
  - apply quiet_ret.
  - apply quiet_bind; auto.
Qed.

Lemma quiet_add_paragraphs sh paras : forall i,
  quiet Prs (add_paragraphs apply_paragraph_properties sh i paras).
Proof.
  induction paras as [|p paras IH]; intros i; cbn [add_paragraphs].
  - apply quiet_ret.
  - apply quiet_bind; [apply quiet_get|]. intros prs.
    apply quiet_bind; [apply quiet_lift|]. intros r.
    apply quiet_bind; [apply quiet_mutate|]. intros _.
    apply quiet_bind; [|auto].
    apply quiet_for_each. intros line. apply quiet_print.
Qed.

Lemma quiet_process_shape replacements slide_key st shape_key shape_data :
  quiet Prs (process_shape text_frame_clear apply_paragraph_properties
           replacements slide_key st shape_key shape_data).
Proof.
  unfold process_shape. destruct (shape shape_data) as [sh|].
  - apply quiet_bind; [apply quiet_mutate|]. intros _.
    match goal with
    | |- quiet Prs (match ?x with _ => _ end) => destruct x
    end.
    + apply quiet_bind; [apply quiet_add_paragraphs|]. intros _. apply quiet_ret.
    + apply quiet_ret.
  - apply quiet_bind; [apply quiet_print|]. intros _. apply quiet_ret.
Qed.

Lemma quiet_process_shapes replacements slide_key shapes : forall st,
  quiet Prs (process_shapes text_frame_clear apply_paragraph_properties
           replacements slide_key shapes st).
Proof.
  induction shapes as [|[shape_key shape_data] rest IH]; intros st;
    cbn [process_shapes].
  - apply quiet_ret.
  - apply quiet_bind; [apply quiet_process_shape|auto].
Qed.

Lemma quiet_process_slides replacements slides : forall st,
  quiet Prs (process_slides n_slides text_frame_clear apply_paragraph_properties
           replacements slides st).
Proof.
  induction slides as [|[slide_key shapes_dict] rest IH]; intros st;
    cbn [process_slides].
  - apply quiet_ret.
  - destruct (negb (startswith "slide-" slide_key)); [auto|].
    apply quiet_bind; [apply quiet_lift|]. intros slide_index.
    apply quiet_bind; [apply quiet_get|]. intros prs.
    destruct (Z.of_nat (n_slides prs) <=? slide_index)%Z.
    + apply quiet_bind; [apply quiet_print|]. auto.
    + apply quiet_bind; [apply quiet_process_shapes|]. auto.
Qed.

Lemma for_each_print {A} (f : A -> string) (l : list A) : forall w : Prs * list (event Prs),
  for_each l (fun a => print (f a)) w
  = (Ok tt, (fst w, snd w ++ map (fun a => @Print Prs (f a)) l)).
Proof.
  induction l as [|a l IH]; intros [p ev]; cbn [for_each].
  - cbn. now rewrite app_nil_r.
  - unfold bindM. cbn [print emit fst snd]. rewrite IH. cbn [fst snd].
    now rewrite <- app_assoc.
Qed.

(** The preview of the code is the preview of the specification. *)
Lemma unused_entry_listed (k : string) (shape_data : ShapeData ShapeRef) :
  unused_entry k shape_data = listed k (paragraphs shape_data).
Proof.
  unfold unused_entry, first_text, listed.
  destruct (paragraphs shape_data) as [|[t] rest]; [reflexivity|].
  cbn [text]. destruct (String.eqb t EmptyString); [reflexivity|].
  unfold preview, take, len. rewrite of_chars_app.
  rewrite !append_assoc. do 3 f_equal.
  destruct (50 <? List.length (chars t)); reflexivity.
Qed.

Lemma unused_with_content_listed
    (slide_shapes : PyDict.dict (ShapeData ShapeRef))
    (shapes_data : PyDict.dict (ShapeReplacement ParaData)) :
  unused_with_content slide_shapes shapes_data
  = map (fun e => listed (fst e) (paragraphs (snd e)))
      (unmentioned slide_shapes shapes_data).
Proof.
  unfold unused_with_content, unmentioned, PyDict.items.
  induction slide_shapes as [|[k shape_data] rest IH];
    cbn [flat_map filter map fst snd]; [reflexivity|].
  destruct (PyDict.mem k shapes_data); cbn [negb app map fst snd].
  - exact IH.
  - now rewrite IH, unused_entry_listed.
Qed.

Lemma shape_not_found_error (shape_key slide_key : string)
    (slide_shapes : PyDict.dict (ShapeData ShapeRef))
    (shapes_data : PyDict.dict (ShapeReplacement ParaData)) :
  shape_not_found shape_key slide_key
    (unused_with_content slide_shapes shapes_data)
  = shape_error shape_key slide_key
      (sorted (map (fun e => listed (fst e) (paragraphs (snd e)))
                 (unmentioned slide_shapes shapes_data))).
Proof.
  rewrite unused_with_content_listed. unfold shape_not_found, shape_error.
  do 2 f_equal.
  destruct (map _ (unmentioned slide_shapes shapes_data)) as [|x l] eqn:E;
    [reflexivity|].
  destruct (sorted (x :: l)) eqn:Es; [|reflexivity].
  apply sorted_nil in Es. discriminate.
Qed.

(** C2. The keys of the replacement document are validated against
    the inventory before anything is changed, and every bad key gives
    its own error, all of them collected: the errors are exactly the
    error of each slide key the inventory does not have, naming the
    slide, and the error of each shape key its slide does not have,
    which lists, sorted, the inventoried shapes of the slide that the
    document does not mention, and no other shape.  A listed shape
    whose first paragraph has text carries a preview of it: its first
    50 characters, followed by three dots when the text has more; a
    shape without such text is listed by its key alone.  When there
    is any error, all of them are printed, [ValueError] is raised, the
    presentation in memory is what it was, and nothing but printing
    has happened: no shape was cleared or rewritten and no file was
    saved. *)
Theorem validation_precedes_mutation (prs0 : Prs)
    (raw : RawDocument ParaData) (replacements : Replacements ParaData)
    (output_file : string) (ev0 : list (event Prs)) :
  load_replacements raw = Ok replacements ->
  let inventory := extract_text_inventory prs0 in
  let errors := validate_replacements inventory replacements in
  (forall error, In error errors <-> key_error inventory replacements error)
  /\ (forall t,
        chars (preview t)
        = firstn 50 (chars t)
          ++ (if 50 <? List.length (chars t) then ["."; "."; "."] else []))
  /\ (errors <> [] ->
      apply_replacements extract_text_inventory n_slides text_frame_clear
        apply_paragraph_properties fmt_2f (Ok raw) output_file (prs0, ev0)
      = (Raise (Exn "ValueError"
                  ("发现 " +++ str_of_nat (List.length errors) +++ " 个验证错误")),
         (prs0, ev0 ++ map (@Print Prs) (validation_report errors)))).
Proof.
  intros Hload inventory errors.
  split; [|split].
  - intros error. unfold errors, validate_replacements, PyDict.items.
    rewrite in_flat_map. split.
    + intros ([slide_key shapes_data] & Hin & Herr).
      unfold slide_errors in Herr.
      destruct (startswith "slide-" slide_key) eqn:Hslide; cbn [negb] in Herr;
        [|contradiction].
      destruct (PyDict.get slide_key inventory) as [slide_shapes|] eqn:Hget.
      * right. apply in_flat_map in Herr.
        destruct Herr as (shape_key & Hkey & Herr).
        destruct (PyDict.mem shape_key slide_shapes) eqn:Hmem;
          [contradiction|].
        destruct Herr as [<-|[]].
        exists slide_key, shapes_data, slide_shapes, shape_key.
        repeat (split; [assumption|]). apply shape_not_found_error.
      * left. destruct Herr as [<-|[]].
        exists slide_key, shapes_data. now repeat split.
    + intros [(slide_key & shapes_data & Hin & Hslide & Hget & ->)
             |(slide_key & shapes_data & slide_shapes & shape_key & Hin
               & Hslide & Hget & Hkey & Hmem & ->)];
        exists (slide_key, shapes_data); (split; [exact Hin|]);
        unfold slide_errors; rewrite Hslide, Hget; cbn [negb].
      * now left.
      * apply in_flat_map. exists shape_key. split; [exact Hkey|].
        rewrite Hmem. left. apply shape_not_found_error.
  - intros t. unfold preview. apply chars_of_chars.
    apply Forall_app. split.
    + apply Forall_forall. intros c Hc. apply firstn_members in Hc.
      pose proof (chars_are_chars t) as Hall. rewrite Forall_forall in Hall.
      now apply Hall.
    + destruct (50 <? List.length (chars t)); [|constructor].
      repeat constructor; now exists "."%char, EmptyString.
  - intros Herrors.
    unfold apply_replacements, bindM, get_prs, lift, raise.
    cbn [fst snd]. rewrite Hload. fold inventory. fold errors.
    destruct (nonempty errors) eqn:Hne;
      [|apply nonempty_false in Hne; contradiction].
    unfold print at 1. unfold emit. cbn [fst snd].
    rewrite for_each_print. cbn [fst snd print emit].
    unfold validation_report. rewrite !map_app, <- !app_assoc, map_map.
    reflexivity.
Qed.

Lemma for_each_printing {A} (f : A -> string) (l : list A)
    (w : Prs * list (event Prs)) :
  for_each l (fun (a : A) (w : Prs * list (event Prs)) =>
                (Ok tt, (fst w, snd w ++ [@Print Prs (f a)]))) w
  = (Ok tt, (fst w, snd w ++ map (fun a => @Print Prs (f a)) l)).
Proof. exact (for_each_print f l w). Qed.













End Engine.

Lemma validation_precedes_mutation_witness :
  let inventory :=
    ReplaceExample.extract_text_inventory ReplaceExample.deck in
  let errors :=
    [ "形状 'shape-5' 在 'slide-0' 上未找到。 未定义 replacements 的形状：shape-1 ('Body')";
      "幻灯片 'slide-9' 在 inventory 中未找到" ] in
  (forall error,
     In error errors
     <-> key_error inventory
           [("slide-0", [("shape-0", Some ["New title"]); ("shape-5", None)]);
            ("slide-9", [])] error)
  /\ chars (preview "Quarterly results for the financial year 2024, final")
     = chars "Quarterly results for the financial year 2024, fin"
       ++ ["."; "."; "."]
  /\ exists lines,
       ReplaceExample.run_example ReplaceExample.half_addressed
       = (Raise (Exn "ValueError" "发现 2 个验证错误"),
          (ReplaceExample.deck, map (@Print ReplaceExample.Deck) lines))
       /\ In ("  - " +++ nth 0 errors EmptyString) lines
       /\ In ("  - " +++ nth 1 errors EmptyString) lines.
Proof.
  destruct (@validation_precedes_mutation ReplaceExample.Deck nat string
              ReplaceExample.extract_text_inventory ReplaceExample.n_slides
              ReplaceExample.text_frame_clear
              ReplaceExample.apply_paragraph_properties ReplaceExample.fmt_2f
              ReplaceExample.deck ReplaceExample.half_addressed
              [("slide-0", [("shape-0", Some ["New title"]); ("shape-5", None)]);
               ("slide-9", [])]
              "out.pptx" [] eq_refl)
    as (Herrors & Hpreview & Hrun).
  split; [exact Herrors|]. split.
  - rewrite Hpreview. reflexivity.
  - eexists. split.
    + apply Hrun. vm_compute. discriminate.
    + vm_compute. auto.
Defined.


End ReplaceFacts.

(* ================================================================== *)
(** * Further properties of the scripts                                *)
(* ================================================================== *)

(** ** The GIF builder: deduplication, quantization, emoji reduction *)

Module GifBuilderExtra.
Import Py GifBuilder GifSpec ListSpec.

Lemma subsequence_refl {A} (l : list A) : subsequence l l.
Proof. induction l; [apply subsequence_nil|now apply subsequence_keep]. Qed.

Section Dedup.
Variable Frame Score : Type.
Variable similarity : Frame -> Frame -> result Score.
Variable score_lt : Score -> float -> bool.

Lemma dedup_loop_accounts threshold todo :
  forall deduplicated removed d' removed',
    dedup_loop similarity score_lt threshold todo deduplicated removed
      = Ok (d', removed') ->
    exists kept,
      d' = deduplicated ++ kept
      /\ subsequence kept todo
      /\ removed' + List.length kept = removed + List.length todo.
Proof.
  induction todo as [|curr todo IH]; simpl; intros d r d' r' H.
  - injection H as <- <-. exists []. rewrite app_nil_r.
    split; [reflexivity|split; [apply subsequence_nil|simpl; lia]].
  - destruct (last_item d) as [prev|e]; simpl in H; [|discriminate].
    destruct (similarity prev curr) as [s|e]; simpl in H; [|discriminate].
    destruct (score_lt s threshold).
    + apply IH in H. destruct H as (kept & -> & Hsub & Hlen).
      exists (curr :: kept). rewrite <- app_assoc.
      split; [reflexivity|split; [now apply subsequence_keep|simpl in *; lia]].
    + apply IH in H. destruct H as (kept & -> & Hsub & Hlen).
      exists kept.
      split; [reflexivity|split; [now apply subsequence_drop|simpl in *; lia]].
Qed.

Lemma deduplicate_frames_count (self self' : GIFBuilder Frame)
    (threshold : float) (removed : nat) :
  deduplicate_frames similarity score_lt self threshold = Ok (removed, self') ->
  removed + List.length (frames self') = List.length (frames self)
  /\ width self' = width self /\ height self' = height self
  /\ fps self' = fps self.
Proof.
  unfold deduplicate_frames.
  destruct (List.length (frames self) <? 2).
  - intros [= <- <-]. repeat split. 
  - destruct (frames self) as [|first rest]; [discriminate|].
    destruct (dedup_loop similarity score_lt threshold rest [first] 0)
      as [[d n]|e] eqn:Hloop; cbn [bind fst snd]; [|discriminate].
    intros [= <- <-]. apply dedup_loop_accounts in Hloop.
    destruct Hloop as (kept & -> & _ & Hn).
    cbn [set_frames frames width height fps List.length app] in *.
    split; [lia|]. repeat split.
Qed.

(** X1. [deduplicate_frames] accounts for every frame: the number it
    returns plus the number of frames it leaves is the number there
    were; the frames left are a subsequence of the original ones and
    begin with the same first frame; the canvas size and the frame
    rate are untouched. *)
Theorem deduplicate_frames_accounts (self self' : GIFBuilder Frame)
    (threshold : float) (removed : nat) :
  deduplicate_frames similarity score_lt self threshold = Ok (removed, self') ->
  removed + List.length (frames self') = List.length (frames self)
  /\ subsequence (frames self') (frames self)
  /\ hd_error (frames self') = hd_error (frames self)
  /\ width self' = width self /\ height self' = height self
  /\ fps self' = fps self.
Proof.
  unfold deduplicate_frames.
  destruct (List.length (frames self) <? 2) eqn:Hlen.
  - intros [= <- <-]. split; [reflexivity|]. split; [apply subsequence_refl|].
    repeat split; reflexivity.
  - destruct (frames self) as [|first rest] eqn:Hf; [discriminate|].
    destruct (dedup_loop similarity score_lt threshold rest [first] 0)
      as [[d n]|e] eqn:Hloop; simpl; [|discriminate].
    intros [= <- <-].
    destruct (dedup_loop_accounts _ _ _ _ Hloop) as (kept & -> & Hsub & Hn).
    simpl in *. split; [lia|]. split; [now apply subsequence_keep|].
    repeat split; reflexivity.
Qed.

(** X2. In the frames [deduplicate_frames] leaves, every frame after
    the first was compared with the frame kept before it and found
    below the threshold: no two neighbours are near-duplicates. *)
Theorem deduplicate_frames_leaves_distinct_neighbours
    (self self' : GIFBuilder Frame) (threshold : float) (removed : nat) :
  deduplicate_frames similarity score_lt self threshold = Ok (removed, self') ->
  2 <= List.length (frames self) ->
  match frames self' with
  | first :: rest => distinct_run similarity score_lt threshold first rest
  | [] => False
  end.
Proof.
  unfold deduplicate_frames. intros H Hlen.
  destruct (List.length (frames self) <? 2) eqn:E;
    [apply Nat.ltb_lt in E; lia|].
  destruct (frames self) as [|first rest] eqn:Hf; [discriminate|].
  destruct (dedup_loop similarity score_lt threshold rest [first] 0)
    as [[d n]|e] eqn:Hloop; simpl in H; [|discriminate].
  injection H as <- <-.
  eapply GifBuilderFacts.dedup_loop_keeps_run in Hloop; [|reflexivity].
  destruct Hloop as (kept & -> & Hrun). exact Hrun.
Qed.

End Dedup.

Lemma deduplicate_frames_accounts_witness :
  2 + List.length (frames GifExample.flicker_deduplicated)
    = List.length (frames GifExample.flicker)
  /\ subsequence (frames GifExample.flicker_deduplicated)
       (frames GifExample.flicker)
  /\ hd_error (frames GifExample.flicker_deduplicated)
     = hd_error (frames GifExample.flicker)
  /\ width GifExample.flicker_deduplicated = width GifExample.flicker
  /\ height GifExample.flicker_deduplicated = height GifExample.flicker
  /\ fps GifExample.flicker_deduplicated = fps GifExample.flicker.
Proof.
  apply (@deduplicate_frames_accounts _ _ GifExample.similarity
           GifExample.score_lt GifExample.flicker
           GifExample.flicker_deduplicated 0.9995%float 2).
  vm_compute; reflexivity.
Defined.

Lemma deduplicate_frames_leaves_distinct_neighbours_witness :
  match frames GifExample.flicker_deduplicated with
  | first :: rest =>
      distinct_run GifExample.similarity GifExample.score_lt 0.9995%float
        first rest
  | [] => False
  end.
Proof.
  apply (@deduplicate_frames_leaves_distinct_neighbours _ _
           GifExample.similarity GifExample.score_lt GifExample.flicker
           GifExample.flicker_deduplicated 0.9995%float 2).
  - vm_compute; reflexivity.
  - vm_compute; lia.
Defined.

(** [range(start, stop, step)] element by element: its length is the
    rounded-up quotient of [stop - start] by [step]. *)
Lemma range_fuel_stride fuel step : 1 <= step -> forall start stop,
  stop - start <= fuel ->
  range_fuel fuel start stop step
  = map (fun j => start + j * step) (seq 0 ((stop - start + step - 1) / step)).
Proof.
  intros Hstep. induction fuel as [|fuel IH]; intros start stop Hf.
  - replace (stop - start) with 0 by lia.
    rewrite Nat.div_small by lia. reflexivity.
  - cbn [range_fuel]. destruct (start <? stop) eqn:E.
    + apply Nat.ltb_lt in E. rewrite IH by lia.
      assert (Hc : (stop - start + step - 1) / step
                   = S ((stop - (start + step) + step - 1) / step)).
      { destruct (Nat.le_gt_cases step (stop - start)) as [Hd|Hd].
        - replace (stop - start + step - 1)
            with ((stop - (start + step) + step - 1) + 1 * step) by lia.
          rewrite Nat.div_add by lia. lia.
        - replace (stop - (start + step)) with 0 by lia.
          rewrite (Nat.div_small (0 + step - 1)) by lia.
          symmetry. apply Nat.div_unique with (r := stop - start - 1); lia. }
      rewrite Hc. cbn [seq map]. f_equal; [lia|].
      rewrite <- seq_shift, map_map. apply map_ext. intros j. lia.
    + apply Nat.ltb_ge in E. replace (stop - start) with 0 by lia.
      rewrite Nat.div_small by lia. reflexivity.
Qed.

Lemma getitems_length {A} (l : list A) (idxs : list nat) : forall r,
  getitems l idxs = Ok r -> List.length r = List.length idxs.
Proof.
  induction idxs as [|i idxs IH]; simpl; intros r H.
  - now injection H as <-.
  - destruct (getitem l i); simpl in H; [|discriminate].
    destruct (getitems l idxs); simpl in H; [|discriminate].
    injection H as <-. simpl. f_equal. now apply IH.
Qed.

(** Lines 214-217: keeping every [max(1, n // 12)]-th frame of more
    than twelve. *)
Lemma emoji_stride_keeps {A} (l : list A) :
  12 < List.length l ->
  exists kept,
    getitems l (range 0 (List.length l) (Nat.max 1 (List.length l / 12)))
      = Ok kept
    /\ List.length kept
       = (List.length l + List.length l / 12 - 1) / (List.length l / 12)
    /\ 12 <= List.length kept <= 23.
Proof.
  set (n := List.length l). intros Hn.
  assert (Hk : 1 <= n / 12) by (apply Nat.div_le_lower_bound; lia).
  assert (Hlo : 12 * (n / 12) <= n) by (apply Nat.Div0.mul_div_le).
  assert (Hhi : n < 12 * S (n / 12))
    by (apply Nat.mul_succ_div_gt; lia).
  rewrite Nat.max_r by exact Hk.
  unfold range. rewrite range_fuel_stride by lia.
  rewrite Nat.sub_0_r.
  destruct (@GifSaveFacts.getitems_in_range A l
              (map (fun j => 0 + j * (n / 12))
                 (seq 0 ((n + n / 12 - 1) / (n / 12))))) as [kept Hkept].
  - apply Forall_forall. intros i Hi. apply in_map_iff in Hi.
    destruct Hi as (j & <- & Hj). apply in_seq in Hj. fold n.
    assert (Hq : (n / 12) * ((n + n / 12 - 1) / (n / 12)) <= n + n / 12 - 1)
      by (apply Nat.Div0.mul_div_le).
    nia.
  - exists kept. split; [exact Hkept|].
    apply getitems_length in Hkept. rewrite length_map, length_seq in Hkept.
    split; [exact Hkept|]. rewrite Hkept. split.
    + apply Nat.div_le_lower_bound; lia.
    + apply Nat.lt_succ_r. apply Nat.Div0.div_lt_upper_bound. lia.
Qed.

Lemma map_result_pointwise {A B} (f : A -> result B) (l : list A) : forall r,
  map_result f l = Ok r -> Forall2 (fun a b => f a = Ok b) l r.
Proof.
  induction l as [|a l IH]; simpl; intros r H.
  - injection H as <-. constructor.
  - destruct (f a) as [b|] eqn:Ea; simpl in H; [|discriminate].
    destruct (map_result f l) as [bs|]; simpl in H; [|discriminate].
    injection H as <-. constructor; [exact Ea|now apply IH].
Qed.

Lemma getitems_members {A} (l : list A) (idxs : list nat) : forall r,
  getitems l idxs = Ok r -> Forall (fun a => In a l) r.
Proof.
  induction idxs as [|i idxs IH]; simpl; intros r Hr.
  - injection Hr as <-. constructor.
  - unfold getitem in Hr.
    destruct (nth_error l i) as [a|] eqn:Ha; cbn [bind] in Hr; [|discriminate].
    destruct (getitems l idxs) as [rest|]; cbn [bind] in Hr; [|discriminate].
    injection Hr as <-. constructor; [|now apply IH].
    eapply nth_error_In; eassumption.
Qed.

Section Save.
Variable Frame Score Palette : Type.
Variable similarity : Frame -> Frame -> result Score.
Variable score_lt : Score -> float -> bool.
Variable resize : Frame -> Z -> Z -> result Frame.
Variable build_palette : list Frame -> Z -> result Palette.
Variable apply_palette : Palette -> Frame -> result Frame.
Variable quantize : Z -> Frame -> result Frame.
Variable imwrite_size : string -> list Frame -> Q -> result Z.
Variable path_str : string -> string.
Variable fmt_f : nat -> Q -> string.

(** X3. [optimize_colors] never indexes outside the frame list: an
    exception that leaves it is one Pillow raised, while building the
    palette or on one of the frames.  When it returns, it gives the
    frames back one for one, in their order.  With the global palette
    and more than one frame, every frame is mapped onto the one palette
    built from [min(5, n)] sampled frames, the first of them frame 0;
    otherwise each frame is quantized on its own. *)
Theorem optimize_colors_maps_every_frame (self : GIFBuilder Frame)
    (num_colors : Z) (use_global_palette : bool) :
  match optimize_colors build_palette apply_palette quantize self num_colors
          use_global_palette with
  | Ok optimized =>
      List.length optimized = List.length (frames self)
      /\ (use_global_palette = true -> 1 < List.length (frames self) ->
          exists samples palette,
            List.length samples = Nat.min 5 (List.length (frames self))
            /\ hd_error samples = hd_error (frames self)
            /\ Forall (fun f => In f (frames self)) samples
            /\ build_palette samples num_colors = Ok palette
            /\ Forall2 (fun f q => apply_palette palette f = Ok q)
                 (frames self) optimized)
      /\ (use_global_palette = false \/ List.length (frames self) <= 1 ->
          Forall2 (fun f q => quantize num_colors f = Ok q)
            (frames self) optimized)
  | Raise e =>
      (exists samples,
         Forall (fun f => In f (frames self)) samples
         /\ build_palette samples num_colors = Raise e)
      \/ (exists palette f,
            In f (frames self) /\ apply_palette palette f = Raise e)
      \/ (exists f, In f (frames self) /\ quantize num_colors f = Raise e)
  end.
Proof.
  unfold optimize_colors.
  set (n := List.length (frames self)).
  destruct (use_global_palette && (1 <? n)) eqn:E.
  - apply andb_prop in E. destruct E as [Hg E]. apply Nat.ltb_lt in E.
    destruct (GifSaveFacts.sample_frames_returns self E) as [r Hr].
    fold n in Hr. rewrite Hr. cbn [bind].
    pose proof (getitems_members _ _ Hr) as Hmem.
    destruct (build_palette r num_colors) as [palette|e] eqn:Hpal; cbn [bind].
    + destruct (map_result (apply_palette palette) (frames self))
        as [optimized|e] eqn:Hmap.
      * split; [now apply GifSaveFacts.map_result_length in Hmap|]. split.
        -- intros _ _. exists r, palette.
           split; [apply getitems_length in Hr;
                   now rewrite length_map, length_seq in Hr|].
           split; [|split; [exact Hmem|split; [exact Hpal|]]].
           ++ destruct (Nat.min 5 n) as [|m] eqn:Hm; [lia|].
              cbn [seq map getitems] in Hr. rewrite Nat.mul_0_l in Hr.
              rewrite Nat.Div0.div_0_l in Hr. unfold getitem in Hr.
              destruct (frames self) as [|f0 fs]; [simpl in n; lia|].
              cbn [nth_error bind] in Hr.
              destruct (getitems (f0 :: fs) _) as [rest|]; cbn [bind] in Hr;
                [|discriminate].
              now injection Hr as <-.
           ++ now apply map_result_pointwise.
        -- intros [->|Hle]; [discriminate|lia].
      * right. left. apply GifSaveFacts.map_result_raises in Hmap.
        destruct Hmap as (f & Hf & Hraise). now exists palette, f.
    + left. now exists r.
  - destruct (map_result (quantize num_colors) (frames self))
      as [optimized|e] eqn:Hmap.
    + split; [now apply GifSaveFacts.map_result_length in Hmap|]. split.
      * intros -> Hn. apply Nat.ltb_lt in Hn. rewrite Hn in E. discriminate.
      * intros _. now apply map_result_pointwise.
    + right. right. now apply GifSaveFacts.map_result_raises in Hmap.
Qed.

(** Lines 193-205: what the resizing step leaves when it returns. *)
Lemma emoji_resize_cases (self self0 : GIFBuilder Frame)
    (out out0 : list string) :
  (if (128 <? width self)%Z || (128 <? height self)%Z then
     resized_frames <-
       map_result (fun frame => resize frame 128 128) (frames self) ;;
     Ok (set_frames (set_size self 128 128) resized_frames,
         out ++ ["  将尺寸从 " +++ str_of_Z (width self) +++ "x"
                 +++ str_of_Z (height self)
                 +++ " 调整为 128x128 以适配表情符号"])
   else Ok (self, out)) = Ok (self0, out0) ->
  List.length (frames self0) = List.length (frames self)
  /\ (width self0 <= 128)%Z /\ (height self0 <= 128)%Z
  /\ fps self0 = fps self.
Proof.
  destruct ((128 <? width self)%Z || (128 <? height self)%Z) eqn:Hsz.
  - destruct (map_result _ _) as [resized|e] eqn:Hres; cbn [bind];
      [|discriminate].
    intros [= <- _]. cbn [frames set_frames set_size width height fps].
    apply GifSaveFacts.map_result_length in Hres.
    repeat split; try assumption; lia.
  - intros [= <- _]. apply orb_false_elim in Hsz. destruct Hsz as [Hw Hh].
    apply Z.ltb_ge in Hw, Hh. repeat split; assumption.
Qed.

(** X4. A save for emoji use, without duplicate removal, that returns
    has kept all of up to twelve frames, and has thinned more than
    twelve, [n], to every [n // 12]-th: the rounded-up quotient of [n]
    by [n // 12], which is at least 12 and can be as much as 23.  The
    report counts the frames the builder is left with, at most
    128x128, and [min(num_colors, 48)] colors. *)
Theorem save_emoji_frame_budget (self self' : GIFBuilder Frame)
    (output_path : string) (num_colors : Z) (i : info) (out : list string) :
  save similarity score_lt resize build_palette apply_palette quantize
    imwrite_size path_str fmt_f self output_path num_colors true false
    = Ok (i, self', out) ->
  frame_count i = List.length (frames self')
  /\ (List.length (frames self) <= 12 ->
      frame_count i = List.length (frames self))
  /\ (12 < List.length (frames self) ->
      frame_count i
      = (List.length (frames self) + List.length (frames self) / 12 - 1)
        / (List.length (frames self) / 12)
      /\ 12 <= frame_count i <= 23)
  /\ colors i = Z.min num_colors 48
  /\ (width self' <= 128)%Z /\ (height self' <= 128)%Z.
Proof.
  intros Hrun. unfold save in Hrun.
  destruct (frames self) as [|f0 fs] eqn:Hfr; [discriminate|].
  rewrite <- Hfr in *. clear Hfr f0 fs. cbn [bind fst snd] in Hrun.
  match type of Hrun with
  | context [bind (if ?c then ?a else ?b) _] =>
      destruct (if c then a else b) as [[self1 out1]|e] eqn:Hsized;
      cbn [bind fst snd] in Hrun; [|discriminate]
  end.
  apply emoji_resize_cases in Hsized.
  destruct Hsized as (Hlen & Hw & Hh & Hf). rewrite <- Hlen. clear Hlen Hf.
  destruct (12 <? List.length (frames self1)) eqn:Hn.
  - apply Nat.ltb_lt in Hn.
    destruct (emoji_stride_keeps (frames self1) Hn) as (kept & Hk & Hlk & Hb).
    rewrite Hk in Hrun. cbn [bind] in Hrun.
    destruct (optimize_colors build_palette apply_palette quantize _ _ true)
      as [opt|e] eqn:Hopt; cbn [bind] in Hrun; [|discriminate].
    apply GifSaveFacts.optimize_colors_length in Hopt.
    cbn [frames set_frames] in Hopt.
    destruct (fps _ =? 0)%Z; [discriminate|].
    destruct (imwrite_size _ _ _) as [z|e]; cbn [bind] in Hrun; [|discriminate].
    injection Hrun as <- <- _.
    cbn [frame_count colors frames set_frames width height].
    rewrite Hopt.
    split; [reflexivity|]. split; [lia|]. split; [intros _; now split|].
    split; [reflexivity|]. split; assumption.
  - apply Nat.ltb_ge in Hn. cbn [bind] in Hrun.
    destruct (optimize_colors build_palette apply_palette quantize _ _ true)
      as [opt|e] eqn:Hopt; cbn [bind] in Hrun; [|discriminate].
    apply GifSaveFacts.optimize_colors_length in Hopt.
    destruct (fps _ =? 0)%Z; [discriminate|].
    destruct (imwrite_size _ _ _) as [z|e]; cbn [bind] in Hrun; [|discriminate].
    injection Hrun as <- <- _.
    cbn [frame_count colors].
    rewrite Hopt.
    split; [reflexivity|]. split; [reflexivity|]. split; [lia|].
    split; [reflexivity|]. split; assumption.
Qed.

(** X27. Saving for emoji use changes the builder once: [save]
    leaves the builder resized and thinned, and a second [save] of the
    builder it has left, with the same arguments, finds nothing more
    to resize or to drop; it leaves the builder as it is and returns
    the same report. *)
Theorem save_emoji_again (self self1 : GIFBuilder Frame)
    (output_path : string) (num_colors : Z) (i : info) (out : list string) :
  save similarity score_lt resize build_palette apply_palette quantize
    imwrite_size path_str fmt_f self output_path num_colors true false
    = Ok (i, self1, out) ->
  exists out2,
    save similarity score_lt resize build_palette apply_palette quantize
      imwrite_size path_str fmt_f self1 output_path num_colors true false
      = Ok (i, self1, out2).
Proof.
  intros Hrun1. unfold save in Hrun1.
  destruct (frames self) as [|f0 fs] eqn:Hfr; [discriminate|].
  assert (Hne0 : List.length (frames self) <> 0) by (rewrite Hfr; discriminate).
  clear Hfr f0 fs.
  cbn [bind fst snd] in Hrun1.
  match type of Hrun1 with
  | context [bind (if ?c then ?a else ?b) _] =>
      destruct (if c then a else b) as [[self0 out0]|e] eqn:Hsized;
      cbn [bind fst snd] in Hrun1; [|discriminate]
  end.
  apply emoji_resize_cases in Hsized.
  destruct Hsized as (Hlen0 & Hw0 & Hh0 & _).
  rewrite <- Hlen0 in Hne0. clear Hlen0.
  assert (Hagain : forall self2 : GIFBuilder Frame,
            width self2 = width self0 -> height self2 = height self0 ->
            fps self2 = fps self0 -> frames self2 <> [] ->
            List.length (frames self2) <= 23 ->
            forall opt z,
              optimize_colors build_palette apply_palette quantize self2
                (Z.min num_colors 48) true = Ok opt ->
              (fps self2 =? 0)%Z = false ->
              imwrite_size (path_str output_path) opt
                (Qof 1000 / Qof (fps self2))%Q = Ok z ->
              exists out2 i2,
                save similarity score_lt resize build_palette apply_palette
                  quantize imwrite_size path_str fmt_f self2 output_path
                  num_colors true false = Ok (i2, self2, out2)
                /\ i2 = {| path := path_str output_path;
                           size_kb := (Qof z / Qof 1024)%Q;
                           size_mb := (Qof z / Qof 1024 / Qof 1024)%Q;
                           dimensions :=
                             str_of_Z (width self2) +++ "x"
                             +++ str_of_Z (height self2);
                           frame_count := List.length opt;
                           info_fps := fps self2;
                           duration_seconds :=
                             (Qof (Z.of_nat (List.length opt))
                              / Qof (fps self2))%Q;
                           colors := Z.min num_colors 48 |}).
  { intros self2 Hw Hh Hf Hne2 Hlen opt z Hopt Hfps Hz. unfold save.
    destruct (frames self2) as [|g0 gs] eqn:Hfr2; [contradiction|].
    rewrite <- Hfr2 in Hlen.
    assert (Hsmall2 : (128 <? width self2)%Z || (128 <? height self2)%Z = false).
    { rewrite Hw, Hh. apply orb_false_intro; apply Z.ltb_ge; assumption. }
    cbn [bind fst snd]. rewrite Hsmall2. cbn [bind fst snd].
    destruct (12 <? List.length (frames self2)) eqn:Hn.
    - apply Nat.ltb_lt in Hn.
      assert (Hone : Nat.max 1 (List.length (frames self2) / 12) = 1).
      { assert (List.length (frames self2) / 12 = 1)
          by (symmetry;
              apply Nat.div_unique with (r := List.length (frames self2) - 12);
              lia).
        lia. }
      rewrite Hone, GifSaveFacts.getitems_all. cbn [bind].
      assert (Hsame : set_frames self2 (frames self2) = self2)
        by (now destruct self2).
      rewrite Hsame, Hopt. cbn [bind]. rewrite Hfps, Hz. cbn [bind].
      do 2 eexists. split; reflexivity.
    - cbn [bind]. rewrite Hopt. cbn [bind]. rewrite Hfps, Hz. cbn [bind].
      do 2 eexists. split; reflexivity. }
  revert Hrun1.
  destruct (12 <? List.length (frames self0)) eqn:Hn.
  - apply Nat.ltb_lt in Hn.
    destruct (emoji_stride_keeps (frames self0) Hn) as (kept & Hk & _ & Hb).
    rewrite Hk. cbn [bind].
    destruct (optimize_colors build_palette apply_palette quantize
                (set_frames self0 kept) (Z.min num_colors 48) true)
      as [opt|e] eqn:Hopt; cbn [bind]; [|discriminate].
    destruct (fps (set_frames self0 kept) =? 0)%Z eqn:Hfps; [discriminate|].
    destruct (imwrite_size (path_str output_path) opt
                (Qof 1000 / Qof (fps (set_frames self0 kept)))%Q)
      as [z|e] eqn:Hz; cbn [bind]; [|discriminate].
    intros [= <- <- <-].
    destruct (Hagain (set_frames self0 kept) eq_refl eq_refl eq_refl)
      with (opt := opt) (z := z) as (out2 & i2 & Hrun & ->);
      try assumption.
    + cbn [set_frames frames]. destruct kept; [cbn in Hb; lia|discriminate].
    + cbn [set_frames frames]. lia.
    + exists out2. exact Hrun.
  - apply Nat.ltb_ge in Hn. cbn [bind].
    destruct (optimize_colors build_palette apply_palette quantize self0
                (Z.min num_colors 48) true)
      as [opt|e] eqn:Hopt; cbn [bind]; [|discriminate].
    destruct (fps self0 =? 0)%Z eqn:Hfps; [discriminate|].
    destruct (imwrite_size (path_str output_path) opt
                (Qof 1000 / Qof (fps self0))%Q)
      as [z|e] eqn:Hz; cbn [bind]; [|discriminate].
    intros [= <- <- <-].
    destruct (Hagain self0 eq_refl eq_refl eq_refl) with (opt := opt) (z := z)
      as (out2 & i2 & Hrun & ->); try assumption.
    + destruct (frames self0); [contradiction|discriminate].
    + lia.
    + exists out2. exact Hrun.
Qed.

(** X28. [save] with [remove_duplicates] and without the emoji
    option deduplicates the builder for good: the builder is left as
    [deduplicate_frames] with threshold 0.9995 leaves it, the report
    counts the frames that remain, which with the frames removed make
    up the frames there were, the colors and the size are those
    given; and the removal is announced, as the first line printed,
    exactly when a frame was removed. *)
Theorem save_removes_duplicates (self self1 : GIFBuilder Frame)
    (output_path : string) (num_colors : Z) (i : info) (out : list string) :
  save similarity score_lt resize build_palette apply_palette quantize
    imwrite_size path_str fmt_f self output_path num_colors false true
    = Ok (i, self1, out) ->
  exists removed,
    deduplicate_frames similarity score_lt self 0.9995%float
      = Ok (removed, self1)
    /\ frame_count i = List.length (frames self1)
    /\ frame_count i + removed = List.length (frames self)
    /\ colors i = num_colors
    /\ dimensions i = str_of_Z (width self) +++ "x" +++ str_of_Z (height self)
    /\ hd_error out
       = Some (if 0 <? removed
               then "  移除了 " +++ str_of_nat removed
                    +++ " 个几乎相同的帧（保留了微妙动画）"
               else nl +++ "✓ GIF 创建成功！").
Proof.
  intros Hrun. unfold save in Hrun.
  destruct (frames self) as [|f0 fs] eqn:Hfr; [discriminate|].
  destruct (deduplicate_frames similarity score_lt self 0.9995%float)
    as [[removed self']|e] eqn:Hdedup; cbn [bind fst snd] in Hrun;
    [|discriminate].
  destruct (optimize_colors build_palette apply_palette quantize self'
              num_colors true) as [opt|e] eqn:Hopt; cbn [bind] in Hrun;
    [|discriminate].
  apply GifSaveFacts.optimize_colors_length in Hopt. rename Hopt into Hlen.
  destruct (fps self' =? 0)%Z; [discriminate|].
  destruct (imwrite_size _ _ _) as [z|e]; cbn [bind] in Hrun; [|discriminate].
  injection Hrun as <- <- <-.
  pose proof Hdedup as Hd2. apply deduplicate_frames_count in Hd2.
  destruct Hd2 as (Hcount & Hw & Hh & _).
  exists removed. split; [reflexivity|].
  cbn [frame_count colors dimensions].
  split; [exact Hlen|]. split; [rewrite Hlen, <- Hfr; lia|].
  split; [reflexivity|]. split; [now rewrite Hw, Hh|].
  destruct (0 <? removed); reflexivity.
Qed.

End Save.

Lemma save_removes_duplicates_witness :
  exists i self1 out,
    GifExample.save_example GifExample.flicker 128 false true
      = Ok (i, self1, out)
    /\ frame_count i = 3 /\ frames self1 = frames GifExample.flicker_deduplicated
    /\ hd_error out = Some "  移除了 2 个几乎相同的帧（保留了微妙动画）".
Proof.
  destruct (GifExample.save_example GifExample.flicker 128 false true)
    as [[[i self1] out]|e] eqn:E; [|vm_compute in E; discriminate].
  destruct (@save_removes_duplicates _ _ _ GifExample.similarity
              GifExample.score_lt GifExample.resize GifExample.build_palette
              GifExample.apply_palette GifExample.quantize
              GifExample.imwrite_size GifExample.path_str GifExample.fmt_f
              GifExample.flicker self1 "emoji.gif" 128%Z i out E)
    as (removed & Hdedup & Hcount & _ & _ & _ & Hout).
  assert (Hd : deduplicate_frames GifExample.similarity GifExample.score_lt
                 GifExample.flicker 0.9995%float
               = Ok (2, GifExample.flicker_deduplicated))
    by (vm_compute; reflexivity).
  rewrite Hd in Hdedup. injection Hdedup as <- <-.
  exists i, GifExample.flicker_deduplicated, out.
  split; [reflexivity|]. split; [exact Hcount|]. split; [reflexivity|exact Hout].
Defined.

Lemma save_emoji_again_witness :
  exists i self1 out out2,
    GifExample.save_example GifExample.canvas_200_20 128 true false
      = Ok (i, self1, out)
    /\ GifExample.save_example self1 128 true false = Ok (i, self1, out2).
Proof.
  destruct (GifExample.save_example GifExample.canvas_200_20 128 true false)
    as [[[i self1] out]|e] eqn:E; [|vm_compute in E; discriminate].
  destruct (@save_emoji_again _ _ _ GifExample.similarity
              GifExample.score_lt GifExample.resize GifExample.build_palette
              GifExample.apply_palette GifExample.quantize
              GifExample.imwrite_size GifExample.path_str GifExample.fmt_f
              GifExample.canvas_200_20 self1 "emoji.gif" 128%Z i out E)
    as [out2 Hrun].
  exists i, self1, out, out2. split; [reflexivity|exact Hrun].
Defined.

Lemma save_emoji_frame_budget_witness :
  exists i self' out,
    GifExample.save_example GifExample.canvas_200_20 128 true false
      = Ok (i, self', out)
    /\ frame_count i = 20 /\ List.length (frames self') = 20
    /\ colors i = 48%Z
    /\ (width self' <= 128)%Z /\ (height self' <= 128)%Z.
Proof.
  destruct (GifExample.save_example GifExample.canvas_200_20 128 true false)
    as [[[i self'] out]|e] eqn:E; [|vm_compute in E; discriminate].
  destruct (@save_emoji_frame_budget _ _ _ GifExample.similarity
              GifExample.score_lt GifExample.resize GifExample.build_palette
              GifExample.apply_palette GifExample.quantize
              GifExample.imwrite_size GifExample.path_str GifExample.fmt_f
              GifExample.canvas_200_20 self' "emoji.gif" 128%Z i out E)
    as (Hcount & _ & Hmany & Hcolors & Hw & Hh).
  destruct Hmany as [Hfc _]; [vm_compute; lia|].
  exists i, self', out. split; [reflexivity|].
  split; [exact Hfc|]. split; [now rewrite <- Hcount|].
  split; [exact Hcolors|]. split; assumption.
Defined.

End GifBuilderExtra.

(** ** The thumbnail grids: chunks, file names, layout *)

Module ThumbnailExtra.
Import Py Thumbnail ThumbnailSpec.

Lemma slices_cover {A} (l : list A) (m : nat) : 0 < m -> forall fuel start,
  List.length l - start <= fuel ->
  flat_map (fun s => slice l s (Nat.min (s + m) (List.length l)))
    (range_fuel fuel start (List.length l) m)
  = skipn start l.
Proof.
  intros Hm. set (n := List.length l).
  induction fuel as [|fuel IH]; intros start Hf.
  - cbn [range_fuel flat_map]. symmetry. apply skipn_all2. fold n. lia.
  - cbn [range_fuel]. destruct (start <? n) eqn:E.
    + apply Nat.ltb_lt in E. cbn [flat_map]. rewrite IH by lia.
      unfold slice.
      destruct (Nat.le_gt_cases (start + m) n) as [Hle|Hgt].
      * rewrite Nat.min_l by lia.
        replace (start + m - start) with m by lia.
        replace (start + m) with (m + start) by lia.
        rewrite <- skipn_skipn. apply firstn_skipn.
      * rewrite Nat.min_r by lia.
        rewrite firstn_all2 by (rewrite length_skipn; fold n; lia).
        rewrite (skipn_all2 (n := start + m)) by (fold n; lia).
        apply app_nil_r.
    + apply Nat.ltb_ge in E. cbn [flat_map]. symmetry.
      apply skipn_all2. fold n. lia.
Qed.

Section Grids.
Variable R : Type.
Variable font_size_of : Z -> Z.
Variable label_padding_of : Z -> Z.
Variable height_of : string -> Z -> Z.
Variable text_width : Z -> string -> Z.
Variable thumbnail_size : string -> Z -> Z -> Z * Z.

Lemma place_thumbnails_pasted cols width height font_size label_padding
    start_slide_num regions (image_paths : list string) : forall i,
  flat_map (@pasted_of R)
    (place_thumbnails text_width thumbnail_size image_paths i cols width height
       font_size label_padding start_slide_num regions)
  = image_paths.
Proof.
  induction image_paths as [|img_path rest IH]; intros i; [reflexivity|].
  cbn [place_thumbnails].
  destruct (thumbnail_size img_path width height) as [w h].
  cbn [app flat_map pasted_of]. rewrite flat_map_app, IH.
  cbn [BORDER_WIDTH Z.ltb Z.compare flat_map pasted_of app]. reflexivity.
Qed.

Lemma create_grid_pasted (chunk : list string) (cols width start : Z) regions
    (g : grid R) :
  create_grid font_size_of label_padding_of height_of text_width
    thumbnail_size chunk cols width start regions = Ok g ->
  pasted g = chunk.
Proof.
  intros Hg. apply ThumbnailFacts.create_grid_returned in Hg.
  destruct Hg as (first & _ & _ & _ & _ & _ & _ & Hops).
  unfold pasted. rewrite Hops. apply place_thumbnails_pasted.
Qed.

(** The grids [create_grids] returns show, one after the other, the
    chunks of the deck. *)
Lemma create_grids_chunks (image_paths : list string) (cols width : Z)
    (output_path : out_path) regions (grids : list (string * grid R)) :
  create_grids font_size_of label_padding_of height_of text_width
    thumbnail_size image_paths cols width output_path regions = Ok grids ->
  map (fun fg => pasted (snd fg)) grids
  = map (fun s => slice image_paths s
                    (Nat.min (s + Z.to_nat (cols * (cols + 1)))
                       (List.length image_paths)))
      (range 0 (List.length image_paths) (Z.to_nat (cols * (cols + 1)))).
Proof.
  intros Hrun. apply ThumbnailFacts.create_grids_returned in Hrun.
  destruct Hrun as (_ & _ & Hgrids).
  induction Hgrids as [|s fg starts gs Hs _ IH]; cbn [map]; [reflexivity|].
  apply create_grid_pasted in Hs. now rewrite Hs, IH.
Qed.

(** X5. Whenever [create_grids] returns, the grids, read one after the
    other, show every image of the deck exactly once and in deck
    order; every grid shows at least one image and at most the
    capacity [cols * (cols + 1)], and there are as many grids as the
    rounded-up quotient of the deck size by the capacity. *)
Theorem create_grids_shows_every_image_once (image_paths : list string)
    (cols width : Z) (output_path : out_path) regions
    (grids : list (string * grid R)) :
  create_grids font_size_of label_padding_of height_of text_width
    thumbnail_size image_paths cols width output_path regions = Ok grids ->
  flat_map (fun fg => pasted (snd fg)) grids = image_paths
  /\ Forall (fun fg =>
               1 <= List.length (pasted (snd fg))
                 <= Z.to_nat (cols * (cols + 1))) grids
  /\ List.length grids
     = (List.length image_paths + Z.to_nat (cols * (cols + 1)) - 1)
       / Z.to_nat (cols * (cols + 1)).
Proof.
  intros Hrun. pose proof Hrun as Hchunks. apply create_grids_chunks in Hchunks.
  apply ThumbnailFacts.create_grids_returned in Hrun.
  destruct Hrun as (Hmax & Hnames & _).
  set (m := Z.to_nat (cols * (cols + 1))) in *.
  set (n := List.length image_paths) in *.
  assert (Hstarts : Forall (fun s => s < n) (range 0 n m))
    by apply ThumbnailFacts.range_fuel_in_range.
  split; [|split].
  - rewrite flat_map_concat_map, Hchunks, <- flat_map_concat_map.
    unfold range.
    exact (@slices_cover _ image_paths m Hmax (n - 0) 0 (le_n _)).
  - apply Forall_forall. intros fg Hfg.
    apply (in_map (fun fg => pasted (snd fg))) in Hfg.
    rewrite Hchunks in Hfg. apply in_map_iff in Hfg.
    destruct Hfg as (s & Hs & Hin). rewrite <- Hs.
    rewrite Forall_forall in Hstarts. apply Hstarts in Hin.
    rewrite ThumbnailFacts.slice_length by (fold n; lia). fold n. lia.
  - rewrite <- (length_map fst), Hnames, length_map, length_seq.
    unfold range. rewrite GifBuilderExtra.range_fuel_stride by lia.
    rewrite length_map, length_seq. now rewrite Nat.sub_0_r.
Qed.

(** X6. The files [create_grids] has written when it returns.  An
    empty deck gives no file; a deck that fits one grid gives the
    output path itself; a larger deck gives [stem-1], [stem-2], ... in
    the directory of the output path, numbered from 1 without a gap,
    and never the bare output path. *)
Theorem create_grids_file_names (image_paths : list string)
    (cols width : Z) (output_path : out_path) regions
    (grids : list (string * grid R)) :
  create_grids font_size_of label_padding_of height_of text_width
    thumbnail_size image_paths cols width output_path regions = Ok grids ->
  (image_paths = [] -> grids = [])
  /\ (1 <= List.length image_paths <= Z.to_nat (cols * (cols + 1)) ->
      map fst grids = [path_str output_path])
  /\ (Z.to_nat (cols * (cols + 1)) < List.length image_paths ->
      map fst grids
      = map (numbered output_path)
          (seq 1 ((List.length image_paths + Z.to_nat (cols * (cols + 1)) - 1)
                  / Z.to_nat (cols * (cols + 1))))).
Proof.
  intros Hrun. apply ThumbnailFacts.create_grids_returned in Hrun.
  destruct Hrun as (Hmax & Hnames & _).
  set (m := Z.to_nat (cols * (cols + 1))) in *.
  set (n := List.length image_paths) in *.
  unfold range in Hnames. rewrite GifBuilderExtra.range_fuel_stride in Hnames by lia.
  rewrite length_map, length_seq, Nat.sub_0_r in Hnames.
  split; [|split].
  - intros Hnil. assert (Hn : n = 0) by (unfold n; now rewrite Hnil).
    rewrite Hn, Nat.div_small in Hnames by lia.
    destruct grids; [reflexivity|discriminate].
  - intros Hn.
    assert (Hc : (n + m - 1) / m = 1)
      by (symmetry; apply Nat.div_unique with (r := n - 1); lia).
    rewrite Hc in Hnames. rewrite Hnames. cbn [seq map]. unfold grid_file.
    destruct (n <=? m) eqn:Hle; [reflexivity|].
    apply Nat.leb_gt in Hle. lia.
  - intros Hn. rewrite Hnames, <- seq_shift, map_map.
    apply map_ext. intros k. unfold grid_file.
    destruct (n <=? m) eqn:Hle; [apply Nat.leb_le in Hle; lia|].
    f_equal. lia.
Qed.

Lemma cells_apart (cols width height font_size label_padding k k' : Z)
    (b b' : box) :
  (0 < cols)%Z -> (0 <= font_size)%Z -> (0 <= label_padding)%Z ->
  (0 <= width)%Z -> (0 <= height)%Z -> (0 <= k < k')%Z ->
  in_cell cols width height font_size label_padding k b ->
  in_cell cols width height font_size label_padding k' b' ->
  apart b b'.
Proof.
  intros Hcols Hfs Hlp Hw Hh Hk.
  destruct b as [[[x0 y0] x1] y1]. destruct b' as [[[x0' y0'] x1'] y1'].
  unfold in_cell, apart, GRID_PADDING, BORDER_WIDTH.
  pose proof (Z.div_mod k cols ltac:(lia)) as Ek.
  pose proof (Z.div_mod k' cols ltac:(lia)) as Ek'.
  pose proof (Z.mod_pos_bound k cols Hcols) as Bk.
  pose proof (Z.mod_pos_bound k' cols Hcols) as Bk'.
  set (r := (k / cols)%Z) in *. set (c := (k mod cols)%Z) in *.
  set (r' := (k' / cols)%Z) in *. set (c' := (k' mod cols)%Z) in *.
  intros (Hx0 & Hx1 & Hy0 & Hy1) (Hx0' & Hx1' & Hy0' & Hy1').
  assert (Hrc : (r < r' \/ (r = r' /\ c < c'))%Z) by nia.
  destruct Hrc as [Hr|[Hr Hc]].
  - right. right. left.
    assert ((r + 1) * (height + font_size + label_padding * 2)
            <= r' * (height + font_size + label_padding * 2))%Z by nia.
    lia.
  - left. assert ((c + 1) * width <= c' * width)%Z by nia. lia.
Qed.

Lemma cell_on_canvas (cols width height font_size label_padding k n : Z)
    (b : box) (g : grid R) :
  (0 < cols)%Z -> (0 <= font_size)%Z -> (0 <= label_padding)%Z ->
  (0 <= width)%Z -> (0 <= height)%Z -> (0 <= k < n)%Z ->
  grid_w g = (cols * width + (cols + 1) * GRID_PADDING)%Z ->
  grid_h g = (((n + cols - 1) / cols) * (height + font_size + label_padding * 2)
              + ((n + cols - 1) / cols + 1) * GRID_PADDING)%Z ->
  in_cell cols width height font_size label_padding k b ->
  on_canvas g b.
Proof.
  intros Hcols Hfs Hlp Hw Hh Hk Hgw Hgh.
  destruct b as [[[x0 y0] x1] y1].
  unfold in_cell, on_canvas, GRID_PADDING, BORDER_WIDTH in *.
  rewrite Hgw, Hgh.
  pose proof (Z.div_mod k cols ltac:(lia)) as Ek.
  pose proof (Z.mod_pos_bound k cols Hcols) as Bk.
  assert (Hrows : (k / cols + 1 <= (n + cols - 1) / cols)%Z).
  { replace (k / cols + 1)%Z with ((k + 1 * cols) / cols)%Z
      by (rewrite Z.div_add by lia; reflexivity).
    apply Z.div_le_mono; lia. }
  assert (Hr0 : (0 <= k / cols)%Z) by (apply Z.div_pos; lia).
  set (r := (k / cols)%Z) in *. set (c := (k mod cols)%Z) in *.
  set (rows := ((n + cols - 1) / cols)%Z) in *.
  intros (Hx0 & Hx1 & Hy0 & Hy1).
  assert ((c + 1) * width <= cols * width)%Z by nia.
  assert ((r + 1) * (height + font_size + label_padding * 2)
          <= rows * (height + font_size + label_padding * 2))%Z by nia.
  assert (0 <= c * width)%Z by nia.
  assert (0 <= r * (height + font_size + label_padding * 2))%Z by nia.
  lia.
Qed.

Lemma place_thumbnails_cells cols width height font_size label_padding
    start_slide_num regions (image_paths : list string) :
  (0 < cols)%Z -> (0 <= font_size)%Z -> (0 <= label_padding)%Z ->
  (forall p, In p image_paths ->
     (0 <= fst (thumbnail_size p width height) <= width)%Z
     /\ (0 <= snd (thumbnail_size p width height) <= height)%Z) ->
  forall i, (0 <= i)%Z ->
    let bs := flat_map (@border_of R)
                (place_thumbnails text_width thumbnail_size image_paths i cols
                   width height font_size label_padding start_slide_num
                   regions) in
    List.length bs = List.length image_paths
    /\ Forall (fun b => exists k,
                 (i <= k < i + Z.of_nat (List.length image_paths))%Z
                 /\ in_cell cols width height font_size label_padding k b) bs
    /\ ForallOrdPairs apart bs.
Proof.
  intros Hcols Hfs Hlp.
  induction image_paths as [|img_path rest IH]; intros Hsize i Hi.
  - cbn. repeat split; constructor.
  - cbn [place_thumbnails].
    pose proof (Hsize img_path (or_introl eq_refl)) as Hwh.
    destruct (thumbnail_size img_path width height) as [w h].
    cbn [fst snd] in Hwh. destruct Hwh as [Hw Hh].
    cbn [app flat_map border_of BORDER_WIDTH Z.ltb Z.compare].
    destruct (IH (fun p Hp => Hsize p (or_intror Hp)) (i + 1)%Z ltac:(lia))
      as (Hlen & Hcells & Hapart).
    set (bs := flat_map (@border_of R) _) in *.
    assert (Hhead : in_cell cols width height font_size label_padding i
                      ((i mod cols * width + (i mod cols + 1) * GRID_PADDING
                        + (width - w) / 2 - BORDER_WIDTH)%Z,
                       (i / cols * (height + font_size + label_padding * 2)
                        + (i / cols + 1) * GRID_PADDING + label_padding
                        + font_size + label_padding + (height - h) / 2 - BORDER_WIDTH)%Z,
                       (i mod cols * width + (i mod cols + 1) * GRID_PADDING
                        + (width - w) / 2 + w + BORDER_WIDTH - 1)%Z,
                       (i / cols * (height + font_size + label_padding * 2)
                        + (i / cols + 1) * GRID_PADDING + label_padding
                        + font_size + label_padding + (height - h) / 2 + h
                        + BORDER_WIDTH - 1)%Z)).
    { unfold in_cell, BORDER_WIDTH.
      assert (0 <= (width - w) / 2 <= width - w)%Z
        by (split; [apply Z.div_pos; lia|apply Z.div_le_upper_bound; lia]).
      assert (0 <= (height - h) / 2 <= height - h)%Z
        by (split; [apply Z.div_pos; lia|apply Z.div_le_upper_bound; lia]).
      lia. }
    cbn [List.length]. split; [now rewrite Hlen|]. split.
    + constructor.
      * exists i. split; [lia|exact Hhead].
      * eapply Forall_impl; [|exact Hcells]. intros b (k & Hk & Hb).
        exists k. split; [lia|exact Hb].
    + constructor; [|exact Hapart].
      eapply Forall_impl; [|exact Hcells]. intros b (k & Hk & Hb).
      apply (@cells_apart cols width height font_size label_padding i k);
        try assumption; lia.
Qed.

(** X7. The layout of one grid.  When the thumbnail of every image
    fits the cell of [width] x [height] (as [Image.thumbnail] makes
    it), with a column count above zero, [create_grid] frames one
    thumbnail per image, every frame lies on the canvas, and no two
    frames share a pixel. *)
Theorem create_grid_frames_apart_on_canvas (chunk : list string)
    (cols width start : Z) regions (g : grid R) (first : string) :
  create_grid font_size_of label_padding_of height_of text_width
    thumbnail_size chunk cols width start regions = Ok g ->
  hd_error chunk = Some first ->
  (0 < cols)%Z ->
  (0 <= font_size_of width)%Z ->
  (0 <= label_padding_of (font_size_of width))%Z ->
  (forall p, In p chunk ->
     (0 <= fst (thumbnail_size p width (height_of first width)) <= width)%Z
     /\ (0 <= snd (thumbnail_size p width (height_of first width))
         <= height_of first width)%Z) ->
  List.length (borders g) = List.length chunk
  /\ Forall (on_canvas g) (borders g)
  /\ ForallOrdPairs apart (borders g).
Proof.
  intros Hg Hfirst Hcols Hfs Hlp Hsize.
  apply ThumbnailFacts.create_grid_returned in Hg.
  destruct Hg as (first' & Hfirst' & _ & Hgw & Hgh & _ & _ & Hops).
  rewrite Hfirst in Hfirst'. injection Hfirst' as <-.
  unfold borders. rewrite Hops.
  destruct (@place_thumbnails_cells cols width (height_of first width)
              (font_size_of width) (label_padding_of (font_size_of width))
              start regions chunk Hcols Hfs Hlp Hsize 0%Z
              ltac:(lia)) as (Hlen & Hcells & Hapart).
  split; [exact Hlen|]. split; [|exact Hapart].
  assert (Hin : In first chunk)
    by (destruct chunk; [discriminate|injection Hfirst as ->; now left]).
  destruct (Hsize first Hin) as [Hw Hh].
  eapply Forall_impl; [|exact Hcells]. intros b (k & Hk & Hb).
  apply (@cell_on_canvas cols width (height_of first width)
           (font_size_of width) (label_padding_of (font_size_of width)) k
           (Z.of_nat (List.length chunk)));
    try assumption; lia.
Qed.

End Grids.

Lemma create_grid_frames_apart_on_canvas_witness :
  exists g : grid unit,
    create_grid ThumbnailExample.font_size_of ThumbnailExample.label_padding_of
      ThumbnailExample.height_of ThumbnailExample.text_width
      ThumbnailExample.thumbnail_size ThumbnailExample.three_slides 2 300 0 None
      = Ok g
    /\ List.length (borders g) = 3
    /\ Forall (on_canvas g) (borders g)
    /\ ForallOrdPairs apart (borders g).
Proof.
  eexists. split; [reflexivity|].
  apply (@create_grid_frames_apart_on_canvas unit
           ThumbnailExample.font_size_of ThumbnailExample.label_padding_of
           ThumbnailExample.height_of ThumbnailExample.text_width
           ThumbnailExample.thumbnail_size ThumbnailExample.three_slides
           2%Z 300%Z 0%Z None _ "slide-1.jpg").
  - reflexivity.
  - reflexivity.
  - reflexivity.
  - vm_compute; discriminate.
  - vm_compute; discriminate.
  - intros p _. vm_compute. repeat split; discriminate.
Defined.

Lemma create_grids_shows_every_image_once_witness :
  exists grids : list (string * grid unit),
    ThumbnailExample.grids_example = Ok grids
    /\ flat_map (fun fg => pasted (snd fg)) grids = ThumbnailExample.three_slides
    /\ Forall (fun fg =>
                 1 <= List.length (pasted (snd fg)) <= Z.to_nat (1 * (1 + 1)))
         grids
    /\ List.length grids = 2.
Proof.
  destruct ThumbnailExample.grids_example as [grids|e] eqn:E;
    [|vm_compute in E; discriminate].
  exists grids. split; [reflexivity|].
  apply (@create_grids_shows_every_image_once unit
           ThumbnailExample.font_size_of ThumbnailExample.label_padding_of
           ThumbnailExample.height_of ThumbnailExample.text_width
           ThumbnailExample.thumbnail_size ThumbnailExample.three_slides
           1%Z 300%Z ThumbnailExample.thumbnails None grids E).
Defined.

Lemma create_grids_file_names_witness :
  (exists grids : list (string * grid unit),
     ThumbnailExample.grids_example = Ok grids
     /\ map fst grids = ["thumbnails-1.jpg"; "thumbnails-2.jpg"])
  /\ (exists grids : list (string * grid unit),
        ThumbnailExample.root_example = Ok grids
        /\ map fst grids = ["/grid-1.jpg"; "/grid-2.jpg"]).
Proof.
  split.
  - destruct ThumbnailExample.grids_example as [grids|e] eqn:E;
      [|vm_compute in E; discriminate].
    destruct (@create_grids_file_names unit
                ThumbnailExample.font_size_of ThumbnailExample.label_padding_of
                ThumbnailExample.height_of ThumbnailExample.text_width
                ThumbnailExample.thumbnail_size ThumbnailExample.three_slides
                1%Z 300%Z ThumbnailExample.thumbnails None grids E)
      as (_ & _ & Hmany).
    exists grids. split; [reflexivity|].
    rewrite Hmany by (vm_compute; lia). reflexivity.
  - destruct ThumbnailExample.root_example as [grids|e] eqn:E;
      [|vm_compute in E; discriminate].
    destruct (@create_grids_file_names unit
                ThumbnailExample.font_size_of ThumbnailExample.label_padding_of
                ThumbnailExample.height_of ThumbnailExample.text_width
                ThumbnailExample.thumbnail_size ThumbnailExample.three_slides
                1%Z 300%Z ThumbnailExample.in_root None grids E)
      as (_ & _ & Hmany).
    exists grids. split; [reflexivity|].
    rewrite Hmany by (vm_compute; lia). reflexivity.
Defined.

End ThumbnailExtra.

(** ** The replacement engine: keys, validation, overflow map *)

From Stdlib Require DecimalNat DecimalFacts.

Module ReplaceExtra.
Import Py Replace PyDict OverflowSpec ReplaceSpec EngineSpec.

Lemma set_fresh {V} (k : string) (v : V) (d : dict V) :
  mem k d = false -> set k v d = d ++ [(k, v)].
Proof.
  intros H. assert (Hn : ~ In k (keys d)).
  { intros Hin. apply PyDictFacts.mem_In in Hin. congruence. }
  clear H. induction d as [|[k' v'] d IH]; cbn [set app]; [reflexivity|].
  destruct (String.eqb k k') eqn:E.
  - apply String.eqb_eq in E. subst. exfalso. apply Hn. now left.
  - f_equal. apply IH. intros Hin. apply Hn. now right.
Qed.

Lemma keys_app {V} (a b : dict V) : keys (a ++ b) = keys a ++ keys b.
Proof. unfold keys. apply map_app. Qed.

Lemma check_duplicate_keys_into_cases {V} (pairs : list (string * V)) :
  forall acc, NoDup (keys acc) ->
    (NoDup (keys (acc ++ pairs))
     /\ check_duplicate_keys_into pairs acc = Ok (acc ++ pairs))
    \/ (exists key pre v post,
          pairs = pre ++ (key, v) :: post
          /\ NoDup (keys (acc ++ pre)) /\ In key (keys (acc ++ pre))
          /\ check_duplicate_keys_into pairs acc
             = Raise (Exn "ValueError" ("JSON 中发现重复键：'" +++ key +++ "'"))).
Proof.
  induction pairs as [|[k v] rest IH]; intros acc Hnd;
    cbn [check_duplicate_keys_into].
  - left. rewrite app_nil_r. now split.
  - destruct (mem k acc) eqn:Hmem.
    + right. exists k, [], v, rest. rewrite app_nil_r.
      split; [reflexivity|]. split; [assumption|].
      split; [now apply PyDictFacts.mem_In|reflexivity].
    + rewrite (set_fresh _ _ _ Hmem).
      assert (Hnd' : NoDup (keys (acc ++ [(k, v)]))).
      { rewrite <- (set_fresh _ _ _ Hmem). now apply PyDictFacts.NoDup_keys_set. }
      destruct (IH (acc ++ [(k, v)]) Hnd')
        as [[Hall Hok]|(key & pre & v' & post & -> & Hpre & Hin & Hraise)].
      * left. rewrite <- app_assoc in Hall, Hok. now split.
      * right. exists key, ((k, v) :: pre), v', post.
        rewrite <- app_assoc in Hpre, Hin. now repeat split.
Qed.

(** X8. [check_duplicate_keys] accepts a list of pairs exactly when no
    key occurs twice, and then returns the pairs as they are, in
    their order; otherwise it raises [ValueError] naming the first key
    that repeats an earlier one. *)
Theorem check_duplicate_keys_distinct {V} (pairs : list (string * V)) :
  (NoDup (keys pairs) -> check_duplicate_keys pairs = Ok pairs)
  /\ (~ NoDup (keys pairs) ->
      exists key,
        first_repeat pairs key
        /\ check_duplicate_keys pairs
           = Raise (Exn "ValueError" ("JSON 中发现重复键：'" +++ key +++ "'"))).
Proof.
  unfold check_duplicate_keys.
  destruct (@check_duplicate_keys_into_cases V pairs [] (NoDup_nil _))
    as [[Hall Hok]|(key & pre & v & post & Hsplit & Hpre & Hin & Hraise)];
    cbn [app] in *.
  - split; [intros _; exact Hok|]. intros Hdup. contradiction.
  - split.
    + intros Hnd. exfalso. rewrite Hsplit, keys_app in Hnd.
      cbn [keys map fst] in Hnd. apply NoDup_remove_2 in Hnd.
      apply Hnd. apply in_or_app. now left.
    + intros _. exists key. split; [|exact Hraise].
      exists pre, v, post. now repeat split.
Qed.

Lemma flat_map_nil {A B} (f : A -> list B) (l : list A) :
  flat_map f l = [] <-> forall a, In a l -> f a = [].
Proof.
  induction l as [|a l IH]; cbn [flat_map].
  - split; [intros _ a []|reflexivity].
  - split.
    + intros H. apply app_eq_nil in H. destruct H as [Ha Hl].
      intros a' [<-|Hin]; [assumption|]. now apply IH.
    + intros H. rewrite (H a (or_introl eq_refl)). cbn [app].
      apply IH. intros a' Hin. apply H. now right.
Qed.

Section Engine.
Variable ShapeRef ParaData : Type.

(** X9. [validate_replacements] reports nothing exactly when every
    key of the replacement document that starts with [slide-] is a
    slide of the inventory and every shape key under it is a shape of
    that slide.  Keys that do not start with [slide-] are never
    checked. *)
Theorem validate_replacements_accepts_known_keys
    (inventory : InventoryData ShapeRef)
    (replacements : Replacements ParaData) :
  validate_replacements inventory replacements = []
  <-> (forall slide_key shapes_data,
         In (slide_key, shapes_data) replacements ->
         startswith "slide-" slide_key = true ->
         exists slide_shapes,
           get slide_key inventory = Some slide_shapes
           /\ forall shape_key,
                In shape_key (keys shapes_data) ->
                mem shape_key slide_shapes = true).
Proof.
  unfold validate_replacements. rewrite flat_map_nil. unfold items. split.
  - intros H slide_key shapes_data Hin Hslide.
    specialize (H _ Hin). cbn beta iota in H. unfold slide_errors in H.
    rewrite Hslide in H. cbn [negb] in H.
    destruct (get slide_key inventory) as [slide_shapes|]; [|discriminate].
    exists slide_shapes. split; [reflexivity|].
    intros shape_key Hkey. rewrite flat_map_nil in H. specialize (H _ Hkey).
    destruct (mem shape_key slide_shapes); [reflexivity|discriminate].
  - intros H [slide_key shapes_data] Hin. unfold slide_errors.
    destruct (startswith "slide-" slide_key) eqn:Hslide; [|reflexivity].
    cbn [negb]. destruct (H _ _ Hin Hslide) as (slide_shapes & -> & Hshapes).
    apply flat_map_nil. intros shape_key Hkey. now rewrite (Hshapes _ Hkey).
Qed.

(** X10. The map [detect_frame_overflow] builds from an inventory
    without repeated keys is itself without repeated keys, and lists
    exactly the shapes whose [frame_overflow_bottom] is not [None],
    each under its slide and with the overflow measured: a slide
    without such a shape has no entry. *)
Theorem detect_frame_overflow_lists_measured
    (inventory : InventoryData ShapeRef) :
  inventory_ok inventory ->
  map_ok (detect_frame_overflow inventory)
  /\ (forall slide_key shape_key overflow,
        (exists inner,
           In (slide_key, inner) (detect_frame_overflow inventory)
           /\ In (shape_key, overflow) inner)
        <-> (exists shapes shape_data,
               In (slide_key, shapes) inventory
               /\ In (shape_key, shape_data) shapes
               /\ frame_overflow_bottom shape_data = Some overflow))
  /\ (forall slide_key,
        In slide_key (keys (detect_frame_overflow inventory)) ->
        exists shape_key overflow,
          lookup2 (detect_frame_overflow inventory) slide_key shape_key
          = Some overflow).
Proof.
  intros Hok.
  pose proof (OverflowMapFacts.detect_frame_overflow_ok inventory) as Hmap.
  split; [exact Hmap|].
  assert (Hmeasured : forall slide_key shape_key overflow,
            measured_overflow inventory slide_key shape_key = Some overflow
            <-> exists shapes shape_data,
                  In (slide_key, shapes) inventory
                  /\ In (shape_key, shape_data) shapes
                  /\ frame_overflow_bottom shape_data = Some overflow).
  { intros sk shk o. destruct Hok as [Hnd Hin]. rewrite Forall_forall in Hin.
    unfold measured_overflow. split.
    - destruct (get sk inventory) as [shapes|] eqn:E1; [|discriminate].
      destruct (get shk shapes) as [sd|] eqn:E2; [|discriminate].
      intros Ho. apply PyDictFacts.get_In in E1; [|assumption].
      apply PyDictFacts.get_In in E2; [|exact (Hin _ E1)].
      now exists shapes, sd.
    - intros (shapes & sd & H1 & H2 & Ho).
      pose proof (Hin _ H1) as Hinner. cbn [snd] in Hinner.
      apply PyDictFacts.get_In in H1; [|assumption]. rewrite H1.
      apply PyDictFacts.get_In in H2; [|assumption]. now rewrite H2. }
  split.
  - intros sk shk o.
    rewrite <- (OverflowMapFacts.lookup2_In sk shk o Hmap).
    rewrite OverflowMapFacts.detect_frame_overflow_lookup by assumption.
    apply Hmeasured.
  - change (detect_frame_overflow inventory)
      with (record_slides inventory []).
    assert (Hgen : forall (slides : InventoryData ShapeRef) acc,
              Forall (fun e => snd e <> []) acc ->
              Forall (fun e : string * dict float => snd e <> [])
                (record_slides slides acc)).
    { unfold record_slides, record_shapes.
      induction slides as [|[sk shapes] rest IH]; intros acc Hacc;
        cbn [fold_left]; [assumption|].
      apply IH. unfold items. clear IH rest. revert acc Hacc.
      induction shapes as [|[shk sd] shapes IHs]; intros acc Hacc;
        cbn [fold_left]; [assumption|].
      apply IHs. unfold record_overflow.
      destruct (frame_overflow_bottom sd) as [o|]; [|assumption].
      assert (Hset : forall v : dict float, set shk o v <> []).
      { intros [|[k0 v0] v]; cbn [set]; [discriminate|].
        destruct (String.eqb shk k0); discriminate. }
      match goal with
      | |- context [if ?c then acc else _] => destruct c eqn:Hmem
      end.
      - apply PyDictFacts.Forall_update; [|assumption].
        intros v _. cbn [snd]. apply Hset.
      - rewrite PyDictFacts.update_set_fresh by assumption.
        apply PyDictFacts.Forall_set; [|assumption]. cbn [snd]. apply Hset. }
    intros sk Hin. apply PyDictFacts.In_keys in Hin.
    destruct Hin as (inner & Hin).
    pose proof (Hgen inventory [] (Forall_nil _)) as Hne.
    rewrite Forall_forall in Hne. specialize (Hne _ Hin). cbn [snd] in Hne.
    destruct inner as [|[shk o] inner]; [contradiction|].
    exists shk, o. apply (OverflowMapFacts.lookup2_In sk shk o Hmap).
    exists ((shk, o) :: inner). split; [exact Hin|now left].
Qed.

End Engine.

Lemma detect_frame_overflow_lists_measured_witness :
  exists shape_key overflow,
    lookup2
      (detect_frame_overflow
         (ReplaceExample.extract_text_inventory
            [(0, ["A title that is much too long for its shape"]); (1, [])]))
      "slide-0" shape_key = Some overflow.
Proof.
  apply (@detect_frame_overflow_lists_measured nat
           (ReplaceExample.extract_text_inventory
              [(0, ["A title that is much too long for its shape"]); (1, [])])).
  - split; vm_compute; repeat constructor; cbn; intuition discriminate.
  - vm_compute. now left.
Defined.

(** *** Slide keys *)

Lemma digits_value_of_uint (d : Decimal.uint) : forall acc : nat,
  digits_value (NilEmpty.string_of_uint d) (Z.of_nat acc)
  = Some (Z.of_nat (Nat.of_uint_acc d acc)).
Proof.
  induction d; intros acc; cbn [NilEmpty.string_of_uint Nat.of_uint_acc];
    [reflexivity|..];
    cbn [digits_value];
    match goal with
    | |- context [is_digit ?a] => change (is_digit a) with true
    end; cbv iota; rewrite <- IHd; f_equal;
    match goal with
    | |- context [nat_of_ascii ?a - 48] =>
        let k := eval vm_compute in (nat_of_ascii a - 48) in
        change (nat_of_ascii a - 48) with k
    end;
    rewrite ?Nat2Z.inj_succ, Nat.tail_mul_spec, Nat2Z.inj_mul; lia.
Qed.

Lemma all_digits_of_uint (d : Decimal.uint) :
  all_digits (NilEmpty.string_of_uint d) = true.
Proof. induction d; cbn [NilEmpty.string_of_uint all_digits]; auto. Qed.

Lemma str_of_nat_nonempty (n : nat) : str_of_nat n <> EmptyString.
Proof.
  unfold str_of_nat. intros H.
  pose proof (DecimalNat.Unsigned.of_to n) as Hn.
  destruct (Nat.to_uint n) eqn:E; try discriminate H.
  cbn in Hn. subst n. discriminate E.
Qed.

Lemma int_of_str_of_nat (n : nat) : int_of_str (str_of_nat n) = Ok (Z.of_nat n).
Proof.
  pose proof (str_of_nat_nonempty n) as Hne. unfold int_of_str.
  destruct (str_of_nat n) eqn:E; [contradiction|]. rewrite <- E.
  unfold str_of_nat. change 0%Z with (Z.of_nat 0).
  rewrite (digits_value_of_uint (Nat.to_uint n) 0).
  change (Nat.of_uint_acc (Nat.to_uint n) 0) with (Nat.of_uint (Nat.to_uint n)).
  now rewrite DecimalNat.Unsigned.of_to.
Qed.

Lemma digits_no_hyphen (s : string) : all_digits s = true -> no_hyphen s = true.
Proof.
  induction s as [|a s IH]; cbn [all_digits no_hyphen]; [reflexivity|].
  intros H. apply andb_prop in H. destruct H as [Ha Hs].
  rewrite (IH Hs), andb_true_r.
  destruct (Ascii.eqb a "-"%char) eqn:E; [|reflexivity].
  apply Ascii.eqb_eq in E. subst a. discriminate Ha.
Qed.

Lemma split_no_hyphen (s : string) :
  no_hyphen s = true -> split "-"%char s = [s].
Proof.
  induction s as [|a s IH]; cbn [no_hyphen split]; [reflexivity|].
  intros H. apply andb_prop in H. destruct H as [Ha Hs].
  destruct (Ascii.eqb a "-"%char); [discriminate Ha|].
  now rewrite (IH Hs).
Qed.

Lemma split_at_hyphen (s rest : string) :
  no_hyphen s = true ->
  split "-"%char (s +++ String "-"%char rest) = s :: split "-"%char rest.
Proof.
  induction s as [|a s IH]; intros Hd.
  - reflexivity.
  - cbn [no_hyphen] in Hd. apply andb_prop in Hd. destruct Hd as [Ha Hs].
    change (String a s +++ String "-"%char rest)
      with (String a (s +++ String "-"%char rest)).
    cbn [split]. destruct (Ascii.eqb a "-"%char); [discriminate Ha|].
    now rewrite (IH Hs).
Qed.

Lemma slide_index_of_key (n : nat) :
  slide_index_of ("slide-" +++ str_of_nat n) = Ok (Z.of_nat n).
Proof.
  unfold slide_index_of.
  change ("slide-" +++ str_of_nat n)
    with ("slide" +++ String "-"%char (str_of_nat n)).
  rewrite (split_at_hyphen "slide" (str_of_nat n)) by reflexivity.
  rewrite split_no_hyphen by (apply digits_no_hyphen, all_digits_of_uint).
  cbn [getitem nth_error bind]. apply int_of_str_of_nat.
Qed.

(** X11. [int(slide_key.split("-")[1])] reads back the index of a key
    in the inventory's format [slide-N], whatever follows a further
    hyphen, and such a key passes the [startswith("slide-")] test.  A
    key without a hyphen has no second piece to read: indexing it
    raises [IndexError]. *)
Theorem slide_index_of_inventory_key :
  (forall n : nat,
     slide_index_of ("slide-" +++ str_of_nat n) = Ok (Z.of_nat n)
     /\ startswith "slide-" ("slide-" +++ str_of_nat n) = true)
  /\ (forall (n : nat) (rest : string),
        slide_index_of ("slide-" +++ str_of_nat n +++ "-" +++ rest)
        = Ok (Z.of_nat n))
  /\ (forall slide_key,
        (forall i, String.get i slide_key <> Some "-"%char) ->
        slide_index_of slide_key
        = Raise (Exn "IndexError" "list index out of range")).
Proof.
  split; [|split].
  - intros n. split.
    + apply slide_index_of_key.
    + unfold startswith. generalize (str_of_nat n). intros s. cbn.
      now destruct s.
  - intros n rest. unfold slide_index_of.
    change ("slide-" +++ str_of_nat n +++ "-" +++ rest)
      with ("slide" +++ String "-"%char (str_of_nat n +++ String "-"%char rest)).
    rewrite (split_at_hyphen "slide") by reflexivity.
    rewrite split_at_hyphen by (apply digits_no_hyphen, all_digits_of_uint).
    cbn [getitem nth_error bind]. apply int_of_str_of_nat.
  - intros slide_key Hnone. unfold slide_index_of.
    rewrite split_no_hyphen; [reflexivity|].
    induction slide_key as [|a s IH]; cbn [no_hyphen]; [reflexivity|].
    destruct (Ascii.eqb_spec a "-"%char) as [->|Ha].
    + contradiction (Hnone 0). reflexivity.
    + cbn [negb andb]. apply IH. intros i. exact (Hnone (S i)).
Qed.

(** *** A run of [apply_replacements] *)

Section Run.
Variable Prs ShapeRef ParaData : Type.
Variable extract_text_inventory : Prs -> InventoryData ShapeRef.
Variable n_slides : Prs -> nat.
Variable text_frame_clear : ShapeRef -> Prs -> Prs.
Variable apply_paragraph_properties :
  ShapeRef -> nat -> ParaData -> Prs -> result (Prs * list string).
Variable fmt_2f : float -> string.

Lemma file_events_prints (lines : list string) :
  file_events (map (@Print Prs) lines) = [].
Proof. induction lines; [reflexivity|assumption]. Qed.

Lemma file_events_app (a b : list (event Prs)) :
  file_events (a ++ b) = file_events a ++ file_events b.
Proof. apply filter_app. Qed.

Lemma file_events_printing {A} (f : A -> string) (l : list A) :
  file_events (map (fun a => @Print Prs (f a)) l) = [].
Proof. induction l; [reflexivity|assumption]. Qed.

Lemma file_events_cons (e : event Prs) (ev : list (event Prs)) :
  file_events (e :: ev)
  = (match e with Print _ _ => [] | _ => [e] end) ++ file_events ev.
Proof. now destruct e. Qed.

Lemma file_events_nil : file_events (@nil (event Prs)) = [].
Proof. reflexivity. Qed.

Lemma process_shape_counts replacements slide_key st shape_key shape_data
    (w w' : Prs * list (event Prs)) (st' : stats) :
  process_shape text_frame_clear apply_paragraph_properties replacements
    slide_key st shape_key shape_data w = (Ok st', w') ->
  coherent st ->
  coherent st' /\ shapes_processed st' = S (shapes_processed st).
Proof.
  unfold process_shape, bindM, print, emit, mutate, ret, coherent.
  destruct (shape shape_data) as [sh|].
  - match goal with
    | |- context [match ?x with Some _ => _ | None => _ end] => destruct x
    end.
    + match goal with
      | |- context [add_paragraphs ?f ?a ?b ?c ?v] =>
          destruct (add_paragraphs f a b c v) as [[[]|e] w1]
      end; [|discriminate].
      intros [= <- <-]. cbn. lia.
    + intros [= <- <-]. cbn. lia.
  - intros [= <- <-]. cbn. lia.
Qed.

Lemma process_shapes_counts replacements slide_key shapes :
  forall st (w w' : Prs * list (event Prs)) (st' : stats),
    process_shapes text_frame_clear apply_paragraph_properties replacements
      slide_key shapes st w = (Ok st', w') ->
    coherent st ->
    coherent st'
    /\ shapes_processed st' = shapes_processed st + List.length shapes.
Proof.
  induction shapes as [|[shape_key shape_data] rest IH];
    intros st w w' st'; cbn [process_shapes].
  - intros [= <- <-] Hst. split; [assumption|]. cbn. lia.
  - unfold bindM.
    destruct (process_shape _ _ _ _ _ _ _ w) as [[st1|e] w1] eqn:E;
      [|discriminate].
    intros Hrest Hst.
    apply process_shape_counts in E; [|exact Hst]. destruct E as [H1 Hp1].
    destruct (IH _ _ _ _ Hrest H1) as [H2 Hp2].
    split; [assumption|]. cbn [List.length]. lia.
Qed.

Lemma process_slides_counts replacements
    (slides : InventoryData ShapeRef) :
  forall st (w w' : Prs * list (event Prs)) (st' : stats),
    process_slides n_slides text_frame_clear apply_paragraph_properties
      replacements slides st w = (Ok st', w') ->
    coherent st ->
    coherent st'
    /\ shapes_processed st'
       <= shapes_processed st + List.length (all_shapes slides).
Proof.
  unfold all_shapes, items.
  induction slides as [|[slide_key shapes_dict] rest IH];
    intros st w w' st'; cbn [process_slides flat_map snd].
  - intros [= <- <-] Hst. split; [assumption|]. lia.
  - rewrite length_app.
    destruct (negb (startswith "slide-" slide_key)).
    + intros Hrest Hst. destruct (IH _ _ _ _ Hrest Hst) as [H1 Hp1].
      split; [assumption|lia].
    + unfold bindM, lift, get_prs.
      destruct (slide_index_of slide_key) as [slide_index|e]; [|discriminate].
      destruct (Z.of_nat (n_slides (fst w)) <=? slide_index)%Z.
      * unfold print, emit. intros Hrest Hst.
        destruct (IH _ _ _ _ Hrest Hst) as [H1 Hp1].
        split; [assumption|lia].
      * destruct (process_shapes _ _ _ _ _ _ w) as [[st1|e] w1] eqn:E;
          [|discriminate].
        intros Hrest Hst.
        apply process_shapes_counts in E; [|exact Hst].
        destruct E as [H1 Hp1].
        destruct (IH _ _ _ _ Hrest H1) as [H2 Hp2].
        split; [assumption|]. unfold items in Hp1. lia.
Qed.

(** How a run ends: before the edits with no file touched, or after
    them with the temporary copy written and removed, and then the
    output written when the run returns. *)
Lemma apply_replacements_cases (json : result (RawDocument ParaData))
    (output_file : string) (prs0 prs : Prs) (r : result stats)
    (ev : list (event Prs)) :
  apply_replacements extract_text_inventory n_slides text_frame_clear
    apply_paragraph_properties fmt_2f json output_file (prs0, [])
  = (r, (prs, ev)) ->
  (exists e, r = Raise e /\ file_events ev = [])
  \/ (exists replacements st ev1,
        process_slides n_slides text_frame_clear apply_paragraph_properties
          replacements (items (extract_text_inventory prs0)) no_stats
          (prs0, []) = (Ok st, (prs, ev1))
        /\ ((exists e, r = Raise e
                       /\ file_events ev
                          = [SaveTemporary prs; UnlinkTemporary Prs])
            \/ (r = Ok st
                /\ file_events ev
                   = [SaveTemporary prs; UnlinkTemporary Prs;
                      SaveFile output_file prs]))).
Proof.
  unfold apply_replacements, bindM, get_prs, lift. cbn [fst snd].
  destruct json as [raw|e]; [|intros [= <- <- <-]; left; now exists e].
  destruct (load_replacements raw) as [replacements|e];
    [|intros [= <- <- <-]; left; now exists e].
  destruct (nonempty (validate_replacements _ replacements)).
  - unfold print, emit, raise. cbn [fst snd].
    rewrite ReplaceFacts.for_each_printing. cbn [fst snd].
    intros [= <- <- <-]. left. eexists. split; [reflexivity|].
    cbn [app].
    repeat (rewrite file_events_app || rewrite file_events_cons
            || rewrite file_events_printing || rewrite file_events_prints
            || rewrite file_events_nil).
    reflexivity.
  - fold no_stats.
    destruct (process_slides _ _ _ _ _ _ (prs0, [])) as [[st|e] [prs1 ev1]]
      eqn:Hedit.
    2:{ intros [= <- <- <-]. left. exists e. split; [reflexivity|].
        destruct (@ReplaceFacts.quiet_process_slides Prs ShapeRef ParaData
                    n_slides text_frame_clear apply_paragraph_properties
                    replacements (items (extract_text_inventory prs0)) no_stats
                    _ _ _ Hedit) as (lines & Hlines).
        cbn [snd app] in Hlines. subst ev1. apply file_events_prints. }
    destruct (@ReplaceFacts.quiet_process_slides Prs ShapeRef ParaData
                n_slides text_frame_clear apply_paragraph_properties
                replacements (items (extract_text_inventory prs0)) no_stats
                _ _ _ Hedit) as (lines & Hlines).
    cbn [snd app] in Hlines. subst ev1.
    cbn [fst snd emit]. cbv zeta.
    destruct (nonempty (overflow_errors_of fmt_2f _ _)) eqn:Eo;
      destruct (nonempty (warnings_of _)) eqn:Ew;
      cbn [orb]; unfold print, emit, raise, ret; cbn [fst snd];
      rewrite ?ReplaceFacts.for_each_printing; cbn [fst snd];
      rewrite ?ReplaceFacts.for_each_printing; cbn [fst snd];
      intros [= <- <- <-]; right; exists replacements, st, (map (@Print Prs) lines);
      (split; [exact Hedit|]);
      [left; eexists; split; [reflexivity|]
      |left; eexists; split; [reflexivity|]
      |left; eexists; split; [reflexivity|]
      |right; split; [reflexivity|]];
      cbn [app];
      repeat (rewrite file_events_app || rewrite file_events_cons
              || rewrite file_events_printing || rewrite file_events_prints
              || rewrite file_events_nil);
      reflexivity.
Qed.


(** X13. The counts a successful run reports are coherent: no shape
    is counted as replaced that was not cleared, none as cleared that
    was not processed, and no more shapes are processed than the
    inventory of the input lists. *)
Theorem apply_replacements_counts (json : result (RawDocument ParaData))
    (output_file : string) (prs0 prs : Prs) (st : stats)
    (ev : list (event Prs)) :
  apply_replacements extract_text_inventory n_slides text_frame_clear
    apply_paragraph_properties fmt_2f json output_file (prs0, [])
  = (Ok st, (prs, ev)) ->
  shapes_replaced st <= shapes_cleared st
  /\ shapes_cleared st <= shapes_processed st
  /\ shapes_processed st
     <= List.length (all_shapes (extract_text_inventory prs0)).
Proof.
  intros Hrun.
  apply apply_replacements_cases in Hrun.
  destruct Hrun
    as [(e & He & _)
       |(replacements & st' & ev1 & Hedit & [(e & He & _)|(Hst & _)])];
    try discriminate.
  injection Hst as <-.
  apply process_slides_counts in Hedit.
  - destruct Hedit as [[H1 H2] H3].
    cbn [no_stats shapes_processed] in H3. unfold items in H3. lia.
  - unfold coherent, no_stats. cbn. lia.
Qed.

End Run.


Lemma apply_replacements_counts_witness :
  exists st deck' ev,
    ReplaceExample.run_example ReplaceExample.retitle = (Ok st, (deck', ev))
    /\ shapes_replaced st <= shapes_cleared st
    /\ shapes_cleared st <= shapes_processed st
    /\ shapes_processed st
       <= List.length
            (all_shapes (ReplaceExample.extract_text_inventory ReplaceExample.deck)).
Proof.
  do 3 eexists. split; [vm_compute; reflexivity|].
  eapply (@apply_replacements_counts ReplaceExample.Deck nat string
           ReplaceExample.extract_text_inventory ReplaceExample.n_slides
           ReplaceExample.text_frame_clear
           ReplaceExample.apply_paragraph_properties ReplaceExample.fmt_2f
           (Ok ReplaceExample.retitle) "out.pptx" ReplaceExample.deck).
  vm_compute. reflexivity.
Defined.

End ReplaceExtra.

(** ** The form fields: identifiers, locations, radio groups *)

Module PdfExtra.
Import Py ExtractFormFieldInfo PyDict LocationSpec ScanSpec.

Lemma join_snoc (sep : string) (l : list string) (x : string) :
  l <> [] -> join sep (l ++ [x]) = join sep l +++ sep +++ x.
Proof.
  induction l as [|a l IH]; [contradiction|]. intros _.
  destruct l as [|b l].
  - reflexivity.
  - change (join sep ((a :: b :: l) ++ [x]))
      with (a +++ sep +++ join sep ((b :: l) ++ [x])).
    rewrite IH by discriminate.
    change (join sep (a :: b :: l)) with (a +++ sep +++ join sep (b :: l)).
    now rewrite !ReplaceFacts.append_assoc.
Qed.

(** X14. The identifier of an annotation is built like the keys of
    [reader.get_fields()]: the identifier of its [/Parent], a dot, and
    its own [/T]; an annotation without a name of its own has the
    identifier of its parent, one without a named ancestor its own
    name, and there is no identifier only when no annotation of the
    chain has a name. *)
Theorem get_full_annotation_field_id_qualified (a : annotation) :
  get_full_annotation_field_id a
  = match ann_Parent a with
    | Some up =>
        match get_full_annotation_field_id up, own_name a with
        | Some parent_id, Some name => Some (parent_id +++ "." +++ name)
        | Some parent_id, None => Some parent_id
        | None, own => own
        end
    | None => own_name a
    end.
Proof.
  destruct a as [t up r ap]. unfold get_full_annotation_field_id, own_name.
  cbn [components_of ann_T ann_Parent].
  destruct up as [up|].
  - set (here := match t with
                 | Some field_name =>
                     if String.eqb field_name EmptyString then []
                     else [field_name]
                 | None => []
                 end).
    assert (Hhere : here = match (match t with
                                  | Some field_name =>
                                      if String.eqb field_name EmptyString
                                      then None else Some field_name
                                  | None => None
                                  end) with
                           | Some name => [name]
                           | None => []
                           end).
    { unfold here. destruct t as [n|]; [|reflexivity].
      now destruct (String.eqb n EmptyString). }
    rewrite Hhere. clear Hhere here.
    destruct (match t with
              | Some field_name =>
                  if String.eqb field_name EmptyString then None
                  else Some field_name
              | None => None
              end) as [name|]; cbn [app].
    + destruct (components_of up) as [|c cs] eqn:Hup.
      * reflexivity.
      * cbn [rev]. rewrite join_snoc.
        -- reflexivity.
        -- intros H. apply app_eq_nil in H. destruct H; discriminate.
    + now destruct (components_of up).
  - destruct t as [n|]; [|reflexivity].
    now destruct (String.eqb n EmptyString).
Qed.

(** *** Choice fields *)

Lemma state_item_found (st : state) (i : nat) :
  state_item st i
  = match nth_error (items_of st) i with
    | Some x => Ok x
    | None =>
        Raise (Exn "IndexError"
                 match st with
                 | SList _ => "list index out of range"
                 | SName _ => "string index out of range"
                 end)
    end.
Proof. destruct st; reflexivity. Qed.

Lemma choice_options_of_listed (states : list state) :
  (forall opts, choice_options_of states = Ok opts ->
     Forall2 listed_as states opts)
  /\ (forall e, choice_options_of states = Raise e ->
        exn_class e = "IndexError").
Proof.
  induction states as [|st rest [IHok IHraise]]; cbn [choice_options_of].
  - split; [intros opts [= <-]; constructor|discriminate].
  - rewrite !state_item_found.
    destruct (items_of st) as [|value [|text more]] eqn:Hitems;
      cbn [nth_error bind];
      try (split; [discriminate|now intros e [= <-]]).
    destruct (choice_options_of rest) as [os|e0]; cbn [bind].
    + split; [|discriminate]. intros opts [= <-].
      constructor; [|now apply IHok]. now exists value, text, more.
    + split; [discriminate|]. intros e [= <-]. now apply IHraise.
Qed.

(** X18. The options of a choice field.  Each entry of [/_States_] is
    listed with what indexing finds at 0 as its value and what it
    finds at 1 as its text: the first two elements of an array, the
    first two characters of a plain string.  An entry with fewer than
    two elements or characters makes [make_field_dict] raise
    [IndexError]; nothing else makes it fail, and nothing is
    printed. *)
Theorem choice_options_by_state (field : Field) (id : string) :
  FT field = Some "/Ch" ->
  (forall d out, make_field_dict field id = Ok (d, out) ->
     out = [] /\ field_id d = id /\ type_ d = Some "choice"
     /\ exists opts,
          choice_options d = Some opts
          /\ Forall2 listed_as (States field) opts)
  /\ (forall e, make_field_dict field id = Raise e ->
        exn_class e = "IndexError")
  /\ ((exists st, In st (States field) /\ List.length (items_of st) < 2) ->
        exists e, make_field_dict field id = Raise e)
  /\ ((forall st, In st (States field) -> 2 <= List.length (items_of st)) ->
        exists d, make_field_dict field id = Ok (d, [])).
Proof.
  intros Hft. unfold make_field_dict. rewrite Hft.
  change (ft_is (Some "/Ch") "/Tx") with false.
  change (ft_is (Some "/Ch") "/Btn") with false.
  change (ft_is (Some "/Ch") "/Ch") with true. cbv iota.
  destruct (choice_options_of_listed (States field)) as [Hok Hraise].
  assert (Hbad : forall st, In st (States field) ->
            List.length (items_of st) < 2 ->
            forall opts, choice_options_of (States field) <> Ok opts).
  { intros st Hin Hlen opts Hopts. apply Hok in Hopts.
    clear -Hin Hlen Hopts. induction Hopts as [|st' o sts os Hst _ IH];
      [contradiction|].
    destruct Hin as [->|Hin]; [|auto].
    destruct Hst as (value & text & more & Hitems & _).
    rewrite Hitems in Hlen. cbn in Hlen. lia. }
  assert (Hgood : (forall st, In st (States field) ->
                     2 <= List.length (items_of st)) ->
            exists opts, choice_options_of (States field) = Ok opts).
  { clear. induction (States field) as [|st rest IH]; intros Hall;
      cbn [choice_options_of]; [now exists []|].
    destruct IH as [os Hos]; [intros st' Hst; apply Hall; now right|].
    rewrite Hos, !state_item_found.
    pose proof (Hall st (or_introl eq_refl)) as Hlen.
    destruct (items_of st) as [|value [|text more]]; cbn in Hlen; try lia.
    cbn [nth_error bind]. eauto. }
  destruct (choice_options_of (States field)) as [os|e0] eqn:E; cbn [bind].
  - split; [|split; [discriminate|split]].
    + intros d out [= <- <-]. repeat split. exists os. split; [reflexivity|].
      now apply Hok.
    + intros (st & Hin & Hlen). exfalso. exact (Hbad st Hin Hlen os eq_refl).
    + intros _. eauto.
  - split; [discriminate|split; [|split]].
    + intros e [= <-]. now apply Hraise.
    + intros _. eauto.
    + intros Hall. destruct (Hgood Hall) as [opts Hopts]. discriminate.
Qed.

Lemma choice_options_by_state_witness :
  (exists d,
     make_field_dict
       {| Kids := false; FT := Some "/Ch";
          States := [SList ["a"; "Apple"]; SName "Pear"; SName "苹果";
                     SList ["x"; "y"; "z"]] |} "fruit" = Ok (d, [])
     /\ choice_options d
        = Some [("a", "Apple"); ("P", "e"); ("苹", "果"); ("x", "y")])
  /\ (exists e,
        make_field_dict
          {| Kids := false; FT := Some "/Ch";
             States := [SList ["a"; "Apple"]; SList ["only"]] |} "fruit"
        = Raise e
        /\ exn_class e = "IndexError").
Proof.
  split.
  - destruct (@choice_options_by_state
                {| Kids := false; FT := Some "/Ch";
                   States := [SList ["a"; "Apple"]; SName "Pear";
                              SName "苹果"; SList ["x"; "y"; "z"]] |} "fruit"
                eq_refl) as (_ & _ & _ & Hgood).
    destruct Hgood as [d Hd].
    + intros st [H|[H|[H|[H|[]]]]]; subst st; vm_compute; lia.
    + exists d. split; [exact Hd|].
      vm_compute in Hd. injection Hd as <-. reflexivity.
  - destruct (@choice_options_by_state
                {| Kids := false; FT := Some "/Ch";
                   States := [SList ["a"; "Apple"]; SList ["only"]] |} "fruit"
                eq_refl) as (_ & Hclass & Hbad & _).
    destruct Hbad as [e He].
    + exists (SList ["only"]). split; [now right; left|cbn; lia].
    + exists e. split; [exact He|now apply Hclass].
Defined.

(** *** The second loop, annotation by annotation *)

Lemma fold_left_map {A B C} (f : A -> C -> A) (g : B -> C) (l : list B) :
  forall a, fold_left f (map g l) a = fold_left (fun a x => f a (g x)) l a.
Proof. induction l as [|x l IH]; intros a; [reflexivity|apply IH]. Qed.

Lemma scan_pages_fold names pgs : forall page_index st,
  scan_pages names page_index pgs st
  = fold_left (fun st pa => scan_annotation names (fst pa) (snd pa) st)
      (numbered_annotations page_index pgs) st.
Proof.
  induction pgs as [|annotations rest IH]; intros page_index st;
    cbn [scan_pages numbered_annotations]; [reflexivity|].
  rewrite fold_left_app, IH. f_equal.
  unfold scan_page. now rewrite fold_left_map.
Qed.

Lemma relocate_snoc (k : string) (l : list (nat * annotation))
    (pa : nat * annotation) (d0 : field_dict) :
  relocate k (l ++ [pa]) d0
  = if has_id k pa then set_location (fst pa + 1) (ann_Rect (snd pa)) d0
    else relocate k l d0.
Proof.
  unfold relocate, matches. rewrite filter_app. cbn [filter].
  destruct (has_id k pa).
  - unfold last_opt. now rewrite rev_unit.
  - now rewrite app_nil_r.
Qed.

Lemma set_location_relocate p r k l d0 :
  set_location p r (relocate k l d0) = set_location p r d0.
Proof. unfold relocate. now destruct (last_opt (matches k l)). Qed.

Lemma group_skip (k : string) (l : list (nat * annotation))
    (pa : nat * annotation) :
  has_id k pa && is_button (snd pa) = false ->
  group k (l ++ [pa]) = group k l.
Proof.
  intros H. unfold group, radio_matches. rewrite filter_app. cbn [filter].
  rewrite H. now rewrite app_nil_r.
Qed.

Lemma group_snoc (k : string) (l : list (nat * annotation))
    (pa : nat * annotation) (v : string) :
  has_id k pa = true -> on_value (snd pa) = Some v ->
  group k (l ++ [pa])
  = Some (append_radio_option
            {| opt_value := v; opt_rect := ann_Rect (snd pa) |}
            match group k l with
            | Some g => g
            | None => new_radio_group k (fst pa + 1)
            end).
Proof.
  intros Hid Hv. unfold group, radio_matches. rewrite filter_app.
  cbn [filter]. unfold is_button. rewrite Hid, Hv. cbn [andb].
  destruct (filter _ l) as [|pa0 rest]; cbn [app].
  - unfold options_of. cbn [flat_map]. rewrite Hv. reflexivity.
  - unfold append_radio_option. cbn [radio_options field_id type_ checked_value
      unchecked_value choice_options page rect].
    do 2 f_equal. unfold options_of.
    change (pa0 :: rest ++ [pa]) with ((pa0 :: rest) ++ [pa]).
    rewrite flat_map_app. cbn [flat_map]. rewrite Hv. now rewrite app_nil_r.
Qed.

Lemma mem_of_get {V} (k : string) (d : dict V) :
  mem k d = match get k d with Some _ => true | None => false end.
Proof. reflexivity. Qed.

Section Step.
Variable fi0 : dict field_dict.
Variable names : list string.

Lemma scanned_unchanged l pa st :
  (forall k, has_id k pa = true -> get k fi0 = None) ->
  (forall k, has_id k pa = true ->
     mem k fi0 = true \/ name_in k names = false
     \/ is_button (snd pa) = false) ->
  scanned fi0 names l st -> scanned fi0 names (l ++ [pa]) st.
Proof.
  intros HA HB (Hkeys & Hget & Hnd & Hradio).
  split; [assumption|]. split; [|split; [assumption|]].
  - intros k. rewrite Hget. destruct (get k fi0) as [d0|] eqn:E;
      [|reflexivity].
    cbn [option_map]. rewrite relocate_snoc.
    destruct (has_id k pa) eqn:Hk; [|reflexivity].
    rewrite (HA _ Hk) in E. discriminate.
  - intros k. rewrite Hradio.
    destruct (mem k fi0) eqn:Hm; [reflexivity|].
    destruct (name_in k names) eqn:Hn; [|reflexivity].
    rewrite group_skip; [reflexivity|].
    destruct (has_id k pa) eqn:Hk; [|reflexivity].
    destruct (HB _ Hk) as [H|[H|H]]; try congruence. now rewrite H.
Qed.

Lemma has_id_of (page_index : nat) (ann : annotation) (id k : string) :
  get_full_annotation_field_id ann = Some id ->
  has_id k (page_index, ann) = String.eqb id k.
Proof. intros H. unfold has_id. cbn [snd]. now rewrite H. Qed.

Lemma scan_annotation_scanned l page_index ann st :
  scanned fi0 names l st ->
  scanned fi0 names (l ++ [(page_index, ann)])
    (scan_annotation names page_index ann st).
Proof.
  intros Hinv. destruct st as [fi radio]. unfold scan_annotation.
  destruct (get_full_annotation_field_id ann) as [id|] eqn:Hid.
  2:{ apply scanned_unchanged; [| |assumption];
        intros k Hk; unfold has_id in Hk; cbn [snd] in Hk;
        rewrite Hid in Hk; discriminate. }
  pose proof Hinv as (Hkeys & Hget & Hnd & Hradio). cbn [fst snd] in *.
  assert (Hmem : mem id fi = mem id fi0).
  { rewrite !mem_of_get, Hget. now destruct (get id fi0). }
  assert (Hsame : forall k, has_id k (page_index, ann) = true -> k = id).
  { intros k Hk. rewrite (@has_id_of _ _ _ _ Hid) in Hk.
    apply String.eqb_eq in Hk. now subst. }
  destruct (mem id fi) eqn:Hfield.
  - (* the annotation of a field *)
    split; [|split; [|split]]; cbn [fst snd].
    + now rewrite PyDictFacts.keys_update.
    + intros k. destruct (String.eqb id k) eqn:E.
      * apply String.eqb_eq in E. subst k.
        rewrite PyDictFacts.get_update_same, Hget.
        destruct (get id fi0) as [d0|]; [|reflexivity].
        cbn [option_map]. rewrite relocate_snoc, (@has_id_of _ _ _ _ Hid).
        rewrite String.eqb_refl. cbn [fst snd].
        now rewrite set_location_relocate.
      * apply String.eqb_neq in E.
        rewrite PyDictFacts.get_update_other by congruence.
        rewrite Hget. destruct (get k fi0) as [d0|]; [|reflexivity].
        cbn [option_map]. rewrite relocate_snoc, (@has_id_of _ _ _ _ Hid).
        apply String.eqb_neq in E. now rewrite E.
    + assumption.
    + intros k. rewrite Hradio.
      destruct (mem k fi0) eqn:Hm; [reflexivity|].
      destruct (name_in k names); [|reflexivity].
      rewrite group_skip; [reflexivity|].
      rewrite (@has_id_of _ _ _ _ Hid).
      destruct (String.eqb id k) eqn:E; [|reflexivity].
      apply String.eqb_eq in E. subst k. congruence.
  - assert (Hnone : get id fi0 = None).
    { rewrite mem_of_get in Hmem. now destruct (get id fi0). }
    destruct (name_in id names) eqn:Hname.
    2:{ apply scanned_unchanged; [| |assumption]; intros k Hk;
          apply Hsame in Hk; subst k; auto. }
    destruct (on_value ann) as [v|] eqn:Hv.
    2:{ assert (Hst : match ann_AP_N ann with
                      | None => (fi, radio)
                      | Some names0 =>
                          match filter (fun v => negb (String.eqb v "/Off"))
                                  names0 with
                          | [on_value] =>
                              (fi,
                               update id
                                 (append_radio_option
                                    {| opt_value := on_value;
                                       opt_rect := ann_Rect ann |})
                                 (if mem id radio then radio
                                  else set id
                                         (new_radio_group id (page_index + 1))
                                         radio))
                          | _ => (fi, radio)
                          end
                      end = (fi, radio)).
        { unfold on_value in Hv. destruct (ann_AP_N ann) as [names0|];
            [|reflexivity].
          destruct (filter _ names0) as [|v0 [|v1 vs]];
            [reflexivity|discriminate|reflexivity]. }
        rewrite Hst.
        apply scanned_unchanged; [| |assumption]; intros k Hk;
          apply Hsame in Hk; subst k; [assumption|].
        right. right. unfold is_button. cbn [snd]. now rewrite Hv. }
    (* a radio button *)
    assert (Hst : match ann_AP_N ann with
                  | None => (fi, radio)
                  | Some names0 =>
                      match filter (fun v => negb (String.eqb v "/Off"))
                              names0 with
                      | [on_value] =>
                          (fi,
                           update id
                             (append_radio_option
                                {| opt_value := on_value;
                                   opt_rect := ann_Rect ann |})
                             (if mem id radio then radio
                              else set id
                                     (new_radio_group id (page_index + 1))
                                     radio))
                      | _ => (fi, radio)
                      end
                  end
                  = (fi,
                     update id
                       (append_radio_option
                          {| opt_value := v; opt_rect := ann_Rect ann |})
                       (if mem id radio then radio
                        else set id (new_radio_group id (page_index + 1))
                               radio))).
    { unfold on_value in Hv. destruct (ann_AP_N ann) as [names0|];
        [|discriminate].
      destruct (filter _ names0) as [|v0 [|v1 vs]]; try discriminate.
      now injection Hv as ->. }
    rewrite Hst. clear Hst.
    split; [|split; [|split]]; cbn [fst snd].
    + assumption.
    + intros k. rewrite Hget. destruct (get k fi0) as [d0|] eqn:E;
        [|reflexivity].
      cbn [option_map]. rewrite relocate_snoc, (@has_id_of _ _ _ _ Hid).
      destruct (String.eqb id k) eqn:Ek; [|reflexivity].
      apply String.eqb_eq in Ek. subst k. congruence.
    + rewrite PyDictFacts.keys_update.
      destruct (mem id radio); [assumption|].
      now apply PyDictFacts.NoDup_keys_set.
    + intros k. destruct (String.eqb id k) eqn:E.
      * apply String.eqb_eq in E. subst k.
        rewrite PyDictFacts.get_update_same.
        rewrite <- Hmem, Hname.
        rewrite (@group_snoc id l (page_index, ann) v);
          [|rewrite (@has_id_of _ _ _ _ Hid); apply String.eqb_refl|assumption].
        cbn [fst snd].
        pose proof (Hradio id) as Hg. rewrite <- Hmem, Hname in Hg.
        rewrite <- Hg. rewrite (mem_of_get id radio).
        destruct (get id radio) as [g|] eqn:Eg.
        -- rewrite Eg. reflexivity.
        -- rewrite PyDictFacts.get_set_same. reflexivity.
      * pose proof E as Hne. apply String.eqb_neq in Hne.
        rewrite PyDictFacts.get_update_other by congruence.
        assert (Hk : get k (if mem id radio then radio
                            else set id (new_radio_group id (page_index + 1))
                                   radio) = get k radio).
        { destruct (mem id radio); [reflexivity|].
          apply PyDictFacts.get_set_other. congruence. }
        rewrite Hk, Hradio.
        destruct (mem k fi0); [reflexivity|].
        destruct (name_in k names); [|reflexivity].
        rewrite group_skip; [reflexivity|].
        rewrite (@has_id_of _ _ _ _ Hid), E. reflexivity.
Qed.

Lemma scan_fold_scanned todo : forall l st,
  scanned fi0 names l st ->
  scanned fi0 names (l ++ todo)
    (fold_left (fun st pa => scan_annotation names (fst pa) (snd pa) st)
       todo st).
Proof.
  induction todo as [|[page_index ann] todo IH]; intros l st Hinv;
    cbn [fold_left].
  - now rewrite app_nil_r.
  - replace (l ++ (page_index, ann) :: todo)
      with ((l ++ [(page_index, ann)]) ++ todo)
      by (now rewrite <- app_assoc).
    apply IH. cbn [fst snd]. now apply scan_annotation_scanned.
Qed.

End Step.

(** *** The first loop *)

Lemma collect_fields_names (fields : list (string * Field)) :
  forall fi names out fi' names' out',
    collect_fields fields fi names out = Ok (fi', names', out') ->
    NoDup (keys fi) ->
    NoDup (keys fi')
    /\ (forall id, In id (keys fi') ->
          In id (keys fi)
          \/ exists field, In (id, field) fields /\ Kids field = false)
    /\ (forall id, name_in id names = true -> name_in id names' = true)
    /\ (forall id field, In (id, field) fields -> Kids field = true ->
        ft_is (FT field) "/Btn" = true -> name_in id names' = true).
Proof.
  induction fields as [|[id field] rest IH];
    intros fi names out fi' names' out'; cbn [collect_fields].
  - intros [= <- <- <-] Hnd. split; [assumption|].
    split; [now left|]. split; [auto|]. intros id field [].
  - destruct (Kids field) eqn:Hkids.
    + intros H Hnd. destruct (IH _ _ _ _ _ _ H Hnd) as (H1 & H2 & H3 & H4).
      split; [assumption|]. split; [|split].
      * intros k Hk. destruct (H2 _ Hk) as [?|(f & Hf & Hfk)]; [now left|].
        right. exists f. split; [now right|assumption].
      * intros k Hk. apply H3.
        destruct (ft_is (FT field) "/Btn"); [|assumption].
        unfold name_in in *. rewrite existsb_app, Hk. reflexivity.
      * intros k f [[= -> ->]|Hin] Hk Hbtn; [|now apply (H4 k f)].
        apply H3. rewrite Hbtn. unfold name_in.
        rewrite existsb_app. cbn [existsb]. rewrite String.eqb_refl.
        now rewrite orb_true_r.
    + destruct (make_field_dict field id) as [[d o]|e] eqn:Hmake;
        cbn [bind fst snd]; [|discriminate].
      intros H Hnd.
      destruct (IH _ _ _ _ _ _ H (@PyDictFacts.NoDup_keys_set _ id d fi Hnd))
        as (H1 & H2 & H3 & H4).
      split; [assumption|]. split; [|split].
      * intros k Hk. destruct (H2 _ Hk) as [Hin|(f & Hf & Hfk)].
        -- rewrite PyDictFacts.keys_set_cases in Hin.
           destruct (mem id fi); [now left|].
           apply in_app_or in Hin. destruct Hin as [?|[<-|[]]]; [now left|].
           right. exists field. split; [now left|assumption].
        -- right. exists f. split; [now right|assumption].
      * assumption.
      * intros k f [[= -> ->]|Hin] Hk Hbtn; [congruence|now apply (H4 k f)].
Qed.

Lemma scanned_start (fi0 : dict field_dict) (names : list string) :
  scanned fi0 names [] (fi0, []).
Proof.
  split; [reflexivity|]. split; [|split].
  - intros k. cbn [fst]. now destruct (get k fi0).
  - constructor.
  - intros k. cbn [snd get]. destruct (mem k fi0); [reflexivity|].
    now destruct (name_in k names).
Qed.

(** What the two loops leave: the descriptors of the first loop, each
    relocated, and the radio groups. *)
Lemma scan_scanned (reader : PdfReader) fi radio out :
  scan reader = Ok (fi, radio, out) ->
  exists fields fi0 names,
    get_fields reader = Some fields
    /\ NoDup (keys fi0) /\ Forall (fresh_ok) fi0
    /\ (forall id, In id (keys fi0) ->
          exists field, In (id, field) fields /\ Kids field = false)
    /\ (forall id field, In (id, field) fields -> Kids field = true ->
          ft_is (FT field) "/Btn" = true -> name_in id names = true)
    /\ scanned fi0 names (numbered_annotations 0 (pages reader)) (fi, radio).
Proof.
  unfold scan. destruct (get_fields reader) as [fields|]; [|discriminate].
  destruct (collect_fields fields [] [] []) as [[[fi0 names] out0]|e] eqn:Hc;
    cbn [bind]; [|discriminate].
  destruct (scan_pages names 0 (pages reader) (fi0, [])) as [fi1 radio1] eqn:Hs.
  intros [= <- <- <-].
  pose proof Hc as Hc'. apply collect_fields_names in Hc'; [|constructor].
  destruct Hc' as (Hnd & Hkeys & _ & Hnames).
  apply LocationFacts.collect_fields_ok in Hc; [|constructor].
  destruct Hc as (Hfresh & _).
  exists fields, fi0, names. split; [reflexivity|].
  split; [assumption|]. split; [assumption|]. split; [|split].
  - intros id Hid. destruct (Hkeys _ Hid) as [[]|H]. exact H.
  - assumption.
  - rewrite <- Hs, scan_pages_fold.
    exact (@scan_fold_scanned fi0 names (numbered_annotations 0 (pages reader))
             [] (fi0, []) (scanned_start fi0 names)).
Qed.

Lemma with_location_filter (infos : list field_dict) :
  fst (with_location infos)
  = filter (fun d => match page d with Some _ => true | None => false end)
      infos.
Proof.
  induction infos as [|d rest IH]; [reflexivity|].
  cbn [with_location filter]. destruct (with_location rest) as [kept out].
  cbn [fst] in IH. destruct (page d); cbn [fst]; now rewrite IH.
Qed.

Lemma In_values {V} (v : V) (d : dict V) :
  In v (values d) -> exists k, In (k, v) d.
Proof.
  unfold values. intros H. apply in_map_iff in H.
  destruct H as ([k v'] & Hv & Hin). cbn [snd] in Hv. subst. now exists k.
Qed.

(** The descriptors [get_field_info] returns: a field of the first
    loop relocated by an annotation, or a radio group. *)
Lemma get_field_info_output (reader : PdfReader) out printed :
  get_field_info reader = Ok (out, printed) ->
  exists fields fi0 names fi radio,
    get_fields reader = Some fields
    /\ NoDup (keys fi0) /\ Forall fresh_ok fi0
    /\ (forall id, In id (keys fi0) ->
          exists field, In (id, field) fields /\ Kids field = false)
    /\ (forall id field, In (id, field) fields -> Kids field = true ->
          ft_is (FT field) "/Btn" = true -> name_in id names = true)
    /\ scanned fi0 names (numbered_annotations 0 (pages reader)) (fi, radio)
    /\ Permutation out
         (filter (fun d => match page d with Some _ => true | None => false end)
            (values fi)
          ++ values radio).
Proof.
  intros H.
  apply LocationFacts.get_field_info_stages in H.
  destruct H as (fi & radio & out0 & Hscan & Hsort & _ & _).
  apply scan_scanned in Hscan.
  destruct Hscan
    as (fields & fi0 & names & Hf & Hnd & Hfresh & Hkeys & Hnames & Hinv).
  exists fields, fi0, names, fi, radio.
  repeat (split; [assumption|]).
  rewrite <- with_location_filter.
  now apply LocationFacts.sort_fields_perm.
Qed.

Lemma located_entry fi0 names l fi radio d :
  NoDup (keys fi0) -> Forall fresh_ok fi0 ->
  scanned fi0 names l (fi, radio) ->
  In d (values fi) ->
  exists d0,
    In (field_id d, d0) fi0 /\ d = relocate (field_id d) l d0
    /\ page d0 = None /\ radio_options d0 = None.
Proof.
  intros Hnd Hfresh (Hkeys & Hget & _ & _) Hin. cbn [fst snd] in *.
  apply In_values in Hin. destruct Hin as (k & Hin).
  apply PyDictFacts.get_In in Hin; [|now rewrite Hkeys].
  rewrite Hget in Hin. destruct (get k fi0) as [d0|] eqn:E; [|discriminate].
  injection Hin as <-. apply PyDictFacts.get_In in E; [|assumption].
  rewrite Forall_forall in Hfresh. destruct (Hfresh _ E) as (Hid & Hp & Hr).
  cbn [fst snd] in *.
  assert (Hk : field_id (relocate k l d0) = k).
  { unfold relocate. now destruct (last_opt (matches k l)). }
  rewrite Hk. now exists d0.
Qed.

Lemma radio_entry fi0 names l fi radio d :
  scanned fi0 names l (fi, radio) ->
  In d (values radio) ->
  mem (field_id d) fi0 = false /\ name_in (field_id d) names = true
  /\ group (field_id d) l = Some d.
Proof.
  intros (_ & _ & Hnd & Hradio) Hin. cbn [fst snd] in *.
  apply In_values in Hin. destruct Hin as (k & Hin).
  apply PyDictFacts.get_In in Hin; [|assumption].
  rewrite Hradio in Hin.
  destruct (mem k fi0) eqn:Hm; [discriminate|].
  destruct (name_in k names) eqn:Hn; [|discriminate].
  assert (Hk : field_id d = k).
  { unfold group in Hin. destruct (radio_matches k l); [discriminate|].
    now injection Hin as <-. }
  rewrite Hk. split; [assumption|]. split; assumption.
Qed.

Lemma options_of_length (l : list (nat * annotation)) :
  Forall (fun pa => is_button (snd pa) = true) l ->
  List.length (options_of l) = List.length l.
Proof.
  induction 1 as [|x l Hx _ IH]; [reflexivity|].
  unfold options_of in *. cbn [flat_map]. unfold is_button in Hx.
  destruct (on_value (snd x)); [|discriminate]. cbn [app List.length].
  now f_equal.
Qed.

(** X15. A field other than a radio group is located by the last
    annotation, in reading order, that carries its identifier: its
    page is the page of that annotation counted from 1, and its
    ["rect"] the [/Rect] of that annotation. *)
Theorem field_located_by_last_annotation (reader : PdfReader) out printed :
  get_field_info reader = Ok (out, printed) ->
  forall d, In d out -> radio_options d = None ->
    exists pa,
      last_opt (matches (field_id d) (numbered_annotations 0 (pages reader)))
        = Some pa
      /\ page d = Some (fst pa + 1)
      /\ rect d = Some (ann_Rect (snd pa)).
Proof.
  intros H d Hin Hr.
  apply get_field_info_output in H.
  destruct H
    as (fields & fi0 & names & fi & radio & _ & Hnd & Hfresh & _ & _ & Hinv
        & Hperm).
  apply (Permutation_in _ Hperm) in Hin. apply in_app_or in Hin.
  destruct Hin as [Hin|Hin].
  - apply filter_In in Hin. destruct Hin as [Hin Hpage].
    destruct (@located_entry fi0 names _ fi radio d Hnd Hfresh Hinv Hin) as (d0 & _ & Hd & Hp0 & _).
    unfold relocate in Hd.
    destruct (last_opt (matches (field_id d) _)) as [pa|].
    + exists pa. split; [reflexivity|]. rewrite Hd. now split.
    + rewrite Hd, Hp0 in Hpage. discriminate.
  - destruct (@radio_entry fi0 names _ fi radio d Hinv Hin) as (_ & _ & Hg).
    unfold group in Hg. destruct (radio_matches _ _); [discriminate|].
    injection Hg as Hg. rewrite <- Hg in Hr. discriminate.
Qed.

(** X16. A radio group is returned for a button container exactly
    when some annotation with its identifier has one appearance state
    other than [/Off]; the group has one option for each such
    annotation, in reading order, with that state and the [/Rect] of
    the annotation, and stands on the page of the first of them. *)
Theorem radio_group_of_buttons (reader : PdfReader) out printed :
  get_field_info reader = Ok (out, printed) ->
  (forall d opts, In d out -> radio_options d = Some opts ->
     exists pa rest,
       radio_matches (field_id d) (numbered_annotations 0 (pages reader))
         = pa :: rest
       /\ type_ d = Some "radio_group"
       /\ page d = Some (fst pa + 1)
       /\ opts = options_of (pa :: rest)
       /\ List.length opts = S (List.length rest))
  /\ (forall fields id field g,
        get_fields reader = Some fields -> NoDup (keys fields) ->
        In (id, field) fields -> Kids field = true ->
        ft_is (FT field) "/Btn" = true ->
        group id (numbered_annotations 0 (pages reader)) = Some g ->
        In g out).
Proof.
  intros H.
  apply get_field_info_output in H.
  destruct H
    as (fields & fi0 & names & fi & radio & Hfields & Hnd & Hfresh & Hkeys
        & Hnames & Hinv & Hperm).
  split.
  - intros d opts Hin Hr.
    apply (Permutation_in _ Hperm) in Hin. apply in_app_or in Hin.
    destruct Hin as [Hin|Hin].
    + apply filter_In in Hin. destruct Hin as [Hin _].
      destruct (@located_entry fi0 names _ fi radio d Hnd Hfresh Hinv Hin) as (d0 & _ & Hd & _ & Hr0).
      assert (Hnone : radio_options d = None).
      { rewrite Hd. unfold relocate.
        now destruct (last_opt (matches (field_id d) _)). }
      congruence.
    + destruct (@radio_entry fi0 names _ fi radio d Hinv Hin) as (_ & _ & Hg).
      unfold group in Hg.
      destruct (radio_matches _ _) as [|pa rest] eqn:Hm; [discriminate|].
      injection Hg as Hg. exists pa, rest. split; [reflexivity|].
      rewrite <- Hg in Hr |- *. cbn [type_ page radio_options] in *.
      injection Hr as <-. repeat split.
      assert (Hall : Forall (fun pa => is_button (snd pa) = true) (pa :: rest)).
      { rewrite <- Hm. apply Forall_forall. intros x Hx.
        apply filter_In in Hx. destruct Hx as [_ Hx].
        now apply andb_prop in Hx. }
      exact (options_of_length Hall).
  - intros fields' id field g Hf' Hnd' Hin Hkids Hbtn Hg.
    rewrite Hfields in Hf'. injection Hf' as <-.
    apply (Permutation_in _ (Permutation_sym Hperm)).
    apply in_or_app. right.
    destruct Hinv as (_ & _ & Hndr & Hradio). cbn [fst snd] in *.
    assert (Hget : get id radio = Some g).
    { rewrite Hradio, (Hnames _ _ Hin Hkids Hbtn), Hg.
      destruct (mem id fi0) eqn:Hm; [|reflexivity].
      apply PyDictFacts.mem_In in Hm.
      destruct (Hkeys _ Hm) as (f & Hf & Hfk).
      assert (field = f).
      { apply PyDictFacts.get_In in Hin; [|assumption].
        apply PyDictFacts.get_In in Hf; [|assumption]. congruence. }
      congruence. }
    apply PyDictFacts.get_In in Hget; [|assumption].
    unfold values. apply in_map_iff. now exists (id, g).
Qed.

Lemma distinct_images_kept {A B} (keep : A -> bool) (image : A -> B) :
  forall l : list A,
    NoDup (map image l) -> NoDup (map image (filter keep l)).
Proof.
  intros l. induction l as [|a l IH]; cbn [map filter]; [auto|].
  intros H. inversion H as [|? ? Hnot Hrest]; subst.
  destruct (keep a); [|auto]. cbn [map]. constructor; [|auto].
  intros Hin. apply Hnot. apply in_map_iff in Hin.
  destruct Hin as (x & Hx & Hin). apply filter_In in Hin.
  apply in_map_iff. exists x. now split.
Qed.

(** X17. No two descriptors returned by [get_field_info] have the
    same [field_id]: a radio group never shares its identifier with a
    field, and every field and group is listed once. *)
Theorem field_ids_distinct (reader : PdfReader) out printed :
  get_field_info reader = Ok (out, printed) ->
  NoDup (map field_id out).
Proof.
  intros H.
  apply get_field_info_output in H.
  destruct H
    as (fields & fi0 & names & fi & radio & _ & Hnd & Hfresh & _ & _ & Hinv
        & Hperm).
  apply (Permutation_NoDup (Permutation_map field_id (Permutation_sym Hperm))).
  rewrite map_app.
  assert (Hfi : map field_id (values fi) = keys fi).
  { unfold values, keys. rewrite map_map. apply map_ext_in.
    intros [k d] Hin.
    assert (Hv : In d (values fi))
      by (unfold values; apply in_map_iff; now exists (k, d)).
    destruct Hinv as (Hkeys & Hget & _ & _). cbn [fst snd] in *.
    apply PyDictFacts.get_In in Hin; [|now rewrite Hkeys].
    rewrite Hget in Hin. destruct (get k fi0) as [d0|] eqn:E; [|discriminate].
    injection Hin as <-. apply PyDictFacts.get_In in E; [|assumption].
    rewrite Forall_forall in Hfresh. destruct (Hfresh _ E) as (Hid & _).
    cbn [fst snd] in *. unfold relocate.
    now destruct (last_opt (matches k _)). }
  assert (Hra : map field_id (values radio) = keys radio).
  { unfold values, keys. rewrite map_map. apply map_ext_in.
    intros [k d] Hin.
    assert (Hv : In d (values radio))
      by (unfold values; apply in_map_iff; now exists (k, d)).
    destruct (@radio_entry fi0 names _ fi radio d Hinv Hv) as (_ & _ & Hg).
    destruct Hinv as (_ & _ & Hndr & Hradio). cbn [fst snd] in *.
    apply PyDictFacts.get_In in Hin; [|assumption].
    rewrite Hradio in Hin.
    destruct (mem k fi0); [discriminate|].
    destruct (name_in k names); [|discriminate].
    unfold group in Hin. destruct (radio_matches k _); [discriminate|].
    now injection Hin as <-. }
  pose proof Hinv as (Hkeys & _ & Hndr & Hradio). cbn [fst snd] in *.
  apply NoDup_app; [| |].
  - apply distinct_images_kept. rewrite Hfi, Hkeys. assumption.
  - rewrite Hra. assumption.
  - intros id Hin1 Hin2.
    apply in_map_iff in Hin1. destruct Hin1 as (d & Hd & Hin1).
    apply filter_In in Hin1. destruct Hin1 as [Hin1 _].
    apply (in_map field_id) in Hin1. rewrite Hfi, Hkeys, Hd in Hin1.
    rewrite Hra in Hin2. apply PyDictFacts.In_keys in Hin2.
    destruct Hin2 as (g & Hin2).
    apply PyDictFacts.get_In in Hin2; [|assumption].
    rewrite Hradio in Hin2. apply PyDictFacts.mem_In in Hin1.
    rewrite Hin1 in Hin2. discriminate.
Qed.

Lemma numbered_annotations_In (ann : annotation) (annotations : list annotation)
    (pgs : list (list annotation)) : forall page_index,
  In annotations pgs -> In ann annotations ->
  exists pi, In (pi, ann) (numbered_annotations page_index pgs).
Proof.
  induction pgs as [|anns rest IH]; intros page_index Hpg Hann; [contradiction|].
  cbn [numbered_annotations]. destruct Hpg as [->|Hpg].
  - exists page_index. apply in_or_app. left.
    apply in_map_iff. now exists ann.
  - destruct (IH (S page_index) Hpg Hann) as [pi Hpi].
    exists pi. apply in_or_app. now right.
Qed.

Lemma last_opt_nonempty {A} (l : list A) : l <> [] -> exists x, last_opt l = Some x.
Proof.
  intros Hne. unfold last_opt. destruct (rev l) as [|x r] eqn:E; [|eauto].
  apply (f_equal (@rev A)) in E. rewrite rev_involutive in E.
  contradiction.
Qed.

(** X29. No field with a place is lost: every field of
    [reader.get_fields()] that is not a container and has an
    annotation carrying its identifier is returned, as a descriptor
    with that identifier, a page and a ["rect"] key, and not as a
    radio group. *)
Theorem annotated_fields_are_returned (reader : PdfReader) out printed :
  get_field_info reader = Ok (out, printed) ->
  forall fields id field annotations ann,
    get_fields reader = Some fields -> In (id, field) fields ->
    Kids field = false ->
    In annotations (pages reader) -> In ann annotations ->
    get_full_annotation_field_id ann = Some id ->
    exists d p r,
      In d out /\ field_id d = id /\ radio_options d = None
      /\ page d = Some p /\ rect d = Some r.
Proof.
  intros H fields id field annotations ann Hfields Hin Hkids Hpg Hann Hid.
  apply LocationFacts.get_field_info_stages in H.
  destruct H as (fi & radio & out0 & Hscan & Hsort & _ & _).
  pose proof Hscan as Hscan2. apply scan_scanned in Hscan2.
  destruct Hscan2
    as (fields' & fi0 & names & Hf' & Hnd & Hfresh & _ & _ & Hinv).
  apply LocationFacts.scan_ok in Hscan. destruct Hscan as (_ & _ & Hleaf).
  pose proof (Hleaf _ _ _ Hfields Hin Hkids) as Hkey.
  destruct Hinv as (Hkeys & Hget & _ & _). cbn [fst snd] in *.
  apply PyDictFacts.In_keys in Hkey. destruct Hkey as (d & Hd).
  pose proof Hd as Hd'.
  apply PyDictFacts.get_In in Hd'; [|now rewrite Hkeys].
  rewrite Hget in Hd'. destruct (get id fi0) as [d0|] eqn:E; [|discriminate].
  injection Hd' as Hd'. apply PyDictFacts.get_In in E; [|assumption].
  rewrite Forall_forall in Hfresh. destruct (Hfresh _ E) as (Hid0 & _ & Hr0).
  cbn [fst snd] in *.
  destruct (@numbered_annotations_In ann annotations (pages reader) 0 Hpg Hann)
    as [pi Hpi].
  destruct (@last_opt_nonempty _
              (matches id (numbered_annotations 0 (pages reader))))
    as [pa Hpa].
  { intros Hnil.
    assert (Hm : In (pi, ann)
                   (matches id (numbered_annotations 0 (pages reader)))).
    { apply filter_In. split; [exact Hpi|]. unfold has_id. cbn [snd].
      rewrite Hid. apply String.eqb_refl. }
    rewrite Hnil in Hm. contradiction. }
  unfold relocate in Hd'. rewrite Hpa in Hd'.
  exists d, (fst pa + 1), (ann_Rect (snd pa)).
  split.
  - apply LocationFacts.sort_fields_perm in Hsort.
    apply (Permutation_in _ (Permutation_sym Hsort)).
    apply in_or_app. left. apply LocationFacts.with_location_In. split.
    + unfold values. apply in_map_iff. now exists (id, d).
    + rewrite <- Hd'. discriminate.
  - rewrite <- Hd'. now repeat split.
Qed.

Lemma annotated_fields_are_returned_witness :
  exists out printed d,
    get_field_info PdfExample.mixed_reader = Ok (out, printed)
    /\ In d out /\ field_id d = "name" /\ page d = Some 1.
Proof.
  destruct (get_field_info PdfExample.mixed_reader) as [[out printed]|e] eqn:E;
    [|vm_compute in E; discriminate].
  destruct (@annotated_fields_are_returned PdfExample.mixed_reader out printed E
              _ "name" PdfExample.text_field
              [PdfExample.widget "name" (Some (72, 700, 300, 720)%Q)]
              (PdfExample.widget "name" (Some (72, 700, 300, 720)%Q))
              eq_refl)
    as (d & p & r & Hin & Hid & _ & Hp & _).
  - cbn. auto.
  - reflexivity.
  - cbn. auto.
  - cbn. auto.
  - reflexivity.
  - exists out, printed, d. split; [reflexivity|]. split; [exact Hin|].
    split; [exact Hid|].
    vm_compute in E. injection E as <- _.
    destruct Hin as [<-|[<-|[]]]; [reflexivity|discriminate Hid].
Defined.

Lemma field_located_by_last_annotation_witness :
  exists out printed,
    get_field_info PdfExample.mixed_reader = Ok (out, printed)
    /\ forall d, In d out -> radio_options d = None ->
         exists pa,
           last_opt (matches (field_id d)
                       (numbered_annotations 0 (pages PdfExample.mixed_reader)))
             = Some pa
           /\ page d = Some (fst pa + 1)
           /\ rect d = Some (ann_Rect (snd pa)).
Proof.
  destruct (get_field_info PdfExample.mixed_reader) as [[out printed]|e] eqn:E;
    [|vm_compute in E; discriminate].
  exists out, printed. split; [reflexivity|].
  exact (@field_located_by_last_annotation PdfExample.mixed_reader out printed E).
Defined.

Lemma radio_group_of_buttons_witness :
  exists out printed d,
    get_field_info PdfExample.mixed_reader = Ok (out, printed)
    /\ In d out /\ field_id d = "colour" /\ page d = Some 2
    /\ option_map (map opt_value) (radio_options d) = Some ["/red"; "/blue"].
Proof.
  destruct (get_field_info PdfExample.mixed_reader) as [[out printed]|e] eqn:E;
    [|vm_compute in E; discriminate].
  destruct (@radio_group_of_buttons PdfExample.mixed_reader out printed E)
    as [_ Hgroup].
  destruct (group "colour" (numbered_annotations 0 (pages PdfExample.mixed_reader)))
    as [g|] eqn:Hg; [|vm_compute in Hg; discriminate].
  exists out, printed, g. split; [reflexivity|]. split.
  - apply (Hgroup _ "colour" PdfExample.radio_parent g eq_refl).
    + vm_compute. repeat constructor; cbn; intuition discriminate.
    + cbn. auto.
    + reflexivity.
    + reflexivity.
    + exact Hg.
  - vm_compute in Hg. injection Hg as <-. now repeat split.
Defined.

Lemma field_ids_distinct_witness :
  exists out printed,
    get_field_info PdfExample.mixed_reader = Ok (out, printed)
    /\ NoDup (map field_id out).
Proof.
  destruct (get_field_info PdfExample.mixed_reader) as [[out printed]|e] eqn:E;
    [|vm_compute in E; discriminate].
  exists out, printed. split; [reflexivity|].
  exact (@field_ids_distinct PdfExample.mixed_reader out printed E).
Defined.

End PdfExtra.

(** ** The GIF validator: the verdict and what is printed *)

Module ValidatorsExtra.
Import Py Validators ValidatorsSpec.

Section Facts.
Variable path_str : string -> string.
Variable path_name : string -> string.
Variable fmt_f : nat -> Q -> string.



End Facts.

End ValidatorsExtra.

(** ** The slide images: hidden slides keep their place *)

Module ThumbnailImagesExtra.
Import Py ThumbnailImages ImagesSpec.

Lemma hidden_from_ge (shows : list (option string)) : forall idx k,
  In k (hidden_from idx shows) -> idx + 1 <= k.
Proof.
  induction shows as [|show rest IH]; intros idx k; cbn [hidden_from];
    [intros []|].
  intros H. apply in_app_or in H. destruct H as [H|H].
  - destruct (is_hidden show); [|contradiction].
    destruct H as [<-|[]]. lia.
  - apply IH in H. lia.
Qed.

Lemma hidden_from_mem (shows : list (option string)) : forall idx j show,
  nth_error shows j = Some show ->
  existsb (Nat.eqb (idx + j + 1)) (hidden_from idx shows) = is_hidden show.
Proof.
  induction shows as [|show0 rest IH]; intros idx j show Hj;
    [destruct j; discriminate|].
  cbn [hidden_from]. rewrite existsb_app. destruct j as [|j].
  - injection Hj as ->. rewrite Nat.add_0_r.
    destruct (is_hidden show) eqn:Hh.
    + cbn [existsb]. now rewrite Nat.eqb_refl.
    + cbn [existsb orb].
      destruct (existsb (Nat.eqb (idx + 1)) (hidden_from (S idx) rest)) eqn:E;
        [|reflexivity].
      apply existsb_exists in E. destruct E as (k & Hk & Heq).
      apply Nat.eqb_eq in Heq. subst k. apply hidden_from_ge in Hk. lia.
  - cbn [nth_error] in Hj.
    replace (idx + S j + 1) with (S idx + j + 1) by lia.
    rewrite (IH (S idx) j show Hj).
    destruct (is_hidden show0); [|reflexivity].
    cbn [existsb]. replace (S idx + j + 1 =? idx + 1) with false; [reflexivity|].
    symmetry. apply Nat.eqb_neq. lia.
Qed.

Section Convert.
Variable image_size : string -> Z * Z.

Lemma place_images_positions (temp_dir : string) (hidden : list nat)
    (visible : list string) (size : Z * Z) :
  forall (suffix : list (option string)) (start vidx : nat),
    (forall j show, nth_error suffix j = Some show ->
       existsb (Nat.eqb (start + j + 1)) hidden = is_hidden show) ->
    exists all placeholders,
      place_images temp_dir hidden visible size
        (seq (start + 1) (List.length suffix)) vidx = Ok (all, placeholders)
      /\ List.length all
         = hidden_count suffix
           + Nat.min (visible_count suffix) (List.length visible - vidx)
      /\ placeholders
         = map (fun n => (hidden_path temp_dir n, size))
             (hidden_from start suffix)
      /\ (vidx + visible_count suffix <= List.length visible ->
          List.length all = List.length suffix
          /\ forall j show, nth_error suffix j = Some show ->
               nth_error all j
               = if is_hidden show
                 then Some (hidden_path temp_dir (start + j + 1))
                 else nth_error visible (vidx + visible_before suffix j)).
Proof.
  unfold hidden_count, visible_count, visible_before, visible_count.
  induction suffix as [|show rest IH]; intros start vidx Hmem.
  - exists [], []. split; [reflexivity|]. split; [reflexivity|].
    split; [reflexivity|]. intros _. split; [reflexivity|].
    intros j show Hj. destruct j; discriminate.
  - cbn [List.length seq place_images].
    pose proof (Hmem 0 show eq_refl) as Hhead.
    rewrite Nat.add_0_r in Hhead. rewrite Hhead.
    assert (Hrest : forall j show0, nth_error rest j = Some show0 ->
              existsb (Nat.eqb (S start + j + 1)) hidden = is_hidden show0).
    { intros j show0 Hj. rewrite <- (Hmem (S j) show0 Hj). f_equal. f_equal. lia. }
    cbn [filter hidden_from]. destruct (is_hidden show) eqn:Hh; cbn [negb].
    + destruct (IH (S start) vidx Hrest) as (all & ps & Hrun & Hlen & Hps & Hpos).
      change (S (start + 1)) with (S start + 1). rewrite Hrun. cbn [bind fst snd].
      do 2 eexists. split; [reflexivity|]. cbn [List.length app map].
      split; [lia|]. split; [now rewrite Hps|].
      intros Henough. destruct (Hpos Henough) as [Hall Hnth].
      split; [lia|]. intros j show0 Hj. destruct j as [|j].
      * injection Hj as <-. rewrite Hh, Nat.add_0_r. reflexivity.
      * cbn [nth_error firstn filter] in *. rewrite Hh. cbn [negb].
        rewrite (Hnth j show0 Hj).
        replace (start + S j + 1) with (S start + j + 1) by lia. reflexivity.
    + destruct (vidx <? List.length visible) eqn:Hv.
      * apply Nat.ltb_lt in Hv.
        destruct (nth_error visible vidx) as [img|] eqn:Himg;
          [|apply nth_error_None in Himg; lia].
        unfold getitem. rewrite Himg. cbn [bind].
        destruct (IH (S start) (S vidx) Hrest)
          as (all & ps & Hrun & Hlen & Hps & Hpos).
        change (S (start + 1)) with (S start + 1). rewrite Hrun.
        cbn [bind fst snd]. do 2 eexists. split; [reflexivity|].
        cbn [List.length app]. split; [lia|]. split; [exact Hps|].
        intros Henough. destruct Hpos as [Hall Hnth]; [lia|].
        split; [lia|]. intros j show0 Hj. destruct j as [|j].
        -- injection Hj as <-. rewrite Hh. cbn [firstn filter List.length nth_error].
           now rewrite Nat.add_0_r.
        -- cbn [nth_error firstn filter] in *. rewrite Hh. cbn [negb List.length].
           rewrite (Hnth j show0 Hj).
           replace (start + S j + 1) with (S start + j + 1) by lia.
           replace (vidx + S (List.length (filter (fun show1 => negb (is_hidden show1))
                                             (firstn j rest))))
             with (S vidx + List.length (filter (fun show1 => negb (is_hidden show1))
                                           (firstn j rest))) by lia.
           reflexivity.
      * apply Nat.ltb_ge in Hv.
        destruct (IH (S start) vidx Hrest) as (all & ps & Hrun & Hlen & Hps & Hpos).
        change (S (start + 1)) with (S start + 1). rewrite Hrun.
        do 2 eexists. split; [reflexivity|]. cbn [List.length app].
        split; [lia|]. split; [exact Hps|].
        intros Henough. lia.
Qed.

(** X21. When both converters succeed, [convert_to_images] returns a
    list in which no slide changes place: as long as there is an
    image for every slide that is shown, the list has one entry a
    slide, the entry of a hidden slide is its placeholder
    [hidden-NNN.jpg], numbered from 1, and the entry of a slide that
    is shown is the next of the sorted page images.  A placeholder is
    saved for each hidden slide and for no other.  With fewer page
    images than slides shown the list is shorter than the deck: the
    slides left without an image are dropped, not replaced. *)
Theorem convert_to_images_keeps_positions (shows : list (option string))
    (temp_dir : string) (dpi : nat) (r : rendering) :
  soffice_returncode r = 0%Z -> pdf_exists r = true ->
  pdftoppm_returncode r = 0%Z ->
  exists all placeholders out,
    convert_to_images image_size shows temp_dir dpi r
      = Ok (all, placeholders, out)
    /\ List.length all
       = hidden_count shows
         + Nat.min (visible_count shows) (List.length (globbed r))
    /\ map fst placeholders
       = map (hidden_path temp_dir) (hidden_from 0 shows)
    /\ (visible_count shows <= List.length (globbed r) ->
        List.length all = List.length shows
        /\ forall i show, nth_error shows i = Some show ->
             nth_error all i
             = if is_hidden show
               then Some (hidden_path temp_dir (i + 1))
               else nth_error
                      (map (fun name => temp_dir +++ "/" +++ name)
                         (sorted (globbed r)))
                      (visible_before shows i)).
Proof.
  intros Hs Hp Hi. unfold convert_to_images. rewrite Hs, Hp, Hi.
  cbn [Z.eqb negb orb].
  set (visible := map (fun name => temp_dir +++ "/" +++ name)
                    (sorted (globbed r))).
  assert (Hvis : List.length visible = List.length (globbed r)).
  { unfold visible. rewrite length_map.
    apply Permutation_length, ReplaceFacts.sorted_perm. }
  unfold range. rewrite GifSaveFacts.range_fuel_step_1 by lia.
  replace (List.length shows + 1 - 1) with (List.length shows) by lia.
  destruct (@place_images_positions temp_dir (hidden_from 0 shows) visible
              match visible with
              | first :: _ => image_size first
              | [] => (1920, 1080)%Z
              end shows 0 0)
    as (all & ps & Hrun & Hlen & Hps & Hpos).
  { intros j show Hj. apply (hidden_from_mem shows 0 j Hj). }
  change (0 + 1) with 1 in Hrun. rewrite Hrun. cbn [bind fst snd].
  do 3 eexists. split; [reflexivity|].
  rewrite Nat.sub_0_r, Hvis in Hlen. split; [exact Hlen|]. split.
  - rewrite Hps, map_map. reflexivity.
  - intros Henough. destruct Hpos as [Hall Hnth]; [rewrite Hvis; lia|].
    split; [exact Hall|]. intros i show Hshow.
    rewrite (Hnth i show Hshow). reflexivity.
Qed.

End Convert.

Lemma convert_to_images_keeps_positions_witness :
  exists placeholders out,
    convert_to_images (fun _ => (1000, 750)%Z) [None; Some "0"; None] "tmp" 100
      {| soffice_returncode := 0; pdf_exists := true;
         pdftoppm_returncode := 0;
         globbed := ["slide-2.jpg"; "slide-1.jpg"] |}
    = Ok (["tmp/slide-1.jpg"; "tmp/hidden-002.jpg"; "tmp/slide-2.jpg"],
          placeholders, out)
    /\ map fst placeholders = ["tmp/hidden-002.jpg"].
Proof.
  destruct (@convert_to_images_keeps_positions (fun _ => (1000, 750)%Z)
              [None; Some "0"; None] "tmp" 100
              {| soffice_returncode := 0; pdf_exists := true;
                 pdftoppm_returncode := 0;
                 globbed := ["slide-2.jpg"; "slide-1.jpg"] |}
              eq_refl eq_refl eq_refl)
    as (all & ps & out & Hrun & _ & Hps & _).
  exists ps, out. split; [|exact Hps].
  rewrite Hrun. vm_compute in Hrun. injection Hrun as <- _ _. reflexivity.
Defined.

End ThumbnailImagesExtra.

(** ** Adding frames: one size for all *)

Module GifFramesExtra.
Import Py GifBuilder GifFrames FramesSpec.

Lemma shape_is_true (s : list Z) (h w : Z) :
  shape_is s h w = true <-> s = [h; w].
Proof.
  unfold shape_is. destruct s as [|a [|b [|c s]]];
    try (split; [discriminate|discriminate]).
  rewrite andb_true_iff, !Z.eqb_eq. split.
  - now intros [-> ->].
  - now intros [= -> ->].
Qed.

Section Frames.
Variable Frame PilImage Score : Type.
Variable to_array : PilImage -> Frame.
Variable shape : Frame -> list Z.
Variable resize : Frame -> Z -> Z -> result Frame.
Variable similarity : Frame -> Frame -> result Score.
Variable score_lt : Score -> float -> bool.

(** Pillow gives a resized image the size asked for. *)
Hypothesis resize_shape : forall f w h f',
  resize f w h = Ok f' -> shape f' = [h; w].

Lemma add_frame_stores (self self' : GIFBuilder Frame)
    (input : Frame + PilImage) :
  add_frame to_array shape resize self input = Ok self' ->
  exists f,
    self' = set_frames self (frames self ++ [f])
    /\ stored_as to_array shape resize self input f
    /\ shape f = [height self; width self].
Proof.
  unfold add_frame, stored_as.
  set (array := match input with inr img => to_array img | inl a => a end).
  destruct (shape_is (shape array) (height self) (width self)) eqn:E;
    cbn [negb bind].
  - intros [= <-]. exists array. split; [reflexivity|].
    split; [reflexivity|]. now apply shape_is_true.
  - destruct (resize array (width self) (height self)) as [f|e] eqn:Hr;
      cbn [bind]; [|discriminate].
    intros [= <-]. exists f. split; [reflexivity|]. split; [reflexivity|].
    now apply resize_shape in Hr.
Qed.

Lemma add_frames_stores (fs : list (Frame + PilImage)) :
  forall self self' : GIFBuilder Frame,
    add_frames to_array shape resize self fs = Ok self' ->
    exists added,
      self' = set_frames self (frames self ++ added)
      /\ Forall2 (stored_as to_array shape resize self) fs added
      /\ Forall (fun f => shape f = [height self; width self]) added.
Proof.
  induction fs as [|input rest IH]; intros self self'; cbn [add_frames].
  - intros [= <-]. exists []. rewrite app_nil_r.
    split; [now destruct self|]. split; constructor.
  - destruct (add_frame to_array shape resize self input) as [self1|e] eqn:E;
      cbn [bind]; [|discriminate].
    intros Hrest. apply add_frame_stores in E.
    destruct E as (f & -> & Hf & Hshape).
    apply IH in Hrest. destruct Hrest as (added & -> & Hadded & Hshapes).
    cbn [set_frames frames width height fps] in *.
    exists (f :: added). rewrite <- app_assoc.
    split; [reflexivity|]. split; constructor; assumption.
Qed.

(** X22. [add_frames] appends one frame for each input, in order, and
    touches neither the frames already there nor the size and rate of
    the builder.  An input that has the size of the builder is stored
    as it is, any other resized; so when the frames already there
    have the size of the builder, all frames have it afterwards. *)
Theorem add_frames_keeps_one_size (self self' : GIFBuilder Frame)
    (fs : list (Frame + PilImage)) :
  add_frames to_array shape resize self fs = Ok self' ->
  (exists added,
     frames self' = frames self ++ added
     /\ Forall2 (stored_as to_array shape resize self) fs added)
  /\ width self' = width self /\ height self' = height self
  /\ fps self' = fps self
  /\ (uniform shape self -> uniform shape self').
Proof.
  intros H. apply add_frames_stores in H.
  destruct H as (added & -> & Hadded & Hshapes).
  cbn [set_frames frames width height fps].
  split; [now exists added|]. repeat (split; [reflexivity|]).
  unfold uniform. cbn [set_frames frames width height].
  intros Hu. apply Forall_app. now split.
Qed.

(** [frame.shape] in full: height, width and what follows, of which
    [shape] is the first two. *)
Variable layout : Frame -> list Z.

Hypothesis shape_prefix : forall f, shape f = firstn 2 (layout f).

(** A PIL image converted to RGB gives an array of three channels,
    and so does resizing such an array. *)
Hypothesis to_array_rgb : forall img,
  exists h w, layout (to_array img) = [h; w; 3%Z].

Hypothesis resize_rgb : forall f w h f' h0 w0,
  layout f = [h0; w0; 3%Z] -> resize f w h = Ok f' ->
  layout f' = [h; w; 3%Z].

(** numpy subtracts two arrays of one shape. *)
Hypothesis similarity_same_layout : forall a b,
  layout a = layout b -> exists s, similarity a b = Ok s.

Lemma dedup_loop_one_layout (l : list Z) threshold todo :
  Forall (fun f => layout f = l) todo ->
  forall deduplicated removed,
    deduplicated <> [] ->
    Forall (fun f => layout f = l) deduplicated ->
    exists d' removed',
      dedup_loop similarity score_lt threshold todo deduplicated removed
        = Ok (d', removed')
      /\ Forall (fun f => layout f = l) d'.
Proof.
  induction 1 as [|curr todo Hcurr _ IH]; intros d r Hd Hu; cbn [dedup_loop].
  - eauto.
  - destruct (GifBuilderFacts.last_item_nonempty Hd) as [prev Hprev].
    rewrite Hprev. cbn [bind].
    assert (Hp : layout prev = l).
    { clear -Hprev Hu. induction Hu as [|x l' Hx Hl IH]; [discriminate|].
      destruct l' as [|y l']; [now injection Hprev as <-|].
      apply IH. exact Hprev. }
    destruct (@similarity_same_layout prev curr) as [s Hs]; [congruence|].
    rewrite Hs. cbn [bind]. destruct (score_lt s threshold).
    + apply IH; [destruct d; discriminate|].
      apply Forall_app. split; [assumption|now constructor].
    + now apply IH.
Qed.

Lemma one_layout_deduplicates (self : GIFBuilder Frame) (l : list Z)
    (threshold : float) :
  Forall (fun f => layout f = l) (frames self) ->
  exists removed self',
    deduplicate_frames similarity score_lt self threshold
      = Ok (removed, self')
    /\ Forall (fun f => layout f = l) (frames self')
    /\ width self' = width self /\ height self' = height self.
Proof.
  intros Hl. unfold deduplicate_frames.
  destruct (List.length (frames self) <? 2) eqn:Hlen;
    [do 2 eexists; split; [reflexivity|auto]|].
  destruct (frames self) as [|first rest] eqn:Hfr; [discriminate Hlen|].
  inversion Hl as [|? ? Hfirst Hrest]; subst.
  destruct (@dedup_loop_one_layout (layout first) threshold rest Hrest
              [first] 0)
    as (d & n & Hloop & Hd); [discriminate|now constructor|].
  rewrite Hloop. cbn [bind fst snd].
  do 2 eexists. split; [reflexivity|]. destruct self. cbn. auto.
Qed.

(** X23. Frames put into a new builder through [add_frames] all have
    the size of the builder.  When they also agree on what follows
    height and width in their shape, the channels, no two of them
    fail to compare: [deduplicate_frames] returns and leaves frames
    of that size.  This is so when every input is a PIL image: the
    stored frames are then arrays of three channels. *)
Theorem added_frames_deduplicate (width height fps : Z)
    (fs : list (Frame + PilImage)) (self : GIFBuilder Frame)
    (threshold : float) :
  add_frames to_array shape resize (init width height fps) fs = Ok self ->
  let deduplicates :=
    exists removed self',
      deduplicate_frames similarity score_lt self threshold
        = Ok (removed, self')
      /\ uniform shape self' in
  uniform shape self
  /\ ((forall a b, In a (frames self) -> In b (frames self) ->
         skipn 2 (layout a) = skipn 2 (layout b)) ->
      deduplicates)
  /\ (Forall (fun input => exists img, input = inr img) fs ->
      Forall (fun f => layout f = [height; width; 3%Z]) (frames self)
      /\ deduplicates).
Proof.
  intros H deduplicates. apply add_frames_stores in H.
  destruct H as (added & -> & Hstored & Hshapes).
  cbn [init set_frames frames GifBuilder.width GifBuilder.height app] in *.
  assert (Hdedup : forall l,
            Forall (fun f => layout f = height :: width :: l) added ->
            deduplicates).
  { intros l Hl.
    destruct (@one_layout_deduplicates
                (set_frames (init width height fps) added)
                (height :: width :: l) threshold Hl)
      as (removed & self' & Hrun & Hl' & Hw & Hh).
    exists removed, self'. split; [exact Hrun|].
    unfold uniform. rewrite Hw, Hh. cbn [init set_frames GifBuilder.width
                                          GifBuilder.height].
    eapply Forall_impl; [|exact Hl']. intros f Hf.
    now rewrite shape_prefix, Hf. }
  split; [exact Hshapes|]. split.
  - intros Hsame. destruct added as [|first rest].
    + apply (Hdedup []). constructor.
    + apply (Hdedup (skipn 2 (layout first))).
      apply Forall_forall. intros f Hf.
      rewrite Forall_forall in Hshapes. pose proof (Hshapes f Hf) as Hs.
      rewrite shape_prefix in Hs.
      rewrite <- (Hsame f first Hf (or_introl eq_refl)).
      rewrite <- (firstn_skipn 2 (layout f)) at 1. now rewrite Hs.
  - intros Himages.
    assert (Hrgb : Forall (fun f => layout f = [height; width; 3%Z]) added).
    { clear Hdedup. induction Hstored as [|input f fs' added' Hf _ IH];
        [constructor|].
      inversion Himages as [|? ? [img ->] Hrest]; subst.
      inversion Hshapes as [|? ? Hsize Hsizes]; subst.
      constructor; [|now apply IH].
      unfold stored_as in Hf.
      cbn [init GifBuilder.width GifBuilder.height] in Hf.
      destruct (to_array_rgb img) as (h0 & w0 & Harray).
      destruct (shape_is (shape (to_array img)) height width).
      - subst f. rewrite shape_prefix, Harray in Hsize.
        cbn [firstn] in Hsize. injection Hsize as -> ->. exact Harray.
      - exact (resize_rgb Harray Hf). }
    split; [exact Hrgb|]. exact (Hdedup [3%Z] Hrgb).
Qed.

End Frames.

Lemma add_frames_keeps_one_size_witness :
  exists self' : GIFBuilder FramesExample.Frame,
    add_frames FramesExample.to_array FramesExample.shape FramesExample.resize
      (init 480 480 15) FramesExample.inputs = Ok self'
    /\ frames self' = [(480, 480); (480, 480); (480, 480)]%Z
    /\ uniform FramesExample.shape self'.
Proof.
  eexists. split; [vm_compute; reflexivity|]. split; [reflexivity|].
  apply (@add_frames_keeps_one_size FramesExample.Frame FramesExample.PilImage
           FramesExample.to_array FramesExample.shape FramesExample.resize
           (fun f w h f' (H : FramesExample.resize f w h = Ok f') =>
              match H in _ = r
                return match r with
                       | Ok x => FramesExample.shape x = [h; w]
                       | Raise _ => True
                       end
              with eq_refl => eq_refl end)
           (init 480 480 15) _ FramesExample.inputs).
  - vm_compute. reflexivity.
  - constructor.
Defined.

Lemma added_frames_deduplicate_witness :
  (exists self removed self',
     add_frames FramesExample.array_of FramesExample.size
       FramesExample.resized (init 480 480 15) FramesExample.images = Ok self
     /\ frames self = [(480, 480, 3); (480, 480, 3)]%Z
     /\ deduplicate_frames FramesExample.subtracted FramesExample.score_lt
          self 0.9995%float = Ok (removed, self')
     /\ uniform FramesExample.size self')
  /\ (exists self e,
        add_frames FramesExample.array_of FramesExample.size
          FramesExample.resized (init 480 480 15) FramesExample.mixed
        = Ok self
        /\ uniform FramesExample.size self
        /\ deduplicate_frames FramesExample.subtracted FramesExample.score_lt
             self 0.9995%float = Raise e).
Proof.
  assert (Hresize : forall (f : FramesExample.Array) (w h : Z)
                      (f' : FramesExample.Array),
            FramesExample.resized f w h = Ok f' ->
            FramesExample.size f' = [h; w]).
  { intros [[h0 w0] c] w h f'. unfold FramesExample.resized.
    destruct ((c =? 3) || (c =? 4))%Z; [|discriminate].
    intros H. injection H as <-. reflexivity. }
  assert (Hrgb : forall img : FramesExample.PilImage,
            exists h w,
              FramesExample.layout (FramesExample.array_of img)
              = [h; w; 3%Z]).
  { intros [w h]. now exists h, w. }
  assert (Hresized : forall (f : FramesExample.Array) (w h : Z)
                       (f' : FramesExample.Array) (h0 w0 : Z),
            FramesExample.layout f = [h0; w0; 3%Z] ->
            FramesExample.resized f w h = Ok f' ->
            FramesExample.layout f' = [h; w; 3%Z]).
  { intros [[h1 w1] c] w h f' h0 w0 Hl. injection Hl as -> -> ->.
    intros H. injection H as <-. reflexivity. }
  assert (Hsim : forall a b : FramesExample.Array,
            FramesExample.layout a = FramesExample.layout b ->
            exists s, FramesExample.subtracted a b = Ok s).
  { intros [[ah aw] ac] [[bh bw] bc] H. injection H as -> -> ->.
    unfold FramesExample.subtracted. rewrite !Z.eqb_refl. now exists 1%float. }
  split.
  - destruct (@added_frames_deduplicate FramesExample.Array
                FramesExample.PilImage float FramesExample.array_of
                FramesExample.size FramesExample.resized
                FramesExample.subtracted FramesExample.score_lt Hresize
                FramesExample.layout (fun f => eq_refl) Hrgb Hresized Hsim
                480%Z 480%Z 15%Z FramesExample.images
                {| width := 480; height := 480; fps := 15;
                   frames := [(480, 480, 3); (480, 480, 3)]%Z |}
                0.9995%float)
      as (_ & _ & Himages).
    + vm_compute. reflexivity.
    + destruct Himages as (_ & removed & self' & Hrun & Hu).
      * repeat constructor; eauto.
      * do 3 eexists. split; [vm_compute; reflexivity|].
        split; [reflexivity|]. split; eassumption.
  - destruct (@added_frames_deduplicate FramesExample.Array
                FramesExample.PilImage float FramesExample.array_of
                FramesExample.size FramesExample.resized
                FramesExample.subtracted FramesExample.score_lt Hresize
                FramesExample.layout (fun f => eq_refl) Hrgb Hresized Hsim
                480%Z 480%Z 15%Z FramesExample.mixed
                {| width := 480; height := 480; fps := 15;
                   frames := [(480, 480, 3); (480, 480, 4)]%Z |}
                0.9995%float)
      as (Hu & _).
    + vm_compute. reflexivity.
    + do 2 eexists. split; [vm_compute; reflexivity|].
      split; [exact Hu|]. vm_compute. reflexivity.
Defined.

End GifFramesExtra.

(** ** The text regions: each slide outlined with its own *)

Module ThumbnailRegionsExtra.
Import Py Thumbnail ThumbnailSpec ThumbnailRegions RegionsSpec.

Lemma get_set_regions_same k v d : get_regions k (set_regions k v d) = Some v.
Proof.
  induction d as [|[k' v'] d IH]; cbn [set_regions get_regions].
  - now rewrite Z.eqb_refl.
  - destruct (k =? k')%Z eqn:E; cbn [get_regions].
    + now rewrite Z.eqb_refl.
    + now rewrite E.
Qed.

Lemma get_set_regions_other k k' v d :
  k' <> k -> get_regions k' (set_regions k v d) = get_regions k' d.
Proof.
  intros Hne. induction d as [|[k0 v0] d IH]; cbn [set_regions get_regions].
  - apply Z.eqb_neq in Hne. now rewrite Hne.
  - destruct (k =? k0)%Z eqn:E; cbn [get_regions].
    + apply Z.eqb_eq in E. subst k0. apply Z.eqb_neq in Hne. now rewrite Hne.
    + now rewrite IH.
Qed.

Lemma slide_key_injective (n m : nat) :
  "slide-" +++ str_of_nat n = "slide-" +++ str_of_nat m -> n = m.
Proof.
  intros H. pose proof (ReplaceExtra.slide_index_of_key n) as Hn.
  rewrite H, ReplaceExtra.slide_index_of_key in Hn.
  injection Hn as Hn. lia.
Qed.

Lemma collect_regions_lookup (slides : PyDict.dict (PyDict.dict ShapeBox)) :
  Forall (fun e => exists n, fst e = "slide-" +++ str_of_nat n) slides ->
  NoDup (PyDict.keys slides) ->
  forall acc,
  exists regs,
    collect_regions slides acc = Ok regs
    /\ forall n, get_regions (Z.of_nat n) regs
                 = match regions_of_slide slides n with
                   | Some regions => Some regions
                   | None => get_regions (Z.of_nat n) acc
                   end.
Proof.
  unfold regions_of_slide.
  induction slides as [|[slide_key shapes] rest IH]; intros Hkeys Hnd acc.
  - exists acc. split; [reflexivity|]. intros n. reflexivity.
  - inversion Hkeys as [|? ? [m Hm] Hrest]; subst. cbn [fst] in Hm. subst.
    unfold PyDict.keys in Hnd. cbn [map fst] in Hnd.
    inversion Hnd as [|? ? Hfresh Hnd']; subst.
    cbn [collect_regions]. rewrite ReplaceExtra.slide_index_of_key.
    cbn [bind]. unfold PyDict.items.
    destruct (IH Hrest Hnd'
                match map (fun e : string * ShapeBox => region_of (snd e)) shapes with
                | [] => acc
                | _ :: _ =>
                    set_regions (Z.of_nat m)
                      (map (fun e : string * ShapeBox => region_of (snd e)) shapes)
                      acc
                end) as (regs & Hrun & Hget).
    exists regs. split; [exact Hrun|]. intros n. rewrite Hget.
    cbn [PyDict.get].
    destruct (String.eqb ("slide-" +++ str_of_nat n) ("slide-" +++ str_of_nat m))
      eqn:E.
    + apply String.eqb_eq in E. apply slide_key_injective in E. subst m.
      assert (Hnone : PyDict.get ("slide-" +++ str_of_nat n) rest = None)
        by (now apply PyDictFacts.get_None).
      rewrite Hnone. destruct shapes as [|shape shapes]; [reflexivity|].
      cbn [map]. apply get_set_regions_same.
    + destruct (PyDict.get ("slide-" +++ str_of_nat n) rest) as [[|sh shs]|];
        try reflexivity;
        (destruct shapes as [|shape shapes]; [reflexivity|]; cbn [map];
         apply get_set_regions_other; intros Heq;
         apply Nat2Z.inj in Heq; subst m;
         rewrite String.eqb_refl in E; discriminate).
Qed.

(** X24. For an inventory that names its slides [slide-0], [slide-1],
    ..., each once, [get_placeholder_regions] returns, and the
    dictionary it builds has, under the index of a slide, the boxes of
    the shapes of that slide in their order; a slide without a shape,
    or one the inventory does not list, has no entry.  The slide size
    is the one given, in inches, or 10 by 5.625 inches when none is
    given. *)
Theorem get_placeholder_regions_by_index
    (inventory : PyDict.dict (PyDict.dict ShapeBox))
    (slide_width slide_height : option Z) :
  Forall (fun e => exists n, fst e = "slide-" +++ str_of_nat n) inventory ->
  NoDup (PyDict.keys inventory) ->
  exists regs dims,
    get_placeholder_regions inventory slide_width slide_height = Ok (regs, dims)
    /\ (forall n, get_regions (Z.of_nat n) regs = regions_of_slide inventory n)
    /\ (slide_width = None -> slide_height = None ->
        (fst dims == 10 /\ snd dims == 5625 # 1000)%Q).
Proof.
  intros Hkeys Hnd. unfold get_placeholder_regions, PyDict.items.
  destruct (collect_regions_lookup Hkeys Hnd []) as (regs & Hrun & Hget).
  rewrite Hrun. cbn [bind]. do 2 eexists. split; [reflexivity|]. split.
  - intros n. rewrite Hget. now destruct (regions_of_slide inventory n).
  - intros -> ->. cbn [fst snd or_default]. split; reflexivity.
Qed.

Lemma combine_app {A B} (l1 l2 : list A) (m1 m2 : list B) :
  List.length l1 = List.length m1 ->
  combine (l1 ++ l2) (m1 ++ m2) = combine l1 m1 ++ combine l2 m2.
Proof.
  revert m1. induction l1 as [|a l1 IH]; intros [|b m1] H;
    try discriminate; cbn [app combine]; [reflexivity|].
  f_equal. apply IH. now injection H.
Qed.

Lemma slice_then_rest {A} (l : list A) (start m : nat) :
  slice l start (Nat.min (start + m) (List.length l)) ++ skipn (start + m) l
  = skipn start l.
Proof.
  unfold slice.
  destruct (Nat.le_gt_cases (start + m) (List.length l)) as [Hle|Hgt].
  - rewrite Nat.min_l by lia.
    replace (start + m - start) with m by lia.
    replace (start + m) with (m + start) by lia.
    rewrite <- skipn_skipn. apply firstn_skipn.
  - rewrite Nat.min_r by lia.
    rewrite firstn_all2 by (rewrite length_skipn; lia).
    rewrite (skipn_all2 (n := start + m)) by lia.
    apply app_nil_r.
Qed.

(** The chunks of a deck, each paired with what is looked up for its
    positions, make up the deck paired with what is looked up for its
    positions. *)
Lemma chunks_paired {A B} (f : nat -> B) (l : list A) (m : nat) :
  0 < m -> forall fuel start,
  List.length l - start <= fuel ->
  flat_map (fun s =>
              combine (slice l s (Nat.min (s + m) (List.length l)))
                (map f (seq s (Nat.min (s + m) (List.length l) - s))))
    (range_fuel fuel start (List.length l) m)
  = combine (skipn start l) (map f (seq start (List.length l - start))).
Proof.
  intros Hm. set (n := List.length l).
  induction fuel as [|fuel IH]; intros start Hfuel.
  - replace (n - start) with 0 by lia.
    cbn [range_fuel flat_map seq map]. now destruct (skipn start l).
  - cbn [range_fuel]. destruct (start <? n) eqn:E.
    + apply Nat.ltb_lt in E. cbn [flat_map]. rewrite IH by lia.
      set (stop := Nat.min (start + m) n).
      assert (Hlen : List.length (slice l start stop) = stop - start)
        by (apply ThumbnailFacts.slice_length; unfold stop; fold n; lia).
      rewrite <- combine_app by (now rewrite length_map, length_seq).
      unfold stop. unfold n at 1.
      rewrite slice_then_rest. f_equal.
      rewrite <- map_app. f_equal. fold n.
      destruct (Nat.le_gt_cases (start + m) n) as [Hle|Hgt].
      * rewrite Nat.min_l by lia.
        replace (start + m - start) with m by lia.
        rewrite <- seq_app. f_equal. lia.
      * rewrite Nat.min_r by lia.
        replace (n - (start + m)) with 0 by lia.
        cbn [seq]. apply app_nil_r.
    + apply Nat.ltb_ge in E. replace (n - start) with 0 by lia.
      cbn [flat_map seq map]. now destruct (skipn start l).
Qed.

Section Outlines.
Variable R : Type.
Variable font_size_of : Z -> Z.
Variable label_padding_of : Z -> Z.
Variable height_of : string -> Z -> Z.
Variable text_width : Z -> string -> Z.
Variable thumbnail_size : string -> Z -> Z -> Z * Z.

Lemma place_thumbnails_outlines cols width height font_size label_padding
    (start : nat) (regions : option (Z -> option R))
    (image_paths : list string) : forall i : nat,
  flat_map (@outline_of R)
    (place_thumbnails text_width thumbnail_size image_paths (Z.of_nat i) cols
       width height font_size label_padding (Z.of_nat start) regions)
  = combine image_paths
      (map (regions_at regions) (seq (start + i) (List.length image_paths))).
Proof.
  induction image_paths as [|img_path rest IH]; intros i; [reflexivity|].
  cbn [place_thumbnails List.length seq map combine].
  destruct (thumbnail_size img_path width height) as [w h].
  cbn [app flat_map outline_of]. rewrite flat_map_app.
  cbn [BORDER_WIDTH Z.ltb Z.compare flat_map outline_of app].
  f_equal.
  - f_equal. unfold regions_at. destruct regions as [r|]; [|reflexivity].
    f_equal. lia.
  - replace (Z.of_nat i + 1)%Z with (Z.of_nat (S i)) by lia.
    rewrite IH. replace (start + S i) with (S (start + i)) by lia.
    reflexivity.
Qed.

Lemma create_grid_outlines (chunk : list string) (cols width : Z)
    (start : nat) regions (g : grid R) :
  create_grid font_size_of label_padding_of height_of text_width
    thumbnail_size chunk cols width (Z.of_nat start) regions = Ok g ->
  outlines g
  = combine chunk (map (regions_at regions) (seq start (List.length chunk))).
Proof.
  intros Hg. apply ThumbnailFacts.create_grid_returned in Hg.
  destruct Hg as (first & _ & _ & _ & _ & _ & _ & Hops).
  unfold outlines. rewrite Hops.
  rewrite (place_thumbnails_outlines cols width _ _ _ start regions chunk 0).
  now rewrite Nat.add_0_r.
Qed.

Lemma create_grids_outlines (image_paths : list string) (cols width : Z)
    (output_path : out_path) (regions : option (Z -> option R))
    (grids : list (string * grid R)) :
  create_grids font_size_of label_padding_of height_of text_width
    thumbnail_size image_paths cols width output_path regions = Ok grids ->
  flat_map (fun fg => outlines (snd fg)) grids
  = combine image_paths
      (map (regions_at regions) (seq 0 (List.length image_paths))).
Proof.
  intros Hrun. apply ThumbnailFacts.create_grids_returned in Hrun.
  destruct Hrun as (Hmax & _ & Hgrids).
  set (m := Z.to_nat (cols * (cols + 1))) in *.
  set (n := List.length image_paths) in *.
  rewrite (@ThumbnailFacts.flat_map_in_step _ _ _
             (fun s => combine (slice image_paths s (Nat.min (s + m) n))
                         (map (regions_at regions)
                            (seq s (Nat.min (s + m) n - s))))
             (fun fg => outlines (snd fg)) (range 0 n m) grids).
  - unfold range, n.
    rewrite (@chunks_paired _ _ (regions_at regions) image_paths m Hmax
               (List.length image_paths - 0) 0 (le_n _)).
    now rewrite Nat.sub_0_r.
  - pose proof (ThumbnailFacts.range_fuel_in_range (n - 0) m 0 n) as Hin.
    fold (range 0 n m) in Hin.
    induction Hgrids as [|s fg starts gs Hs _ IH]; constructor.
    + inversion Hin as [|? ? Hlt _]; subst.
      apply create_grid_outlines in Hs.
      rewrite Hs, ThumbnailFacts.slice_length by (fold n; lia).
      reflexivity.
    + apply IH. now inversion Hin.
Qed.

(** X25. Whatever grid an image lands on, [create_grids] outlines on
    it what is looked up under its position in the deck, counted from
    0: whenever the call returns, the images pasted, grid after grid,
    are the images of the deck in order, the image of position [i]
    with the regions recorded for [i], and without outline when there
    are none. *)
Theorem create_grids_outlines_by_position (image_paths : list string)
    (cols width : Z) (output_path : out_path)
    (regions : option (Z -> option R)) (grids : list (string * grid R)) :
  create_grids font_size_of label_padding_of height_of text_width
    thumbnail_size image_paths cols width output_path regions = Ok grids ->
  flat_map (fun fg => outlines (snd fg)) grids
  = combine image_paths
      (map (regions_at regions) (seq 0 (List.length image_paths)))
  /\ forall i img_path,
       nth_error image_paths i = Some img_path ->
       nth_error (flat_map (fun fg => outlines (snd fg)) grids) i
       = Some (img_path, regions_at regions i).
Proof.
  intros Hrun. apply create_grids_outlines in Hrun.
  split; [exact Hrun|]. rewrite Hrun. clear Hrun.
  intros i img_path Hi.
  change i with (0 + i) at 2. generalize 0 as start.
  revert i Hi.
  induction image_paths as [|p rest IH]; intros i Hi start.
  - destruct i; discriminate.
  - cbn [List.length seq map combine]. destruct i as [|i].
    + injection Hi as ->. cbn [nth_error]. now rewrite Nat.add_0_r.
    + cbn [nth_error] in *. rewrite (IH i Hi (S start)).
      do 3 f_equal. lia.
Qed.

End Outlines.

Lemma lookup_regions (regs : regions_dict) (n : nat) :
  regions_at (as_lookup regs) n = get_regions (Z.of_nat n) regs.
Proof. now destruct regs. Qed.

Section Composition.
Variable font_size_of : Z -> Z.
Variable label_padding_of : Z -> Z.
Variable height_of : string -> Z -> Z.
Variable text_width : Z -> string -> Z.
Variable thumbnail_size : string -> Z -> Z -> Z * Z.

(** X26. Outlining end to end.  [get_placeholder_regions] returns on
    an inventory naming its slides [slide-0], [slide-1], ..., each
    once; with the regions it has read, whenever [create_grids]
    returns, the grids show the image of every deck position outlined
    with the boxes of the text shapes of the slide of that index, and
    without outline when the slide has none. *)
Theorem slides_outlined_with_own_regions
    (inventory : PyDict.dict (PyDict.dict ShapeBox))
    (slide_width slide_height : option Z) (image_paths : list string)
    (cols width : Z) (output_path : out_path) :
  Forall (fun e => exists n, fst e = "slide-" +++ str_of_nat n) inventory ->
  NoDup (PyDict.keys inventory) ->
  exists regs dims,
    get_placeholder_regions inventory slide_width slide_height = Ok (regs, dims)
    /\ forall grids,
         create_grids font_size_of label_padding_of height_of text_width
           thumbnail_size image_paths cols width output_path (as_lookup regs)
         = Ok grids ->
         flat_map (fun fg => outlines (snd fg)) grids
         = combine image_paths
             (map (regions_of_slide inventory)
                (seq 0 (List.length image_paths))).
Proof.
  intros Hkeys Hnd. unfold get_placeholder_regions, PyDict.items.
  destruct (collect_regions_lookup Hkeys Hnd []) as (regs & Hrun & Hget).
  rewrite Hrun. cbn [bind].
  do 2 eexists. split; [reflexivity|].
  intros grids Hgrids. apply create_grids_outlines in Hgrids.
  rewrite Hgrids. f_equal.
  apply map_ext. intros n. rewrite lookup_regions, Hget.
  now destruct (regions_of_slide inventory n).
Qed.

End Composition.

Lemma get_placeholder_regions_by_index_witness :
  exists regs dims,
    get_placeholder_regions RegionsExample.inventory None None = Ok (regs, dims)
    /\ get_regions 0 regs = Some [region_of RegionsExample.title_box]
    /\ get_regions 1 regs = None.
Proof.
  assert (Hkeys : Forall (fun e : string * PyDict.dict ShapeBox =>
                            exists n, fst e = "slide-" +++ str_of_nat n)
                    RegionsExample.inventory)
    by (repeat constructor; [now exists 0|now exists 1]).
  assert (Hnd : NoDup (PyDict.keys RegionsExample.inventory))
    by (vm_compute; repeat constructor; cbn; intuition discriminate).
  destruct (@get_placeholder_regions_by_index RegionsExample.inventory None None
              Hkeys Hnd)
    as (regs & dims & Hrun & Hget & _).
  exists regs, dims. split; [exact Hrun|]. split.
  - exact (Hget 0).
  - exact (Hget 1).
Defined.

Lemma create_grids_outlines_by_position_witness :
  exists grids : list (string * grid unit),
    ThumbnailExample.grids_example = Ok grids
    /\ flat_map (fun fg => outlines (snd fg)) grids
       = [("slide-1.jpg", None); ("slide-2.jpg", None); ("slide-3.jpg", None)].
Proof.
  destruct ThumbnailExample.grids_example as [grids|e] eqn:E;
    [|vm_compute in E; discriminate].
  exists grids. split; [reflexivity|].
  apply (@create_grids_outlines_by_position unit
           ThumbnailExample.font_size_of ThumbnailExample.label_padding_of
           ThumbnailExample.height_of ThumbnailExample.text_width
           ThumbnailExample.thumbnail_size ThumbnailExample.three_slides
           1%Z 300%Z ThumbnailExample.thumbnails None grids E).
Defined.

Lemma slides_outlined_with_own_regions_witness :
  exists regs dims grids,
    get_placeholder_regions RegionsExample.inventory None None = Ok (regs, dims)
    /\ create_grids ThumbnailExample.font_size_of
         ThumbnailExample.label_padding_of ThumbnailExample.height_of
         ThumbnailExample.text_width ThumbnailExample.thumbnail_size
         ["slide-1.jpg"; "slide-2.jpg"] 1 300 ThumbnailExample.thumbnails
         (as_lookup regs) = Ok grids
    /\ flat_map (fun fg => outlines (snd fg)) grids
       = [("slide-1.jpg", Some [region_of RegionsExample.title_box]);
          ("slide-2.jpg", None)].
Proof.
  assert (Hkeys : Forall (fun e : string * PyDict.dict ShapeBox =>
                            exists n, fst e = "slide-" +++ str_of_nat n)
                    RegionsExample.inventory)
    by (repeat constructor; [now exists 0|now exists 1]).
  assert (Hnd : NoDup (PyDict.keys RegionsExample.inventory))
    by (vm_compute; repeat constructor; cbn; intuition discriminate).
  destruct (@slides_outlined_with_own_regions ThumbnailExample.font_size_of
              ThumbnailExample.label_padding_of ThumbnailExample.height_of
              ThumbnailExample.text_width ThumbnailExample.thumbnail_size
              RegionsExample.inventory None None ["slide-1.jpg"; "slide-2.jpg"]
              1%Z 300%Z ThumbnailExample.thumbnails Hkeys Hnd)
    as (regs & dims & Hregs & Hgrids).
  vm_compute in Hregs. injection Hregs as <- <-.
  eexists _, _, _. split; [reflexivity|].
  split; [vm_compute; reflexivity|].
  apply Hgrids. vm_compute. reflexivity.
Defined.

End ThumbnailRegionsExtra.
